(** * Argus event-memory pipeline

    A shallow embedding of the core of the Argus WhatsApp assistant:
    - [Quicksave]  : src/argus/src/quicksave.ts (signal filter, dense encoding,
                     edge detection);
    - [Matcher]    : src/argus/src/matcher.ts (URL keyword extraction and the
                     cascading context match);
    - [Ingestion]  : src/argus/src/ingestion.ts (action routing, event
                     extraction and upsert).

    Conventions.
    - A JavaScript string is a Rocq [string] holding its UTF-8 bytes.  Splitting
      on and searching for ASCII text is then the same computation as in
      JavaScript; the operations that depend on Unicode tables, on the locale
      or on the calendar ([toLowerCase], [trim], [length], date parsing and
      formatting, [JSON], regular expressions, splitting on white space,
      [URL]), and the properties that an object literal inherits, are fields
      of the class [JS.Builtins] and every definition is generic in them.
    - Unix times, identifiers and counters are [Z]; the model's confidences are
      IEEE-754 doubles ([PrimFloat.float]), compared as the code compares them.
    - [null], [undefined] and absent optional fields are [None]; the truthiness
      tests of the code are written out ([JS.truthyStr], [JS.truthyNum]).
    - Calls to the store (db.js), to the language model (gemini.js) and to the
      clock are nodes of a program tree ([Collab.Prog]); a run ([Collab.Runs])
      is a path through the tree together with the answers the collaborators
      gave, so a statement about all runs holds whatever they answer.  The
      compressor, which calls no collaborator, takes the readings of the clock
      as a function of their rank.

    The definitions come first; [Demo] holds sample data; the modules whose
    names end in [Facts] hold the proofs. *)

From Stdlib Require Import ZArith List String Ascii Bool Lia PrimFloat Uint63 DecimalString.
Import ListNotations.
Set Warnings "-inexact-float,-register-all".
Open Scope string_scope.
Open Scope Z_scope.

(* ================================================================== *)
(** ** JavaScript values and built-ins                                  *)
(* ================================================================== *)

Module JS.

(** [s] as a condition: [null], [undefined] and the empty string are falsy. *)
Definition truthyStr (s : option string) : option string :=
  match s with
  | Some EmptyString => None
  | other => other
  end.

(** [n] as a condition: [null], [undefined] and [0] are falsy ([NaN] is [None]). *)
Definition truthyNum (n : option Z) : option Z :=
  match n with
  | Some 0 => None
  | other => other
  end.

Definition isSome {A} (o : option A) : bool :=
  match o with Some _ => true | None => false end.

(** [s || d] for an optional string. *)
Definition orElse (s : option string) (d : string) : string :=
  match truthyStr s with Some x => x | None => d end.

(** [parts.join(sep)]. *)
Fixpoint join (sep : string) (parts : list string) : string :=
  match parts with
  | [] => EmptyString
  | [p] => p
  | p :: rest => p ++ sep ++ join sep rest
  end.

(** [s.includes(sub)]. *)
Fixpoint includes (s sub : string) : bool :=
  if String.prefix sub s then true
  else match s with
       | EmptyString => false
       | String _ s' => includes s' sub
       end.

(** [s.split(sep)] for a one-character separator. *)
Fixpoint split_on (sep : ascii) (s : string) : list string :=
  match s with
  | EmptyString => [EmptyString]
  | String c s' =>
      if Ascii.eqb c sep then EmptyString :: split_on sep s'
      else match split_on sep s' with
           | [] => [String c EmptyString]
           | w :: ws => String c w :: ws
           end
  end.


(** [`${n}`] for an integer [n]. *)
Definition showZ (n : Z) : string := NilZero.string_of_int (Z.to_int n).

(** The double quote, as a one-character string. *)
Definition dquote : string := String "034"%char EmptyString.

(** [[...new Set(l)]]: first occurrences, in order. *)
Fixpoint dedup {A} (eqb : A -> A -> bool) (l : list A) : list A :=
  match l with
  | [] => []
  | x :: rest => x :: filter (fun y => negb (eqb x y)) (dedup eqb rest)
  end.

(** Values [JSON.parse] can return. *)
Inductive Json :=
| JNull
| JBool (b : bool)
| JNum (f : float)
| JStr (s : string)
| JArr (items : list Json)
| JObj (fields : list (string * Json)).

(** Built-ins whose result depends on Unicode, the locale, the calendar or a
    parser of the platform.  A function that can throw or yield [NaN] returns an
    [option]. *)
Class Builtins := {
  toLowerCase : string -> string;
  trim : string -> string;
  (** [s.length] (UTF-16 code units) *)
  strLength : string -> Z;
  (** [[...s]]: the code points of [s], one string each *)
  codePoints : string -> list string;
  (** [new Date(s).getTime()], [None] for [NaN] *)
  Date_getTime : string -> option Z;
  (** [new Date(ms).toISOString()] *)
  toISOString : Z -> string;
  (** [new Date(ms).getDay()] *)
  getDay : Z -> nat;
  (** [toLocaleDateString('en-US', {weekday:'short', month:'short', day:'numeric'})] *)
  dateWeekdayMonthDay : Z -> string;
  (** [toLocaleDateString('en-US', {month:'short', day:'numeric'})] *)
  dateMonthDay : Z -> string;
  (** [toLocaleTimeString('en-US', {hour:'numeric', minute:'2-digit'})] *)
  timeHourMinute : Z -> string;
  (** [parseInt(s)], [None] for [NaN] *)
  parseInt : string -> option Z;
  (** [JSON.parse(s)], [None] when it throws *)
  JSON_parse : string -> option Json;
  JSON_stringify : Json -> string;
  (** [s.match(re)] for the regular expression with source [re] and flag [i]:
      the groups 0, 1, 2, ... of the first match *)
  regexMatch : string -> string -> option (list (option string));
  (** [new URL(s).pathname], [None] when the constructor throws *)
  URL_pathname : string -> option string;
  (** [decodeURIComponent(s)], [None] when it throws *)
  decodeURIComponent : string -> option string;
  (** the trivial-noise pre-filter of gemini.js, a synchronous pure function
      whose source is not part of this development *)
  shouldSkipMessage : string -> bool;
  (** [s.split(/\s+/)]: the runs between the white space of the platform
      (the ASCII blanks, U+00A0 and the other Unicode spaces) *)
  splitWhitespace : string -> list string;
  (** [`${({})[key]}`] for a name [key] that an object literal without own
      properties answers, that is a property of [Object.prototype]
      ([constructor], [toString], [__proto__], ...): the text of the function
      or object found there; [None] for every other name *)
  inheritedText : string -> option string;
}.

End JS.
Export JS.

(* ================================================================== *)
(** ** quicksave.ts: the context compressor                            *)
(* ================================================================== *)

Module Quicksave.

Inductive Relation := cancels | updates | conflicts | related | same_topic.

Definition relationName (r : Relation) : string :=
  match r with
  | cancels => "cancels"
  | updates => "updates"
  | conflicts => "conflicts"
  | related => "related"
  | same_topic => "same_topic"
  end.

Record EventEdge := {
  sourceId : Z;
  targetId : Z;
  relation : Relation;
}.

Record CompressibleEvent := {
  id : Z;
  title : string;
  description : option string;
  event_type : string;
  event_time : option Z;
  location : option string;
  status : string;
  keywords : string;
  sender_name : option string;
  context_url : option string;
  created_at : option Z;
}.

Record CompressedContext := {
  events : string;
  eventCount : Z;
  tokenEstimate : Z;
  edges : list EventEdge;
  compressionRatio : float;
}.

(** The object literal [STATUS_MARKERS]: its own properties, in order. *)
Definition STATUS_MARKERS : list (string * string) :=
  [ ("discovered", "🆕"); ("scheduled", "⏰"); ("completed", "✅");
    ("ignored", "🚫"); ("snoozed", "💤"); ("reminded", "🔔"); ("expired", "⌛") ].

(** The object literal [TYPE_MARKERS]. *)
Definition TYPE_MARKERS : list (string * string) :=
  [ ("meeting", "MTG"); ("deadline", "DL"); ("reminder", "RMD"); ("travel", "TRV");
    ("task", "TSK"); ("subscription", "SUB"); ("recommendation", "REC");
    ("other", "OTH") ].

(** The own property [key] of an object literal. *)
Definition ownProperty (table : list (string * string)) (key : string)
  : option string :=
  match find (fun entry => (fst entry =? key)%string) table with
  | Some entry => Some (snd entry)
  | None => None
  end.

(** An event with the priority [filterBySignal] gave it
    ([CompressibleEvent & { priority: number }]). *)
Record Ranked := {
  ev : CompressibleEvent;
  priority : Z;
}.

Section WithBuiltins.
Context `{Builtins}.

(** The body of the [map] of [filterBySignal]; [now] is
    [Math.floor(Date.now() / 1000)].  The comparisons of [hoursUntil] and
    [daysOld], quotients by 3600 and 86400, are written on the seconds. *)
Definition signalPriority (now : Z) (e : CompressibleEvent) : Z :=
  let p := 5 in
  let p :=
    match truthyNum (event_time e) with
    | Some t =>
        let d := t - now in
        if (0 <? d) && (d <=? 2 * 3600) then p + 4
        else if (0 <? d) && (d <=? 24 * 3600) then p + 3
        else if (0 <? d) && (d <=? 168 * 3600) then p + 2
        else if (168 * 3600 <? d) && (d <=? 720 * 3600) then p + 1
        else if d <? 0 then p - 2
        else p
    | None => p
    end in
  let p := if (status e =? "completed")%string || (status e =? "ignored")%string
           then p - 3 else p in
  let p := if (status e =? "scheduled")%string then p + 1 else p in
  let p := if (status e =? "snoozed")%string then p + 1 else p in
  let p := if isSome (truthyStr (context_url e)) then p + 1 else p in
  let p :=
    match truthyNum (created_at e) with
    | Some c =>
        let age := now - c in
        let p := if 30 * 86400 <? age then p - 1 else p in
        if 90 * 86400 <? age then p - 2 else p
    | None => p
    end in
  let p := if (event_type e =? "recommendation")%string
              && isSome (truthyStr (context_url e))
           then p + 1 else p in
  Z.max 0 (Z.min 10 p).

(** [sort((a, b) => b.priority - a.priority)]: descending and stable. *)
Fixpoint insertRanked (x : Ranked) (l : list Ranked) : list Ranked :=
  match l with
  | [] => [x]
  | y :: rest => if priority x <? priority y then y :: insertRanked x rest
                 else x :: l
  end.

Definition sortRanked (l : list Ranked) : list Ranked :=
  fold_right insertRanked [] l.

Definition filterBySignal (nowMs : Z) (evs : list CompressibleEvent) : list Ranked :=
  let now := nowMs / 1000 in
  sortRanked (map (fun e => {| ev := e; priority := signalPriority now e |}) evs).

(** The keyword set of one event, in insertion order. *)
Definition kwSet (e : CompressibleEvent) : list string :=
  dedup String.eqb
    (filter (fun k => 2 <? strLength k)
       (map trim (split_on "," (toLowerCase (keywords e))))).

(** The body of the inner loop of [detectEventEdges] for the pair
    [events[i] = a], [events[j] = b]. *)
Definition pairEdges (a b : CompressibleEvent) : list EventEdge :=
  let overlap := filter (fun k => existsb (String.eqb k) (kwSet b)) (kwSet a) in
  let topic :=
    if (2 <=? List.length overlap)%nat then
      let titleA := toLowerCase (title a) in
      let titleB := toLowerCase (title b) in
      let aIsSub := (event_type a =? "subscription")%string in
      let bIsSub := (event_type b =? "subscription")%string in
      let aIsCancel := includes titleA "cancel" || includes titleA "unsubscribe" in
      let bIsCancel := includes titleB "cancel" || includes titleB "unsubscribe" in
      if (aIsSub && bIsCancel) || (bIsSub && aIsCancel)
      then [ {| sourceId := id a; targetId := id b; relation := cancels |} ]
      else [ {| sourceId := id a; targetId := id b; relation := same_topic |} ]
    else [] in
  let clash :=
    match truthyNum (event_time a), truthyNum (event_time b) with
    | Some ta, Some tb =>
        let diff := Z.abs (ta - tb) in
        if (diff <=? 3600) && (0 <? diff)
        then [ {| sourceId := id a; targetId := id b; relation := conflicts |} ]
        else []
    | _, _ => []
    end in
  topic ++ clash.

(** The inner loop: [a = events[i]] against [events[i+1 ..]]. *)
Fixpoint edgesWith (a : CompressibleEvent) (rest : list CompressibleEvent)
  : list EventEdge :=
  match rest with
  | [] => []
  | b :: rest' => pairEdges a b ++ edgesWith a rest'
  end.

(** The outer loop. *)
Fixpoint edgesOfPairs (evs : list CompressibleEvent) : list EventEdge :=
  match evs with
  | [] => []
  | a :: rest => edgesWith a rest ++ edgesOfPairs rest
  end.

Definition detectEventEdges (evs : list CompressibleEvent) : list EventEdge :=
  if (List.length evs <? 2)%nat then [] else edgesOfPairs evs.

(** [l.slice(0, n)]. *)
Definition slice0 {A} (n : Z) (l : list A) : list A :=
  if n <? 0 then firstn (List.length l - Z.to_nat (- n)) l
  else firstn (Z.to_nat n) l.

(** [table[key] || fallback] as it is printed in a line: the own property when
    it is a non-empty string; else what the object inherits under that name,
    a function or an object and so truthy; else the fallback. *)
Definition marker (table : list (string * string)) (key fallback : string)
  : string :=
  match ownProperty table key with
  | Some own => orElse (Some own) fallback
  | None =>
      match inheritedText key with
      | Some text => text
      | None => fallback
      end
  end.

(** The milliseconds a [Date] can hold; outside them [getTime()] is [NaN]. *)
Definition inDateRange (ms : Z) : bool := Z.abs ms <=? 8640000000000000.

(** The time column of a dense line; [nowMs] is the [Date.now()] read for this
    line.  A comparison with [NaN] is false. *)
Definition timeColumn (nowMs : Z) (e : CompressibleEvent) : string :=
  match truthyNum (event_time e) with
  | Some t =>
      let ms := t * 1000 in
      let isPast := inDateRange ms && (ms <? nowMs) in
      let timeStr := dateWeekdayMonthDay ms ++ " " ++ timeHourMinute ms in
      if isPast then timeStr ++ " [PAST]" else timeStr
  | None => "—"
  end.

(** The eight parts of a dense line, in order. *)
Definition denseParts (nowMs : Z) (e : CompressibleEvent) : list string :=
  let type := marker TYPE_MARKERS (event_type e) "OTH" in
  let status := marker STATUS_MARKERS (status e) "❓" in
  [ "#" ++ showZ (id e);
    type;
    status;
    dquote ++ title e ++ dquote;
    timeColumn nowMs e;
    orElse (location e) "—";
    orElse (sender_name e) "?";
    keywords e ].

(** The body of the [map] that builds [lines]. *)
Definition denseLine (nowMs : Z) (e : CompressibleEvent) : string :=
  join "|" (denseParts nowMs e).

Definition newline : string := String "010"%char EmptyString.

(** The verbose form whose length is summed into [originalSize]. *)
Definition verboseForm (e : CompressibleEvent) : string :=
  "[x] ID#" ++ showZ (id e) ++ " | " ++ dquote ++ title e ++ dquote
  ++ " | type: " ++ event_type e ++ " | time: x | location: "
  ++ orElse (location e) "none" ++ " | status: " ++ status e
  ++ " | sender: " ++ orElse (sender_name e) "unknown"
  ++ " | keywords: " ++ keywords e
  ++ match truthyStr (description e) with
     | Some d => " | desc: " ++ d
     | None => EmptyString
     end.

Definition floatOfZ (n : Z) : float := PrimFloat.of_uint63 (Uint63.of_Z n).

(** The [map] that builds [lines].  [clock k] is what the [k]-th reading of
    [Date.now()] during the call returns; a line reads the clock only when
    its event has a time, so the reading advances with those lines only. *)
Fixpoint denseLines (clock : nat -> Z) (k : nat) (selected : list Ranked)
  : list string :=
  match selected with
  | [] => []
  | r :: rest =>
      denseLine (clock k) (ev r)
      :: denseLines clock (if isSome (truthyNum (event_time (ev r))) then S k else k)
           rest
  end.

(** One entry of the relationship hints. *)
Definition edgeLabel (e : EventEdge) : string :=
  "#" ++ showZ (sourceId e) ++ "→#" ++ showZ (targetId e)
  ++ "(" ++ relationName (relation e) ++ ")".

(** [compressEventsForPrompt(events, maxEvents = 60)].  The clock is read once
    by [filterBySignal] (reading 0) and then once for every line whose event
    has a time (readings 1, 2, ...). *)
Definition compressEventsForPrompt (clock : nat -> Z) (evs : list CompressibleEvent)
    (maxEvents : option Z) : CompressedContext :=
  match evs with
  | [] => {| events := "No events stored yet."; eventCount := 0; tokenEstimate := 5;
             edges := []; compressionRatio := 1%float |}
  | _ =>
      let maxEvents := match maxEvents with Some n => n | None => 60 end in
      let originalSize :=
        fold_left (fun acc e => acc + strLength (verboseForm e)) evs 0 in
      let ranked := filterBySignal (clock O) evs in
      let selected := slice0 maxEvents ranked in
      let lines := denseLines clock 1 selected in
      let compressed := join newline lines in
      let found := detectEventEdges (map ev selected) in
      let edgeSuffix :=
        match found with
        | [] => EmptyString
        | _ =>
            let edgeLines := map edgeLabel (slice0 10 found) in
            newline ++ "Relationships: " ++ join ", " edgeLines
        end in
      {| events := compressed ++ edgeSuffix;
         eventCount := Z.of_nat (List.length selected);
         tokenEstimate := (strLength compressed + strLength edgeSuffix + 3) / 4;
         edges := found;
         compressionRatio :=
           if 0 <? originalSize
           then (floatOfZ originalSize / floatOfZ (strLength compressed))%float
           else 1%float |}
  end.

End WithBuiltins.


(** [a] stands before [b] in the list. *)
Definition Before {A} (a b : A) (l : list A) : Prop :=
  exists l1 l2 l3, l = (l1 ++ a :: l2 ++ b :: l3)%list.

End Quicksave.

(* ================================================================== *)
(** ** Records exchanged with the collaborators                        *)
(* ================================================================== *)

(** Modelled from the spec: types.ts is not among the sources; the records
    below have the fields that §3 and §6 of the specification list and that
    ingestion.ts and matcher.ts read or write.  Each record sits in a module of
    its own so that the fields keep their names. *)

Module Message.
Record t := {
  id : string;
  chat_id : string;
  sender : string;
  content : string;
  timestamp : option Z;
}.
End Message.

Module Contact.
Record t := {
  id : string;
  name : option string;
  first_seen : option Z;
  last_seen : option Z;
  message_count : Z;
}.
End Contact.

(** A stored event; [insertEvent] receives one without [id]. *)
Module Event.
Record t := {
  id : option Z;
  message_id : option string;
  event_type : string;
  title : string;
  description : option string;
  event_time : option Z;
  location : option string;
  participants : string;
  keywords : string;
  confidence : float;
  status : string;
  context_url : option string;
  sender_name : option string;
}.
End Event.

Inductive TriggerType := time_24h | time_1h | time_15m | url | keyword.

Module Trigger.
Record t := {
  event_id : Z;
  trigger_type : TriggerType;
  trigger_value : string;
  is_fired : bool;
}.
End Trigger.

(** What [detectAction] is told about an active event. *)
Module ActiveSummary.
Record t := {
  id : option Z;
  title : string;
  event_type : string;
  keywords : string;
}.
End ActiveSummary.

(** What [extractEvents] is told about an existing event. *)
Module EventForModel.
Record t := {
  id : option Z;
  title : string;
  event_type : string;
  keywords : string;
  event_time : option Z;
  location : option string;
  description : option string;
  sender_name : option string;
}.
End EventForModel.

(** The answer of [detectAction]. *)
Module Detected.
Record t := {
  isAction : bool;
  action : string;
  confidence : float;
  targetDescription : string;
  targetKeywords : list string;
  snoozeMinutes : option Z;
  newTime : option string;
  newTitle : option string;
  newLocation : option string;
  newDescription : option string;
}.
End Detected.

(** One candidate of the answer of [extractEvents]. *)
Module Extracted.
Record t := {
  type : string;
  title : string;
  description : option string;
  event_time : option string;
  location : option string;
  participants : list string;
  keywords : list string;
  confidence : float;
  event_action : option string;
  target_event_id : option Z;
}.
End Extracted.

(** The answer of [validateRelevance]. *)
Module Validation.
Record t := {
  relevant : list Z;
  confidence : float;
}.
End Validation.

(** The object [updateFields] handed to [updateEvent]: a field is [Some] when
    the key was assigned. *)
Module UpdateFields.
Record t := {
  title : option string;
  description : option string;
  location : option string;
  event_time : option Z;
  keywords : option string;
  participants : option string;
}.
Definition empty : t :=
  {| title := None; description := None; location := None;
     event_time := None; keywords := None; participants := None |}.
(** [Object.keys(updateFields).length > 0] *)
Definition hasKeys (u : t) : bool :=
  isSome (title u) || isSome (description u) || isSome (location u)
  || isSome (event_time u) || isSome (keywords u) || isSome (participants u).
End UpdateFields.

(* ================================================================== *)
(** ** Programs over the collaborators                                 *)
(* ================================================================== *)

Module Collab.

(** The functions of db.js and gemini.js that the core calls, each with its
    arguments as the call sites pass them and the type of its answer.  Neither
    file is among the sources: an answer is whatever the collaborator gives,
    and a statement about a program holds for every answer. *)
Inductive Call : Type -> Type :=
| insertMessage (m : Message.t) : Call unit
| upsertContact (c : Contact.t) : Call unit
| getRecentMessages (chat_id : string) (limit : Z) : Call (list Message.t)
| getActiveEvents (limit : Z) : Call (list Event.t)
| findActiveEventsByKeywords (kws : list string) : Call (list Event.t)
| deleteEvent (id : Z) : Call unit
| dbCompleteEvent (id : Z) : Call unit
| ignoreEvent (id : Z) : Call unit
| snoozeEvent (id : Z) (minutes : Z) : Call unit
| updateEvent (id : Z) (fields : UpdateFields.t) : Call bool
| findDuplicateEvent (title : string) (hours : Z) : Call (option Event.t)
| insertEvent (data : Event.t) : Call Z
| checkEventConflicts (time : Z) (minutes : Z) : Call (list Event.t)
| insertTrigger (t : Trigger.t) : Call unit
| searchEventsByLocation (kw : string) (days limit : Z) : Call (list Event.t)
| searchEventsByKeywords (kws : list string) (days limit : Z) : Call (list Event.t)
| detectAction (content : string) (context : list string)
    (active : list ActiveSummary.t) (timestamp : option Z) : Call Detected.t
| extractEvents (content : string) (context : list string) (nowIso : string)
    (existing : list EventForModel.t) (timestamp : option Z)
    : Call (list Extracted.t)
| validateRelevance (url title : string) (candidates : list Event.t)
    : Call Validation.t.

(** Modelled from the spec: db.js is not among the sources; of the storage
    primitives that §6 of the specification lists, the delete, complete,
    ignore, snooze, update and insert operations on events and triggers change
    the events or triggers of the store, and the get, find, check and search
    operations only read. *)
Definition writesEvents {X} (c : Call X) : bool :=
  match c with
  | deleteEvent _ | dbCompleteEvent _ | ignoreEvent _ | snoozeEvent _ _
  | updateEvent _ _ | insertEvent _ | insertTrigger _ => true
  | _ => false
  end.

(** A call to the language model. *)
Definition isModelCall {X} (c : Call X) : bool :=
  match c with
  | detectAction _ _ _ _ | extractEvents _ _ _ _ _ | validateRelevance _ _ _ => true
  | _ => false
  end.

(** The answer to a call: a value, or a failure (an exception or a rejected
    promise). *)
Inductive Res (X : Type) : Type :=
| Ok (x : X)
| Err.
Arguments Ok {X} x.
Arguments Err {X}.

(** A program: it returns, throws, calls a collaborator and goes on with the
    answer, or reads the clock ([Date.now()], milliseconds). *)
Inductive Prog (A : Type) : Type :=
| Ret (a : A)
| Throw
| Vis {X : Type} (c : Call X) (k : Res X -> Prog A)
| Clock (k : Z -> Prog A).
Arguments Ret {A} a.
Arguments Throw {A}.
Arguments Vis {A X} c k.
Arguments Clock {A} k.

Fixpoint bind {A B} (p : Prog A) (f : A -> Prog B) : Prog B :=
  match p with
  | Ret a => f a
  | Throw => Throw
  | Vis c k => Vis c (fun r => bind (k r) f)
  | Clock k => Clock (fun ms => bind (k ms) f)
  end.

(** A call outside any [try]: a failure propagates. *)
Definition call {X} (c : Call X) : Prog X :=
  Vis c (fun r => match r with Ok x => Ret x | Err => Throw end).

Definition now : Prog Z := Clock (fun ms => Ret ms).

(** A built-in that threw, outside any [try]. *)
Definition orThrow {A} (o : option A) : Prog A :=
  match o with Some a => Ret a | None => Throw end.

Declare Scope prog_scope.
Delimit Scope prog_scope with prog.
Notation "x <- m ;; k" := (bind m (fun x => k))
  (at level 61, m at next level, right associativity) : prog_scope.
Notation "m ;; k" := (bind m (fun _ => k))
  (at level 61, right associativity) : prog_scope.

(** What a run leaves behind: the calls with their answers, and the clock
    readings. *)
Inductive Step : Type :=
| Ev {X : Type} (c : Call X) (r : Res X)
| Tick (ms : Z).

(** [Runs p tr out]: against some collaborators, [p] makes exactly the steps
    [tr] and ends with [out]. *)
Fixpoint Runs {A} (p : Prog A) (tr : list Step) (out : Res A) : Prop :=
  match p with
  | Ret a => tr = [] /\ out = Ok a
  | Throw => tr = [] /\ out = Err
  | Vis c k => exists r tr', tr = Ev c r :: tr' /\ Runs (k r) tr' out
  | Clock k => exists ms tr', tr = Tick ms :: tr' /\ Runs (k ms) tr' out
  end.

(** The step is a call that changes events or triggers. *)
Definition stepWrites (s : Step) : bool :=
  match s with
  | Ev c _ => writesEvents c
  | Tick _ => false
  end.

Definition stepIsModelCall (s : Step) : bool :=
  match s with
  | Ev c _ => isModelCall c
  | Tick _ => false
  end.

Definition isOk {X} (r : Res X) : bool :=
  match r with Ok _ => true | Err => false end.

(** ** What a step shows *)

(** The call failed. *)
Definition stepFailed (s : Step) : bool :=
  match s with
  | Ev _ r => negb (isOk r)
  | Tick _ => false
  end.

(** A call that writes to the store. *)
Definition writesStore {X} (c : Call X) : bool :=
  match c with
  | insertMessage _ | upsertContact _ => true
  | other => writesEvents other
  end.

Definition stepWritesStore (s : Step) : bool :=
  match s with
  | Ev c _ => writesStore c
  | Tick _ => false
  end.

(** One of the mutations of the action handlers. *)
Definition isActionMutation {X} (c : Call X) : bool :=
  match c with
  | deleteEvent _ | dbCompleteEvent _ | ignoreEvent _ | snoozeEvent _ _ => true
  | _ => false
  end.

Definition stepIsActionMutation (s : Step) : bool :=
  match s with
  | Ev c _ => isActionMutation c
  | Tick _ => false
  end.

(** The event handed to [insertEvent], when the step is such a call. *)
Definition insertedEvent (s : Step) : option Event.t :=
  match s with
  | Ev c _ => match c with insertEvent d => Some d | _ => None end
  | Tick _ => None
  end.

(** The message handed to [insertMessage], when the step is such a call that
    succeeded. *)
Definition storedMessage (s : Step) : option Message.t :=
  match s with
  | Ev c r => match c with
              | insertMessage m => if isOk r then Some m else None
              | _ => None
              end
  | Tick _ => None
  end.

(** The identifier handed to [deleteEvent], when the step is such a call. *)
Definition deletedEvent (s : Step) : option Z :=
  match s with
  | Ev c _ => match c with deleteEvent i => Some i | _ => None end
  | Tick _ => None
  end.

(** The fields handed to [updateEvent], with the target. *)
Definition updatedEvent (s : Step) : option (Z * UpdateFields.t) :=
  match s with
  | Ev c _ => match c with updateEvent i f => Some (i, f) | _ => None end
  | Tick _ => None
  end.

(** The answer of [validateRelevance], when the step is such a call that
    succeeded. *)
Definition validationOf (s : Step) : option Validation.t :=
  match s with
  | Ev c r =>
      match c in Call X return Res X -> option Validation.t with
      | validateRelevance _ _ _ =>
          fun r => match r with Ok v => Some v | Err => None end
      | _ => fun _ => None
      end r
  | Tick _ => None
  end.

(** The candidates handed to [validateRelevance]. *)
Definition validatedCandidates (s : Step) : option (list Event.t) :=
  match s with
  | Ev c _ => match c with validateRelevance _ _ cands => Some cands | _ => None end
  | Tick _ => None
  end.

(** The step is a call of [findActiveEventsByKeywords]. *)
Definition isKeywordSearch (s : Step) : bool :=
  match s with
  | Ev c _ => match c with findActiveEventsByKeywords _ => true | _ => false end
  | Tick _ => false
  end.

(** The answer of [findActiveEventsByKeywords], when the step is such a call
    that succeeded. *)
Definition keywordMatches (s : Step) : option (list Event.t) :=
  match s with
  | Ev c r =>
      match c in Call X return Res X -> option (list Event.t) with
      | findActiveEventsByKeywords _ =>
          fun r => match r with Ok l => Some l | Err => None end
      | _ => fun _ => None
      end r
  | Tick _ => None
  end.

(** The answer of [detectAction], when the step is such a call that
    succeeded. *)
Definition detectedAction (s : Step) : option Detected.t :=
  match s with
  | Ev c r =>
      match c in Call X return Res X -> option Detected.t with
      | detectAction _ _ _ _ =>
          fun r => match r with Ok a => Some a | Err => None end
      | _ => fun _ => None
      end r
  | Tick _ => None
  end.

(** The answer of [getActiveEvents], when the step is such a call that
    succeeded. *)
Definition activeFound (s : Step) : option (list Event.t) :=
  match s with
  | Ev c r =>
      match c in Call X return Res X -> option (list Event.t) with
      | getActiveEvents _ =>
          fun r => match r with Ok l => Some l | Err => None end
      | _ => fun _ => None
      end r
  | Tick _ => None
  end.

(** The step created or updated an event: an [insertEvent] that succeeded or
    an [updateEvent] that answered [true]. *)
Definition countsEvent (s : Step) : bool :=
  match s with
  | Ev c r =>
      match c in Call X return Res X -> bool with
      | insertEvent _ => fun r => isOk r
      | updateEvent _ _ => fun r => match r with Ok true => true | _ => false end
      | _ => fun _ => false
      end r
  | Tick _ => false
  end.

(** The step created a trigger: an [insertTrigger] that succeeded. *)
Definition countsTrigger (s : Step) : bool :=
  match s with
  | Ev c r => match c with insertTrigger _ => isOk r | _ => false end
  | Tick _ => false
  end.

Definition eventsIn (tr : list Step) : Z :=
  Z.of_nat (List.length (filter countsEvent tr)).

Definition triggersIn (tr : list Step) : Z :=
  Z.of_nat (List.length (filter countsTrigger tr)).

(** [Always P p]: whatever the collaborators answer, every step of [p]
    satisfies [P]. *)
Fixpoint Always {A} (P : Step -> Prop) (p : Prog A) : Prop :=
  match p with
  | Ret _ => True
  | Throw => True
  | Vis c k => forall r, P (Ev c r) /\ Always P (k r)
  | Clock k => forall ms, P (Tick ms) /\ Always P (k ms)
  end.

(** No step of the trace before its last one failed, and the last one did. *)
Definition EndsInFailure (tr : list Step) : Prop :=
  exists before last,
    tr = (before ++ [last])%list
    /\ stepFailed last = true
    /\ Forall (fun s => stepFailed s = false) before.

End Collab.

(* ================================================================== *)
(** ** matcher.ts: the context matcher                                 *)
(* ================================================================== *)

Module Matcher.
Import Collab.

(** The three shapes a [keywords] callback of [URL_PATTERNS] has. *)
Inductive KeywordRule :=
| PathOf (group : nat)                        (* m => extractUrlKeywords(m[group]) *)
| Fixed (kws : list string)                   (* () => kws *)
| DecodedQuery (group : nat)                  (* m => [decodeURIComponent(m[group]).replace(/\+/g, ' ')] *)
| Decoded (group : nat)                       (* m => [decodeURIComponent(m[group])] *)
| GroupThen (group : nat) (rest : list string). (* m => [m[group], ...rest] *)

Record UrlPattern := {
  pattern : string;
  activity : string;
  keywords : KeywordRule;
}.

Definition rule (p a : string) (k : KeywordRule) : UrlPattern :=
  {| pattern := p; activity := a; keywords := k |}.

Definition URL_PATTERNS : list UrlPattern := [
  (* Travel *)
  rule "makemytrip\.com.*\/(flights?|hotels?|trains?)\/?(.*)$" "travel_booking" (PathOf 2);
  rule "goibibo\.com.*\/(flights?|hotels?)\/?(.*)$" "travel_booking" (PathOf 2);
  rule "booking\.com.*\/(.*)$" "hotel_booking" (PathOf 1);
  rule "airbnb\.(com|co\.in).*\/(.*)$" "accommodation" (PathOf 2);
  rule "skyscanner\.(com|co\.in).*\/(.*)$" "flight_search" (PathOf 2);
  rule "tripadvisor\.(com|in).*\/(.*)$" "travel_research" (PathOf 2);
  (* Shopping *)
  rule "amazon\.(com|in).*\/s\?.*k=([^&]+)" "shopping_search" (DecodedQuery 2);
  rule "amazon\.(com|in).*\/dp\/\w+" "shopping_product" (Fixed []);
  rule "amazon\.(com|in)" "shopping" (Fixed ["amazon"; "shopping"; "gift"; "buy"]);
  rule "flipkart\.com.*\/search\?q=([^&]+)" "shopping_search" (Decoded 1);
  rule "flipkart\.com" "shopping" (Fixed ["flipkart"; "shopping"; "gift"; "buy"]);
  rule "myntra\.com.*\/(.*)$" "fashion_shopping" (PathOf 1);
  rule "myntra\.com" "fashion_shopping"
       (Fixed ["myntra"; "fashion"; "shoes"; "sneakers"; "clothes"; "gift"]);
  rule "nykaa\.com" "beauty_shopping"
       (Fixed ["nykaa"; "beauty"; "makeup"; "cosmetics"; "skincare"; "gift"]);
  rule "ajio\.com" "fashion_shopping" (Fixed ["ajio"; "fashion"; "clothes"; "shoes"; "gift"]);
  rule "tatacliq\.com" "shopping"
       (Fixed ["tatacliq"; "shopping"; "electronics"; "fashion"; "gift"]);
  (* Subscriptions *)
  rule "netflix\.com" "streaming" (Fixed ["netflix"; "subscription"; "streaming"]);
  rule "spotify\.com" "music" (Fixed ["spotify"; "subscription"; "music"]);
  rule "primevideo\.com" "streaming" (Fixed ["prime"; "amazon"; "subscription"]);
  rule "hotstar\.com|disney\+" "streaming" (Fixed ["hotstar"; "disney"; "subscription"]);
  rule "canva\.com" "design" (Fixed ["canva"; "design"; "subscription"]);
  (* Finance *)
  rule "policybazaar\.com.*\/(car|bike|health|life)" "insurance" (GroupThen 1 ["insurance"]);
  rule "bankbazaar\.com" "finance" (Fixed ["loan"; "credit"; "bank"]);
  (* Calendar/Productivity *)
  rule "calendar\.google\.com" "calendar" (Fixed ["meeting"; "event"; "schedule"]);
  rule "outlook\.(com|office)" "email" (Fixed ["email"; "meeting"])
].

(** [/^\d+$/.test(s)] *)
Definition isDigit (c : ascii) : bool :=
  let n := nat_of_ascii c in ((48 <=? n) && (n <=? 57))%nat.

Fixpoint allDigits (s : string) : bool :=
  match s with
  | EmptyString => true
  | String c s' => isDigit c && allDigits s'
  end.

Definition onlyDigits (s : string) : bool :=
  match s with EmptyString => false | _ => allDigits s end.

(** The separators of [/[/\-_?&=]+/]. *)
Definition isPathSeparator (c : ascii) : bool :=
  existsb (Ascii.eqb c) ["/"; "-"; "_"; "?"; "&"; "="]%char.

Fixpoint splitChars (isSep : ascii -> bool) (s : string) : list string :=
  match s with
  | EmptyString => [EmptyString]
  | String c s' =>
      if isSep c then EmptyString :: splitChars isSep s'
      else match splitChars isSep s' with
           | [] => [String c EmptyString]
           | w :: ws => String c w :: ws
           end
  end.

(** Pieces that lie between two separators of one run do not exist for
    [split] with a [+] pattern. *)
Fixpoint dropInnerEmpty (l : list string) : list string :=
  match l with
  | [] => []
  | [last] => [last]
  | EmptyString :: rest => dropInnerEmpty rest
  | x :: rest => x :: dropInnerEmpty rest
  end.

(** [s.split(/[...]+/)] *)
Definition splitRuns (isSep : ascii -> bool) (s : string) : list string :=
  match splitChars isSep s with
  | [] => []
  | first :: rest => first :: dropInnerEmpty rest
  end.

(** [s.replace(/\+/g, ' ')] *)
Fixpoint plusToSpace (s : string) : string :=
  match s with
  | EmptyString => EmptyString
  | String c s' => String (if Ascii.eqb c "+" then " "%char else c) (plusToSpace s')
  end.

(** [l.map(f)] for an [f] that may throw. *)
Fixpoint mapM {A B} (f : A -> option B) (l : list A) : option (list B) :=
  match l with
  | [] => Some []
  | x :: rest =>
      match f x with
      | None => None
      | Some y => match mapM f rest with
                  | None => None
                  | Some ys => Some (y :: ys)
                  end
      end
  end.

Record ContextCheckResponse := {
  matched : bool;
  events : list Event.t;
  confidence : float;
}.

Section WithBuiltins.
Context `{Builtins}.

(** [extractUrlKeywords(path)]; [None] when [decodeURIComponent] throws. *)
Definition extractUrlKeywords (path : option string) : option (list string) :=
  match truthyStr path with
  | None => Some []
  | Some p =>
      let pieces :=
        filter (fun s => (2 <? strLength s) && negb (onlyDigits s))
               (splitRuns isPathSeparator p) in
      match mapM (fun s => option_map toLowerCase (decodeURIComponent s)) pieces with
      | None => None
      | Some decoded => Some (firstn 5 decoded)
      end
  end.

(** [m[i]] *)
Definition group (m : list (option string)) (i : nat) : option string :=
  match nth_error m i with
  | Some g => g
  | None => None
  end.

(** [String(x)] for a group handed to a function that expects a string. *)
Definition groupText (g : option string) : string :=
  match g with Some s => s | None => "undefined" end.

(** The [keywords] callback applied to a match; [undefined] entries, which the
    later [filter(Boolean)] removes, are not listed. *)
Definition applyRule (k : KeywordRule) (m : list (option string))
  : option (list string) :=
  match k with
  | PathOf i => extractUrlKeywords (group m i)
  | Fixed kws => Some kws
  | DecodedQuery i =>
      option_map (fun d => [plusToSpace d]) (decodeURIComponent (groupText (group m i)))
  | Decoded i =>
      option_map (fun d => [d]) (decodeURIComponent (groupText (group m i)))
  | GroupThen i rest =>
      Some (match group m i with Some g => g :: rest | None => rest end)
  end.

(** [[...new Set(l)].filter(Boolean)] *)
Definition uniqueNonEmpty (l : list string) : list string :=
  filter (fun s => negb (s =? EmptyString)%string) (dedup String.eqb l).

Record UrlContext := {
  ctxActivity : string;
  ctxKeywords : list string;
}.

(** The loop over [URL_PATTERNS]: the first pattern that matches decides. *)
Fixpoint firstPattern (url : string) (table : list UrlPattern)
  : option (UrlPattern * list (option string)) :=
  match table with
  | [] => None
  | p :: rest =>
      match regexMatch (pattern p) url with
      | Some m => Some (p, m)
      | None => firstPattern url rest
      end
  end.

(** [extractContextFromUrl(url, title)]; [None] when [new URL] or
    [decodeURIComponent] throws. *)
Definition extractContextFromUrl (url : string) (title : option string)
  : option UrlContext :=
  match firstPattern url URL_PATTERNS with
  | Some (p, m) =>
      match applyRule (keywords p) m with
      | None => None
      | Some kws =>
          match URL_pathname url with
          | None => None
          | Some pathname =>
              match extractUrlKeywords (Some pathname) with
              | None => None
              | Some pathKeywords =>
                  Some {| ctxActivity := activity p;
                          ctxKeywords := uniqueNonEmpty (kws ++ pathKeywords) |}
              end
          end
      end
  | None =>
      match URL_pathname url with
      | None => None
      | Some pathname =>
          match extractUrlKeywords (Some pathname) with
          | None => None
          | Some pathKeywords =>
              let titleKeywords :=
                match truthyStr title with
                | Some t =>
                    firstn 5 (filter (fun w => 3 <? strLength w)
                                (splitWhitespace (toLowerCase t)))
                | None => []
                end in
              Some {| ctxActivity := "browsing";
                      ctxKeywords := uniqueNonEmpty (pathKeywords ++ titleKeywords) |}
          end
      end
  end.

Definition noMatch (c : float) : ContextCheckResponse :=
  {| matched := false; events := []; confidence := c |}.

(** The loop over the keywords: the candidates of the first keyword that has
    any, and those of the last keyword otherwise. *)
Fixpoint locationCascade (kws : list string) (hotWindowDays : Z)
    (candidates : list Event.t) : Prog (list Event.t) :=
  match kws with
  | [] => Ret candidates
  | kw :: rest =>
      (found <- call (searchEventsByLocation kw hotWindowDays 10) ;;
       match found with
       | [] => locationCascade rest hotWindowDays found
       | _ => Ret found
       end)%prog
  end.

(** [candidates[idx]], [undefined] out of range. *)
Definition candidateAt (candidates : list Event.t) (idx : Z) : option Event.t :=
  if idx <? 0 then None else nth_error candidates (Z.to_nat idx).

Fixpoint definedOnly {A} (l : list (option A)) : list A :=
  match l with
  | [] => []
  | Some a :: rest => a :: definedOnly rest
  | None :: rest => definedOnly rest
  end.

(** Steps 2 and 3 of [matchContext], after the keywords are known to be
    non-empty. *)
Definition matchKeywords (url : string) (title : option string) (hotWindowDays : Z)
    (kws : list string) : Prog ContextCheckResponse :=
  (located <- locationCascade kws hotWindowDays [] ;;
   candidates <- match located with
                 | [] => call (searchEventsByKeywords kws hotWindowDays 10)
                 | _ => Ret located
                 end ;;
   match candidates with
   | [] => Ret (noMatch 0%float)
   | _ =>
       validation <- call (validateRelevance url (orElse title EmptyString) candidates) ;;
       match Validation.relevant validation with
       | [] => Ret (noMatch (Validation.confidence validation))
       | relevant =>
           let matchedEvents := definedOnly (map (candidateAt candidates) relevant) in
           Ret {| matched := true; events := matchedEvents;
                  confidence := Validation.confidence validation |}
       end
   end)%prog.

(** [matchContext(url, title, hotWindowDays)]; console output and the clock
    readings it prints are left out. *)
Definition matchContext (url : string) (title : option string) (hotWindowDays : Z)
  : Prog ContextCheckResponse :=
  (ctx <- orThrow (extractContextFromUrl url title) ;;
   match ctxKeywords ctx with
   | [] => Ret (noMatch 0%float)
   | kws => matchKeywords url title hotWindowDays kws
   end)%prog.

(** [quickMatchByUrl(url)] *)
Definition quickMatchByUrl (url : string) : Prog (list Event.t) :=
  (ctx <- orThrow (extractContextFromUrl url None) ;;
   match ctxKeywords ctx with
   | [] => Ret []
   | kws => call (searchEventsByKeywords (firstn 3 kws) 90 5)
   end)%prog.

End WithBuiltins.

End Matcher.

(* ================================================================== *)
(** ** ingestion.ts: action routing, extraction and upsert             *)
(* ================================================================== *)

Module Ingestion.
Import Collab.

Module ConflictInfo.
Record t := {
  id : option Z;
  title : string;
  event_time : option Z;
}.
End ConflictInfo.

Module CreatedEvent.
Record t := {
  id : Z;
  event_type : string;
  title : string;
  description : option string;
  event_time : option Z;
  location : option string;
  participants : string;
  keywords : string;
  confidence : float;
  context_url : option string;
  sender_name : option string;
  conflicts : option (list ConflictInfo.t);
}.
Definition withConflicts (c : list ConflictInfo.t) (e : t) : t :=
  {| id := id e; event_type := event_type e; title := title e;
     description := description e; event_time := event_time e;
     location := location e; participants := participants e;
     keywords := keywords e; confidence := confidence e;
     context_url := context_url e; sender_name := sender_name e;
     conflicts := Some c |}.
End CreatedEvent.

Module ActionResult.
Record t := {
  action : string;
  targetEventId : Z;
  targetEventTitle : string;
  message : string;
}.
End ActionResult.

(** The object [proposedChanges] of a [modify]: a field is [Some] when the key
    was assigned. *)
Module Changes.
Record t := {
  event_time : option Z;
  title : option string;
  location : option string;
  description : option string;
}.
(** [Object.keys(proposedChanges).length > 0] *)
Definition hasKeys (c : t) : bool :=
  isSome (event_time c) || isSome (title c) || isSome (location c)
  || isSome (description c).
End Changes.

Module PendingAction.
Record t := {
  action : string;
  targetEventId : Z;
  targetEventTitle : string;
  changes : Changes.t;
  description : string;
}.
End PendingAction.

Module IngestionResult.
Record t := {
  messageId : string;
  eventsCreated : Z;
  triggersCreated : Z;
  skipped : bool;
  skipReason : option string;
  events : option (list CreatedEvent.t);
  actionPerformed : option ActionResult.t;
  pendingAction : option PendingAction.t;
}.
End IngestionResult.

(** The webhook payload ([payload.data]). *)
Inductive Timestamp :=
| TsString (s : string)
| TsNumber (n : option Z).

Module Webhook.
Record t := {
  remoteJid : string;
  fromMe : bool;
  id : string;
  pushName : option string;
  conversation : option string;
  extendedText : option string;
  messageTimestamp : Timestamp;
}.
End Webhook.

Record Options := {
  processOwnMessages : bool;
  skipGroupMessages : bool;
}.

(** The counters and the list that [processMessage] declares before its [try]
    and returns after it. *)
Record Locals := {
  eventsCreated : Z;
  triggersCreated : Z;
  createdEvents : list CreatedEvent.t;
}.

Definition acc0 : Locals :=
  {| eventsCreated := 0; triggersCreated := 0; createdEvents := [] |}.

(** ** Statements inside the [try] of [processMessage]

    A statement runs on the variables [Locals]; when a call fails the statement
    ends with [Err] and the variables keep the values they had. *)
Definition Body (A : Type) : Type := Locals -> Prog (Res A * Locals).

Definition continue {A B} (f : A -> Body B) (out : Res A * Locals) : Prog (Res B * Locals) :=
  match out with
  | (Ok a, acc) => f a acc
  | (Err, acc) => Ret (Err, acc)
  end.

Definition retB {A} (a : A) : Body A := fun acc => Ret (Ok a, acc).

Definition bindB {A B} (m : Body A) (f : A -> Body B) : Body B :=
  fun acc => bind (m acc) (continue f).

Definition callB {X} (c : Call X) : Body X :=
  fun acc => Vis c (fun r => Ret (r, acc)).

Definition nowB : Body Z := fun acc => Clock (fun ms => Ret (Ok ms, acc)).

Definition update (f : Locals -> Locals) : Body unit := fun acc => Ret (Ok tt, f acc).

Declare Scope body_scope.
Delimit Scope body_scope with body.
Notation "x <- m ;; k" := (bindB m (fun x => k))
  (at level 61, m at next level, right associativity) : body_scope.
Notation "m ;; k" := (bindB m (fun _ => k))
  (at level 61, right associativity) : body_scope.

(** [for (const x of l) { body }] *)
Fixpoint forEach {A} (l : list A) (body : A -> Body unit) : Body unit :=
  match l with
  | [] => retB tt
  | x :: rest => bindB (body x) (fun _ => forEach rest body)
  end.

(** ** What is shown of a statement *)

(** Every step of the statement satisfies [P], from any values of the
    variables. *)
Definition AlwaysB {A} (P : Step -> Prop) (m : Body A) : Prop :=
  forall acc, Always P (m acc).

(** The statement never throws past the [try]; the counters grow by the events
    and triggers its steps created; and it ends with [Err] exactly when its
    last step failed, no earlier step having failed. *)
Definition Accounted {A} (m : Body A) : Prop :=
  forall acc tr out, Runs (m acc) tr out ->
    exists r acc',
      out = Ok (r, acc')
      /\ eventsCreated acc' = eventsCreated acc + eventsIn tr
      /\ triggersCreated acc' = triggersCreated acc + triggersIn tr
      /\ match r with
         | Ok _ => Forall (fun s => stepFailed s = false) tr
         | Err => EndsInFailure tr
         end.

(** ** The past-date guard *)

Definition weekSec : Z := 7 * 24 * 3600.

(** [while (t < nowUnix) t += weekSec], at most [fuel] rounds. *)
Fixpoint whileBefore (fuel : nat) (t nowUnix : Z) : Z :=
  match fuel with
  | O => t
  | S fuel' => if t <? nowUnix then whileBefore fuel' (t + weekSec) nowUnix else t
  end.

(** More rounds than the loop can make from [t]. *)
Definition rounds (t nowUnix : Z) : nat := Z.to_nat ((nowUnix - t) / weekSec + 1).

(** [if (t < nowUnix - 3600) { while (t < nowUnix) t += weekSec }] *)
Definition pushPastForward (t nowUnix : Z) : Z :=
  if t <? nowUnix - 3600 then whileBefore (rounds t nowUnix) t nowUnix else t.

Definition quoted (s : string) : string := dquote ++ s ++ dquote.

Definition dayNames : list string :=
  ["Sunday"; "Monday"; "Tuesday"; "Wednesday"; "Thursday"; "Friday"; "Saturday"].

Definition serviceKeywords : list string :=
  ["netflix"; "hotstar"; "amazon"; "prime"; "disney"; "spotify";
   "youtube"; "hulu"; "hbo"; "zee5"; "sonyliv"; "jiocinema";
   "canva"; "figma"; "notion"; "slack"; "zoom";
   "gym"; "domain"; "hosting"; "hostinger"; "aws"; "azure"; "vercel"; "heroku"].

Definition travelKeywords : list string :=
  ["goa"; "mumbai"; "delhi"; "bangalore"; "chennai"; "kolkata"; "hyderabad";
   "jaipur"; "udaipur"; "kerala"; "manali"; "shimla"; "ladakh"; "kashmir";
   "thailand"; "bali"; "singapore"; "dubai"; "maldives"; "europe"].

Definition beautyKeywords : list string :=
  ["makeup"; "beauty"; "cosmetic"; "skincare"; "lipstick"; "foundation";
   "perfume"; "fragrance"; "nykaa"].

Definition fashionKeywords : list string :=
  ["sneakers"; "shoes"; "clothes"; "dress"; "fashion"; "shirt"; "jeans";
   "kurta"; "saree"; "myntra"; "nike"; "adidas"; "puma"].

Definition giftKeywords : list string := ["gift"; "birthday"; "anniversary"; "present"].

Definition places : list string :=
  ["goa"; "mumbai"; "delhi"; "bangalore"; "chennai"; "kolkata"].

Definition interestKeywords : list string :=
  ["travel"; "flight"; "hotel"; "buy"; "gift"; "birthday"; "meeting"; "deadline";
   "dinner"; "lunch"; "coffee"].

Definition intervals : list (TriggerType * Z) :=
  [(time_24h, 24 * 60 * 60); (time_1h, 60 * 60); (time_15m, 15 * 60)].

(** [for (const w of words) if (text.includes(w)) { found = w; break; }] *)
Definition firstIncluded (text : string) (words : list string) : option string :=
  find (fun w => includes text w) words.

(** [[...x]] for a parsed value; [None] is the [TypeError] of a value that is
    not iterable. *)
Definition spread `{Builtins} (j : Json) : option (list Json) :=
  match j with
  | JArr items => Some items
  | JStr s => Some (map JStr (codePoints s))
  | _ => None
  end.

(** Equality of the elements of a [Set]: primitives by value, arrays and
    objects by identity (two parsed values are never the same object). *)
Definition sameValueZero (a b : Json) : bool :=
  match a, b with
  | JNull, JNull => true
  | JBool x, JBool y => Bool.eqb x y
  | JNum x, JNum y => PrimFloat.eqb x y
  | JStr x, JStr y => String.eqb x y
  | _, _ => false
  end.

Definition optOr {A} (a b : option A) : option A :=
  match a with Some _ => a | None => b end.

Section WithBuiltins.
Context `{Builtins}.

(** [Math.floor(new Date(s).getTime() / 1000)], [None] for [NaN]. *)
Definition parseUnix (s : string) : option Z :=
  option_map (fun ms => ms / 1000) (Date_getTime s).

(** ** The [modify] proposal (lines 181-203) *)

(** The block [if (actionResult.newTime) { ... }]: the value assigned to
    [proposedChanges.event_time], if any. *)
Definition proposedTime (newTime : option string) : Prog (option Z) :=
  match truthyStr newTime with
  | None => Ret None
  | Some s =>
      match parseUnix s with
      | Some parsedTime =>
          if 0 <? parsedTime then
            (nowMs <- now ;;
             Ret (Some (pushPastForward parsedTime (nowMs / 1000))))%prog
          else Ret None
      | None => Ret None
      end
  end.

Definition proposeChanges (a : Detected.t) : Prog Changes.t :=
  (t <- proposedTime (Detected.newTime a) ;;
   Ret {| Changes.event_time := t;
          Changes.title := truthyStr (Detected.newTitle a);
          Changes.location := truthyStr (Detected.newLocation a);
          Changes.description := truthyStr (Detected.newDescription a) |})%prog.

(** The human-readable summary of the proposed changes (lines 207-216). *)
Definition changeSummary (c : Changes.t) : string :=
  let titlePart :=
    match truthyStr (Changes.title c) with
    | Some t => ["title → " ++ quoted t]
    | None => []
    end in
  let timePart :=
    match truthyNum (Changes.event_time c) with
    | Some t =>
        let ms := t * 1000 in
        ["time → " ++ nth (getDay ms) dayNames "undefined" ++ ", "
         ++ dateMonthDay ms ++ " " ++ timeHourMinute ms]
    | None => []
    end in
  let locationPart :=
    match truthyStr (Changes.location c) with
    | Some l => ["location → " ++ quoted l]
    | None => []
    end in
  let descriptionPart :=
    match truthyStr (Changes.description c) with
    | Some _ => ["description updated"]
    | None => []
    end in
  join ", " (titlePart ++ timePart ++ locationPart ++ descriptionPart)%list.

Definition emptyResult (messageId : string) : IngestionResult.t :=
  {| IngestionResult.messageId := messageId;
     IngestionResult.eventsCreated := 0;
     IngestionResult.triggersCreated := 0;
     IngestionResult.skipped := false;
     IngestionResult.skipReason := None;
     IngestionResult.events := None;
     IngestionResult.actionPerformed := None;
     IngestionResult.pendingAction := None |}.

Definition skippedResult (messageId reason : string) : IngestionResult.t :=
  {| IngestionResult.messageId := messageId;
     IngestionResult.eventsCreated := 0;
     IngestionResult.triggersCreated := 0;
     IngestionResult.skipped := true;
     IngestionResult.skipReason := Some reason;
     IngestionResult.events := None;
     IngestionResult.actionPerformed := None;
     IngestionResult.pendingAction := None |}.

(** The result of lines 242-253. *)
Definition performedResult (messageId : string) (a : ActionResult.t)
  : IngestionResult.t :=
  {| IngestionResult.messageId := messageId;
     IngestionResult.eventsCreated := 0;
     IngestionResult.triggersCreated := 0;
     IngestionResult.skipped := false;
     IngestionResult.skipReason := None;
     IngestionResult.events := None;
     IngestionResult.actionPerformed := Some a;
     IngestionResult.pendingAction := None |}.

(** The result of lines 220-232. *)
Definition pendingResult (messageId : string) (p : PendingAction.t)
  : IngestionResult.t :=
  {| IngestionResult.messageId := messageId;
     IngestionResult.eventsCreated := 0;
     IngestionResult.triggersCreated := 0;
     IngestionResult.skipped := false;
     IngestionResult.skipReason := None;
     IngestionResult.events := None;
     IngestionResult.actionPerformed := None;
     IngestionResult.pendingAction := Some p |}.

(** The text after [will remind] of a snooze. *)
Definition durationText (minutes : Z) : string :=
  if 10080 <=? minutes then "next week"
  else if 1440 <=? minutes then "tomorrow"
  else if 60 <=? minutes then showZ ((minutes + 30) / 60) ++ " hours"
  else showZ minutes ++ " minutes".

(** ** The [switch] on the action (lines 146-253), for a target with
    identifier [eventId] *)
Definition performAction (message : Message.t) (actionResult : Detected.t)
    (targetEvent : Event.t) (eventId : Z) : Prog IngestionResult.t :=
  let action := Detected.action actionResult in
  let title := Event.title targetEvent in
  let performed (actionMessage : string) : Prog IngestionResult.t :=
    Ret (performedResult (Message.id message)
           {| ActionResult.action := action;
              ActionResult.targetEventId := eventId;
              ActionResult.targetEventTitle := title;
              ActionResult.message := actionMessage |}) in
  (if (action =? "cancel")%string || (action =? "delete")%string then
     call (deleteEvent eventId) ;;
     performed ("Deleted: " ++ quoted title)
   else if (action =? "complete")%string then
     call (dbCompleteEvent eventId) ;;
     performed ("Completed: " ++ quoted title)
   else if (action =? "ignore")%string then
     call (ignoreEvent eventId) ;;
     performed ("Ignored: " ++ quoted title ++ " - won't remind again")
   else if (action =? "snooze")%string || (action =? "postpone")%string then
     let minutes :=
       match truthyNum (Detected.snoozeMinutes actionResult) with
       | Some m => m
       | None => 30
       end in
     call (snoozeEvent eventId minutes) ;;
     performed ("Snoozed: " ++ quoted title ++ " → will remind " ++ durationText minutes)
   else if (action =? "modify")%string then
     proposedChanges <- proposeChanges actionResult ;;
     if Changes.hasKeys proposedChanges then
       Ret (pendingResult (Message.id message)
              {| PendingAction.action := "modify";
                 PendingAction.targetEventId := eventId;
                 PendingAction.targetEventTitle := title;
                 PendingAction.changes := proposedChanges;
                 PendingAction.description := changeSummary proposedChanges |})
     else performed "Modify requested but no changes specified"
   else performed ("Unknown action: " ++ action))%prog.

(** ** The fields of an [update] (lines 302-323) *)

(** The block [if (event.event_time) { ... }] of an update: the value assigned
    to [updateFields.event_time], if any. *)
Definition updateTime (event_time : option string) : Body (option Z) :=
  match truthyStr event_time with
  | None => retB None
  | Some s =>
      match parseUnix s with
      | Some parsedTime =>
          if 0 <? parsedTime then
            (nowMs <- nowB ;;
             retB (Some (pushPastForward parsedTime (nowMs / 1000))))%body
          else retB None
      | None => retB None
      end
  end.

Definition stringifyNames (names : list string) : string :=
  JSON_stringify (JArr (map JStr names)).

Definition updateFieldsOf (event : Extracted.t) : Body UpdateFields.t :=
  (t <- updateTime (Extracted.event_time event) ;;
   retB {| UpdateFields.title := truthyStr (Some (Extracted.title event));
           UpdateFields.description := truthyStr (Extracted.description event);
           UpdateFields.location := truthyStr (Extracted.location event);
           UpdateFields.event_time := t;
           UpdateFields.keywords :=
             match Extracted.keywords event with
             | [] => None
             | kws => Some (join "," kws)
             end;
           UpdateFields.participants :=
             match Extracted.participants event with
             | [] => None
             | ps => Some (stringifyNames ps)
             end |})%body.

(** ** The fields of a [merge] (lines 324-341) *)

(** [existingEvents.find(e => e.id === targetEventId)] *)
Definition findExisting (existingEvents : list Event.t) (targetEventId : Z)
  : option Event.t :=
  find (fun e => match Event.id e with
                 | Some i => i =? targetEventId
                 | None => false
                 end) existingEvents.

(** The value assigned to [updateFields.description]. *)
Definition mergedDescription (existing : option Event.t) (description : string)
  : string :=
  let existingDesc :=
    orElse (match existing with Some e => Event.description e | None => None end)
           EmptyString in
  match existingDesc with
  | EmptyString => description
  | _ => existingDesc ++ ". " ++ description
  end.

(** The value assigned to [updateFields.participants]: the [try] block, and the
    [catch] block when [JSON.parse] or the spread throws. *)
Definition mergedParticipants (existing : option Event.t) (participants : list string)
  : string :=
  let source :=
    orElse (match existing with Some e => Event.sender_name e | None => None end)
           "[]" in
  match JSON_parse source with
  | Some existingParticipants =>
      match spread existingParticipants with
      | Some items =>
          JSON_stringify
            (JArr (dedup sameValueZero (items ++ map JStr participants)%list))
      | None => stringifyNames participants
      end
  | None => stringifyNames participants
  end.

Definition mergeFieldsOf (existingEvents : list Event.t) (targetEventId : Z)
    (event : Extracted.t) : UpdateFields.t :=
  {| UpdateFields.title := None;
     UpdateFields.description :=
       match truthyStr (Extracted.description event) with
       | Some d => Some (mergedDescription (findExisting existingEvents targetEventId) d)
       | None => None
       end;
     UpdateFields.location := None;
     UpdateFields.event_time := None;
     UpdateFields.keywords := None;
     UpdateFields.participants :=
       match Extracted.participants event with
       | [] => None
       | ps => Some (mergedParticipants (findExisting existingEvents targetEventId) ps)
       end |}.

(** [createdEvents.push(e)] *)
Definition pushCreated (e : CreatedEvent.t) (acc : Locals) : Locals :=
  {| eventsCreated := eventsCreated acc;
     triggersCreated := triggersCreated acc;
     createdEvents := (createdEvents acc ++ [e])%list |}.

(** [eventsCreated++] *)
Definition countEvent (acc : Locals) : Locals :=
  {| eventsCreated := eventsCreated acc + 1;
     triggersCreated := triggersCreated acc;
     createdEvents := createdEvents acc |}.

(** [triggersCreated++] *)
Definition countTrigger (acc : Locals) : Locals :=
  {| eventsCreated := eventsCreated acc;
     triggersCreated := triggersCreated acc + 1;
     createdEvents := createdEvents acc |}.

(** [createdEvents[createdEvents.length - 1].conflicts = c] *)
Fixpoint setLastConflicts (c : list ConflictInfo.t) (l : list CreatedEvent.t)
  : list CreatedEvent.t :=
  match l with
  | [] => []
  | [last] => [CreatedEvent.withConflicts c last]
  | e :: rest => e :: setLastConflicts c rest
  end.

Definition annotateLast (c : list ConflictInfo.t) (acc : Locals) : Locals :=
  {| eventsCreated := eventsCreated acc;
     triggersCreated := triggersCreated acc;
     createdEvents := setLastConflicts c (createdEvents acc) |}.

(** ** An [update] or [merge] of an existing event (lines 298-366) *)
Definition applyUpdate (senderName : option string) (existingEvents : list Event.t)
    (eventAction : string) (targetEventId : Z) (event : Extracted.t) : Body unit :=
  (updateFields <-
     (if (eventAction =? "update")%string then updateFieldsOf event
      else retB (mergeFieldsOf existingEvents targetEventId event)) ;;
   if UpdateFields.hasKeys updateFields then
     updated <- callB (updateEvent targetEventId updateFields) ;;
     if (updated : bool) then
       update (pushCreated
         {| CreatedEvent.id := targetEventId;
            CreatedEvent.event_type := Extracted.type event;
            CreatedEvent.title := Extracted.title event;
            CreatedEvent.description := Extracted.description event;
            CreatedEvent.event_time := truthyNum (UpdateFields.event_time updateFields);
            CreatedEvent.location := Extracted.location event;
            CreatedEvent.participants :=
              orElse (UpdateFields.participants updateFields)
                     (stringifyNames (Extracted.participants event));
            CreatedEvent.keywords := join "," (Extracted.keywords event);
            CreatedEvent.confidence := Extracted.confidence event;
            CreatedEvent.context_url := None;
            CreatedEvent.sender_name := senderName;
            CreatedEvent.conflicts := None |}) ;;
       update countEvent
     else retB tt
   else retB tt)%body.

(** ** A new event (lines 368-577) *)

(** The block [if (event.event_time) { ... }] of the create path: the value of
    [eventTime] after it. *)
Definition createTime (event_time : option string) : Body (option Z) :=
  match truthyStr event_time with
  | None => retB None
  | Some s =>
      match parseUnix s with
      | None => retB None
      | Some eventTime =>
          (nowMs <- nowB ;;
           retB (Some (pushPastForward eventTime (nowMs / 1000))))%body
      end
  end.

(** The text searched for service and travel names. *)
Definition searchText (event : Extracted.t) : string :=
  toLowerCase (orElse (Extracted.location event) EmptyString ++ " "
               ++ join " " (Extracted.keywords event) ++ " "
               ++ Extracted.title event ++ " "
               ++ orElse (Extracted.description event) EmptyString).

(** The text searched for shopping categories. *)
Definition shoppingText (event : Extracted.t) : string :=
  toLowerCase (join " " (Extracted.keywords event) ++ " "
               ++ Extracted.title event ++ " "
               ++ orElse (Extracted.description event) EmptyString).

(** The value of [contextUrl] at line 478. *)
Definition resolveContextUrl (event : Extracted.t) : option string :=
  let type := Extracted.type event in
  (* service keywords, for any event type *)
  let contextUrl := firstIncluded (searchText event) serviceKeywords in
  (* travel destinations *)
  let contextUrl :=
    if (type =? "travel")%string || (type =? "recommendation")%string
    then optOr (firstIncluded (searchText event) travelKeywords) contextUrl
    else contextUrl in
  (* gifts and shopping *)
  let contextUrl :=
    if negb (isSome contextUrl) && (type =? "recommendation")%string then
      let text := shoppingText event in
      let isBeauty := existsb (fun k => includes text k) beautyKeywords in
      let isFashion := existsb (fun k => includes text k) fashionKeywords in
      let isGift := existsb (fun k => includes text k) giftKeywords in
      if isBeauty then Some "nykaa"
      else if isFashion then Some "myntra"
      else if isGift then Some "amazon"
      else contextUrl
    else contextUrl in
  (* a destination in the location *)
  match contextUrl, truthyStr (Extracted.location event) with
  | None, Some location => firstIncluded (toLowerCase location) places
  | _, _ => contextUrl
  end.

(** The object [eventData] (lines 480-497). *)
Definition eventDataOf (message : Message.t) (senderName : option string)
    (event : Extracted.t) (eventTime : option Z) : Event.t :=
  let contextUrl := resolveContextUrl event in
  let isContextEvent := isSome contextUrl in
  let initialStatus := if isContextEvent then "scheduled" else "discovered" in
  {| Event.id := None;
     Event.message_id := Some (Message.id message);
     Event.event_type := Extracted.type event;
     Event.title := Extracted.title event;
     Event.description := Extracted.description event;
     Event.event_time := eventTime;
     Event.location := Extracted.location event;
     Event.participants := stringifyNames (Extracted.participants event);
     Event.keywords := join "," (Extracted.keywords event);
     Event.confidence := Extracted.confidence event;
     Event.status := initialStatus;
     Event.context_url := contextUrl;
     Event.sender_name := senderName |}.

(** The entry pushed on [createdEvents] (lines 502-514). *)
Definition createdOf (senderName : option string) (event : Extracted.t)
    (eventId : Z) (eventTime : option Z) : CreatedEvent.t :=
  {| CreatedEvent.id := eventId;
     CreatedEvent.event_type := Extracted.type event;
     CreatedEvent.title := Extracted.title event;
     CreatedEvent.description := Extracted.description event;
     CreatedEvent.event_time := eventTime;
     CreatedEvent.location := Extracted.location event;
     CreatedEvent.participants := stringifyNames (Extracted.participants event);
     CreatedEvent.keywords := join "," (Extracted.keywords event);
     CreatedEvent.confidence := Extracted.confidence event;
     CreatedEvent.context_url := resolveContextUrl event;
     CreatedEvent.sender_name := senderName;
     CreatedEvent.conflicts := None |}.

(** Calendar conflicts (lines 517-529). *)
Definition noteConflicts (eventId : Z) (eventTime : option Z) : Body unit :=
  match truthyNum eventTime with
  | Some t =>
      (conflicts <- callB (checkEventConflicts t 60) ;;
       let otherConflicts :=
         filter (fun e => match Event.id e with
                          | Some i => negb (i =? eventId)
                          | None => true
                          end) conflicts in
       match otherConflicts with
       | [] => retB tt
       | _ =>
           update (annotateLast
             (map (fun e => {| ConflictInfo.id := Event.id e;
                               ConflictInfo.title := Event.title e;
                               ConflictInfo.event_time := Event.event_time e |})
                  otherConflicts))
       end)%body
  | None => retB tt
  end.

(** [insertTrigger({...}); triggersCreated++] *)
Definition addTrigger (eventId : Z) (type : TriggerType) (value : string) : Body unit :=
  (callB (insertTrigger {| Trigger.event_id := eventId;
                           Trigger.trigger_type := type;
                           Trigger.trigger_value := value;
                           Trigger.is_fired := false |}) ;;
   update countTrigger)%body.

(** Time triggers (lines 533-552). *)
Definition timeTriggers (eventId : Z) (eventTime : option Z) : Body unit :=
  match truthyNum eventTime with
  | Some t =>
      (nowMs <- nowB ;;
       let now := nowMs / 1000 in
       forEach intervals (fun '(type, offset) =>
         let triggerTime := t - offset in
         if now <? triggerTime
         then addTrigger eventId type (toISOString (triggerTime * 1000))
         else retB tt))%body
  | None => retB tt
  end.

(** The location trigger (lines 555-563). *)
Definition locationTrigger (eventId : Z) (event : Extracted.t) : Body unit :=
  match truthyStr (Extracted.location event) with
  | Some location => addTrigger eventId url (toLowerCase location)
  | None => retB tt
  end.

(** Keyword triggers (lines 566-577). *)
Definition keywordTriggers (eventId : Z) (event : Extracted.t) : Body unit :=
  let importantKeywords :=
    filter (fun kw => existsb (fun ik => includes (toLowerCase kw) ik) interestKeywords)
           (Extracted.keywords event) in
  forEach (firstn 3 importantKeywords)
          (fun kw => addTrigger eventId keyword (toLowerCase kw)).

Definition createEvent (message : Message.t) (senderName : option string)
    (event : Extracted.t) : Body unit :=
  (isDuplicate <- callB (findDuplicateEvent (Extracted.title event) 48) ;;
   match isDuplicate with
   | Some _ => retB tt
   | None =>
       eventTime <- createTime (Extracted.event_time event) ;;
       eventId <- callB (insertEvent (eventDataOf message senderName event eventTime)) ;;
       update countEvent ;;
       update (pushCreated (createdOf senderName event eventId eventTime)) ;;
       noteConflicts eventId eventTime ;;
       timeTriggers eventId eventTime ;;
       locationTrigger eventId event ;;
       keywordTriggers eventId event
   end)%body.

(** ** The body of the loop over the candidates (lines 288-577) *)
Definition processCandidate (message : Message.t) (senderName : option string)
    (existingEvents : list Event.t) (event : Extracted.t) : Body unit :=
  if (Extracted.confidence event <? 0.65)%float then retB tt
  else
    let eventAction := orElse (Extracted.event_action event) "create" in
    let targetEventId := truthyNum (Extracted.target_event_id event) in
    match targetEventId with
    | Some target =>
        if (eventAction =? "update")%string || (eventAction =? "merge")%string
        then applyUpdate senderName existingEvents eventAction target event
        else createEvent message senderName event
    | None => createEvent message senderName event
    end.

Definition eventForModel (e : Event.t) : EventForModel.t :=
  {| EventForModel.id := Event.id e;
     EventForModel.title := Event.title e;
     EventForModel.event_type := Event.event_type e;
     EventForModel.keywords := Event.keywords e;
     EventForModel.event_time := Event.event_time e;
     EventForModel.location := Event.location e;
     EventForModel.description := Event.description e;
     EventForModel.sender_name := Event.sender_name e |}.

(** The [try] block of [processMessage]. *)
Definition processMessageBody (message : Message.t) (context : list string)
    (senderName : option string) (existingEvents : list Event.t) : Body unit :=
  (nowMs <- nowB ;;
   extraction <- callB (extractEvents (Message.content message) context
                          (toISOString nowMs) (map eventForModel existingEvents)
                          (Message.timestamp message)) ;;
   forEach extraction (processCandidate message senderName existingEvents))%body.

(** The value returned after the [try]. *)
Definition resultOf (message : Message.t) (acc : Locals) : IngestionResult.t :=
  {| IngestionResult.messageId := Message.id message;
     IngestionResult.eventsCreated := eventsCreated acc;
     IngestionResult.triggersCreated := triggersCreated acc;
     IngestionResult.skipped := false;
     IngestionResult.skipReason := None;
     IngestionResult.events := Some (createdEvents acc);
     IngestionResult.actionPerformed := None;
     IngestionResult.pendingAction := None |}.

(** [processMessage(message, context, senderName, existingEvents)]: whatever
    the [try] block did, the [catch] only logs and the function returns the
    counters. *)
Definition processMessage (message : Message.t) (context : list string)
    (senderName : option string) (existingEvents : list Event.t)
  : Prog IngestionResult.t :=
  (out <- processMessageBody message context senderName existingEvents acc0 ;;
   Ret (resultOf message (snd out)))%prog.

(** ** [processWebhook] *)

(** The test of line 126. *)
Definition isRealAction (actionResult : Detected.t) : bool :=
  Detected.isAction actionResult
  && (0.6 <=? Detected.confidence actionResult)%float
  && negb (Detected.action actionResult =? "none")%string.

(** Lines 130-143: the target of a detected action. *)
Definition findTarget (actionResult : Detected.t) (activeEvents : list Event.t)
  : Prog (option Event.t) :=
  (byKeywords <-
     match Detected.targetKeywords actionResult with
     | [] => Ret None
     | kws =>
         matches <- call (findActiveEventsByKeywords kws) ;;
         Ret (hd_error matches)
     end ;;
   Ret (optOr byKeywords (hd_error activeEvents)))%prog.

(** Lines 126-260: what [processWebhook] does once [detectAction] has
    answered. *)
Definition routeAction (message : Message.t) (context : list string)
    (senderName : option string) (activeEvents : list Event.t)
    (actionResult : Detected.t) : Prog IngestionResult.t :=
  let extraction := processMessage message context senderName activeEvents in
  if isRealAction actionResult then
    (targetEvent <- findTarget actionResult activeEvents ;;
     match targetEvent with
     | Some target =>
         match truthyNum (Event.id target) with
         | Some eventId => performAction message actionResult target eventId
         | None => extraction
         end
     | None => extraction
     end)%prog
  else extraction.

Definition activeSummary (e : Event.t) : ActiveSummary.t :=
  {| ActiveSummary.id := Event.id e;
     ActiveSummary.title := Event.title e;
     ActiveSummary.event_type := Event.event_type e;
     ActiveSummary.keywords := Event.keywords e |}.

(** The message object of lines 79-91. *)
Definition messageOf (data : Webhook.t) (content : string) : Message.t :=
  {| Message.id := Webhook.id data;
     Message.chat_id := Webhook.remoteJid data;
     Message.sender :=
       if Webhook.fromMe data then "self"
       else hd EmptyString (split_on "@" (Webhook.remoteJid data));
     Message.content := content;
     Message.timestamp :=
       match Webhook.messageTimestamp data with
       | TsString s => parseInt s
       | TsNumber n => n
       end |}.

Definition processWebhook (data : Webhook.t) (options : Options)
  : Prog IngestionResult.t :=
  match truthyStr (optOr (truthyStr (Webhook.conversation data))
                         (Webhook.extendedText data)) with
  | None => Ret (skippedResult (Webhook.id data) "no_content")
  | Some content =>
      if Webhook.fromMe data && negb (processOwnMessages options) then
        Ret (skippedResult (Webhook.id data) "own_message")
      else if includes (Webhook.remoteJid data) "@g.us" && skipGroupMessages options then
        Ret (skippedResult (Webhook.id data) "group_message")
      else
        let message := messageOf data content in
        let timestamp := Message.timestamp message in
        let senderName := truthyStr (Webhook.pushName data) in
        (call (insertMessage message) ;;
         call (upsertContact {| Contact.id := Message.sender message;
                                Contact.name := senderName;
                                Contact.first_seen := timestamp;
                                Contact.last_seen := timestamp;
                                Contact.message_count := 1 |}) ;;
         if shouldSkipMessage content then
           Ret (skippedResult (Message.id message) "trivial_message")
         else
           recentMessages <- call (getRecentMessages (Message.chat_id message) 5) ;;
           let context :=
             map Message.content
                 (filter (fun m => negb (Message.id m =? Message.id message)%string)
                         recentMessages) in
           activeEvents <- call (getActiveEvents 20) ;;
           actionResult <- call (detectAction content context
                                   (map activeSummary activeEvents) timestamp) ;;
           routeAction message context senderName activeEvents actionResult)%prog
  end.

(** ** The parts of [processWebhook] *)

(** Line 62: [conversation || extendedTextMessage.text], when truthy. *)
Definition contentOf (data : Webhook.t) : option string :=
  truthyStr (optOr (truthyStr (Webhook.conversation data))
                   (Webhook.extendedText data)).

(** Lines 68-76: the message is neither an own message that is not to be
    processed nor a group message that is to be skipped. *)
Definition passesFilters (data : Webhook.t) (options : Options) : bool :=
  negb (Webhook.fromMe data && negb (processOwnMessages options))
  && negb (includes (Webhook.remoteJid data) "@g.us" && skipGroupMessages options).

(** The argument of [upsertContact] (lines 96-102). *)
Definition contactOf (data : Webhook.t) (content : string) : Contact.t :=
  let message := messageOf data content in
  {| Contact.id := Message.sender message;
     Contact.name := truthyStr (Webhook.pushName data);
     Contact.first_seen := Message.timestamp message;
     Contact.last_seen := Message.timestamp message;
     Contact.message_count := 1 |}.

(** Lines 112-114: the texts of the recent messages other than [message]. *)
Definition contextOf (message : Message.t) (recentMessages : list Message.t)
  : list string :=
  map Message.content
      (filter (fun m => negb (Message.id m =? Message.id message)%string)
              recentMessages).

(** The steps of lines 93-123 when every call succeeds: the message and the
    contact are stored, the recent messages and the active events are read,
    and [detectAction] answers [actionResult]. *)
Definition intakeSteps (data : Webhook.t) (content : string)
    (recentMessages : list Message.t) (activeEvents : list Event.t)
    (actionResult : Detected.t) : list Step :=
  let message := messageOf data content in
  [ Ev (insertMessage message) (Ok tt);
    Ev (upsertContact (contactOf data content)) (Ok tt);
    Ev (getRecentMessages (Message.chat_id message) 5) (Ok recentMessages);
    Ev (getActiveEvents 20) (Ok activeEvents);
    Ev (detectAction content (contextOf message recentMessages)
          (map activeSummary activeEvents) (Message.timestamp message))
       (Ok actionResult) ].

(** Lines 132-137: the keyword search of [findTarget] when it finds
    nothing. *)
Definition emptyLookup (actionResult : Detected.t) : list Step :=
  match Detected.targetKeywords actionResult with
  | [] => []
  | kws => [Ev (findActiveEventsByKeywords kws) (Ok [])]
  end.

(** ** What is shown of the steps of an extraction *)

(** The steps that the extraction of one message can make. *)
Inductive ExtractionStep (message : Message.t) (senderName : option string)
  : Step -> Prop :=
| step_clock ms : ExtractionStep message senderName (Tick ms)
| step_extract content context nowIso existing timestamp r :
    ExtractionStep message senderName
      (Ev (extractEvents content context nowIso existing timestamp) r)
| step_update i fields r :
    ExtractionStep message senderName (Ev (updateEvent i fields) r)
| step_duplicate title hours r :
    ExtractionStep message senderName (Ev (findDuplicateEvent title hours) r)
| step_insert event eventTime r :
    ExtractionStep message senderName
      (Ev (insertEvent (eventDataOf message senderName event eventTime)) r)
| step_conflicts time minutes r :
    ExtractionStep message senderName (Ev (checkEventConflicts time minutes) r)
| step_trigger t r :
    ExtractionStep message senderName (Ev (insertTrigger t) r).

(** The initial status of a stored event follows its context tag. *)
Definition StatusFollowsTag (d : Event.t) : Prop :=
  (Event.context_url d <> None /\ Event.status d = "scheduled")
  \/ (Event.context_url d = None /\ Event.status d = "discovered").

End WithBuiltins.

(** The stored event [e] with the participants [p]. *)
Definition withParticipants (p : string) (e : Event.t) : Event.t :=
  {| Event.id := Event.id e;
     Event.message_id := Event.message_id e;
     Event.event_type := Event.event_type e;
     Event.title := Event.title e;
     Event.description := Event.description e;
     Event.event_time := Event.event_time e;
     Event.location := Event.location e;
     Event.participants := p;
     Event.keywords := Event.keywords e;
     Event.confidence := Event.confidence e;
     Event.status := Event.status e;
     Event.context_url := Event.context_url e;
     Event.sender_name := Event.sender_name e |}.

(** The answer [a] of [detectAction] turned into a detected [cancel] of
    confidence [c]. *)
Definition cancelWith (c : float) (a : Detected.t) : Detected.t :=
  {| Detected.isAction := true;
     Detected.action := "cancel";
     Detected.confidence := c;
     Detected.targetDescription := Detected.targetDescription a;
     Detected.targetKeywords := Detected.targetKeywords a;
     Detected.snoozeMinutes := Detected.snoozeMinutes a;
     Detected.newTime := Detected.newTime a;
     Detected.newTitle := Detected.newTitle a;
     Detected.newLocation := Detected.newLocation a;
     Detected.newDescription := Detected.newDescription a |}.

End Ingestion.

(* ================================================================== *)
(** ** Sample data                                                     *)
(* ================================================================== *)

Module Demo.
Import Collab Ingestion.

Definition lowerChar (c : ascii) : ascii :=
  let n := nat_of_ascii c in
  if ((65 <=? n) && (n <=? 90))%nat then ascii_of_nat (n + 32) else c.

Fixpoint lower (s : string) : string :=
  match s with
  | EmptyString => EmptyString
  | String c s' => String (lowerChar c) (lower s')
  end.

Fixpoint dropSpaces (s : string) : string :=
  match s with
  | String " " s' => dropSpaces s'
  | _ => s
  end.

Fixpoint reverse (s acc : string) : string :=
  match s with
  | EmptyString => acc
  | String c s' => reverse s' (String c acc)
  end.

Definition trimSpaces (s : string) : string :=
  reverse (dropSpaces (reverse (dropSpaces s) EmptyString)) EmptyString.

Fixpoint chars (s : string) : list string :=
  match s with
  | EmptyString => []
  | String c s' => String c EmptyString :: chars s'
  end.

Fixpoint digitsValue (s : string) (acc : Z) : Z :=
  match s with
  | EmptyString => acc
  | String c s' => digitsValue s' (10 * acc + Z.of_nat (nat_of_ascii c - 48))
  end.

(** Arrays of strings as JSON text; the names of the examples need no
    escaping. *)
Definition stringify (j : Json) : string :=
  match j with
  | JArr items =>
      "[" ++ join "," (map (fun i => match i with
                                     | JStr s => dquote ++ s ++ dquote
                                     | _ => "null"
                                     end) items) ++ "]"
  | JStr s => dquote ++ s ++ dquote
  | _ => "null"
  end.

(** The path of an [https] address. *)
Fixpoint fromSlash (s : string) : string :=
  match s with
  | EmptyString => "/"
  | String "/" _ => s
  | String _ s' => fromSlash s'
  end.

Definition pathname (u : string) : option string :=
  if String.prefix "https://" u
  then Some (fromSlash (String.substring 8 (String.length u - 8) u))
  else None.

(** The ASCII blanks. *)
Definition isBlank (c : ascii) : bool :=
  existsb (Ascii.eqb c) [" "; "009"; "010"; "011"; "012"; "013"]%char.

(** The built-ins on ASCII text and on the inputs of the examples.  Dates are
    the three time strings of the examples; a time is printed as its count of
    milliseconds, which keeps the examples apart from any calendar; the only
    JSON text is the empty array; the only regular expression that matches is
    the one for Netflix. *)
Definition builtins : Builtins :=
  {| toLowerCase := lower;
     trim := trimSpaces;
     strLength := fun s => Z.of_nat (String.length s);
     codePoints := chars;
     Date_getTime := fun s =>
       if (s =? "1969-12-31T00:00:00Z")%string then Some (-86400000)
       else if (s =? "2023-11-07T22:13:20Z")%string then Some 1699395200000
       else if (s =? "2030-01-01T10:00:00Z")%string then Some 1893492000000
       else None;
     toISOString := showZ;
     getDay := fun _ => O;
     dateWeekdayMonthDay := showZ;
     dateMonthDay := showZ;
     timeHourMinute := showZ;
     parseInt := fun s => if Matcher.onlyDigits s then Some (digitsValue s 0) else None;
     JSON_parse := fun s => if (s =? "[]")%string then Some (JArr []) else None;
     JSON_stringify := stringify;
     regexMatch := fun re u =>
       if (re =? "netflix\.com")%string && includes (lower u) "netflix.com"
       then Some [Some "netflix.com"] else None;
     URL_pathname := pathname;
     decodeURIComponent := fun s => if includes s "%" then None else Some s;
     shouldSkipMessage := fun s => (s =? "ok")%string || (s =? "lol")%string;
     splitWhitespace := Matcher.splitRuns isBlank;
     inheritedText := fun key =>
       if (key =? "constructor")%string then Some "function Object() { [native code] }"
       else if (key =? "toString")%string
       then Some "function toString() { [native code] }"
       else if (key =? "__proto__")%string then Some "[object Object]"
       else None |}.


(** An event at the Unix time [t]. *)
Definition eventAt (i t : Z) : Quicksave.CompressibleEvent :=
  {| Quicksave.id := i;
     Quicksave.title := "call";
     Quicksave.description := None;
     Quicksave.event_type := "meeting";
     Quicksave.event_time := Some t;
     Quicksave.location := None;
     Quicksave.status := "scheduled";
     Quicksave.keywords := "call";
     Quicksave.sender_name := None;
     Quicksave.context_url := None;
     Quicksave.created_at := None |}.

(** A stored subscription event. *)
Definition netflixEvent : Event.t :=
  {| Event.id := Some 7;
     Event.message_id := Some "m1";
     Event.event_type := "subscription";
     Event.title := "Cancel Netflix";
     Event.description := Some "after this show";
     Event.event_time := None;
     Event.location := Some "netflix";
     Event.participants := "[]";
     Event.keywords := "netflix,cancel";
     Event.confidence := 0.9%float;
     Event.status := "scheduled";
     Event.context_url := Some "netflix";
     Event.sender_name := Some "Rahul" |}.

Definition netflixUrl : string := "https://www.netflix.com/browse".

(** A validation that keeps no candidate. *)
Definition nothingRelevant : Validation.t :=
  {| Validation.relevant := []; Validation.confidence := 0.3%float |}.

(** The steps of a context check of [netflixUrl] that finds [netflixEvent] by
    location and whose validation keeps nothing. *)
Definition matchSteps : list Step :=
  [ Ev (searchEventsByLocation "netflix" 90 10) (Ok [netflixEvent]);
    Ev (validateRelevance netflixUrl EmptyString [netflixEvent]) (Ok nothingRelevant) ].

(** A direct message from Rahul. *)
Definition payload : Webhook.t :=
  {| Webhook.remoteJid := "919999@s.whatsapp.net";
     Webhook.fromMe := false;
     Webhook.id := "msg-1";
     Webhook.pushName := Some "Rahul";
     Webhook.conversation := Some "change it";
     Webhook.extendedText := None;
     Webhook.messageTimestamp := TsNumber (Some 1700000000) |}.

Definition options : Options :=
  {| processOwnMessages := false; skipGroupMessages := true |}.

Definition message : Message.t := messageOf (H := builtins) payload "change it".

Definition rahul : Contact.t :=
  {| Contact.id := "919999";
     Contact.name := Some "Rahul";
     Contact.first_seen := Some 1700000000;
     Contact.last_seen := Some 1700000000;
     Contact.message_count := 1 |}.

(** A detected [modify] that names no change. *)
Definition bareModify : Detected.t :=
  {| Detected.isAction := true;
     Detected.action := "modify";
     Detected.confidence := 0.9%float;
     Detected.targetDescription := "the subscription";
     Detected.targetKeywords := [];
     Detected.snoozeMinutes := None;
     Detected.newTime := None;
     Detected.newTitle := None;
     Detected.newLocation := None;
     Detected.newDescription := None |}.

(** A detected [cancel] that names a keyword. *)
Definition keywordCancel : Detected.t :=
  {| Detected.isAction := true;
     Detected.action := "cancel";
     Detected.confidence := 0.9%float;
     Detected.targetDescription := "the gym";
     Detected.targetKeywords := ["gym"];
     Detected.snoozeMinutes := None;
     Detected.newTime := None;
     Detected.newTitle := None;
     Detected.newLocation := None;
     Detected.newDescription := None |}.


(** The steps of [processWebhook] on [payload] when the model detects
    [bareModify] and [netflixEvent] is the only active event. *)
Definition modifySteps : list Step :=
  [ Ev (insertMessage message) (Ok tt);
    Ev (upsertContact rahul) (Ok tt);
    Ev (getRecentMessages "919999@s.whatsapp.net" 5) (Ok []);
    Ev (getActiveEvents 20) (Ok [netflixEvent]);
    Ev (detectAction "change it" [] [activeSummary netflixEvent] (Some 1700000000))
       (Ok bareModify) ].

Definition modifyResult : IngestionResult.t :=
  performedResult "msg-1"
    {| ActionResult.action := "modify";
       ActionResult.targetEventId := 7;
       ActionResult.targetEventTitle := "Cancel Netflix";
       ActionResult.message := "Modify requested but no changes specified" |}.


(** A time string of the year 1969. *)
Definition oldDate : string := "1969-12-31T00:00:00Z".

(** The clock of the examples, in milliseconds. *)
Definition clock : Z := 1700000000000.

(** A dinner on the morning of 2030-01-01. *)
Definition dinner : Extracted.t :=
  {| Extracted.type := "meeting";
     Extracted.title := "Dinner with Rahul";
     Extracted.description := None;
     Extracted.event_time := Some "2030-01-01T10:00:00Z";
     Extracted.location := None;
     Extracted.participants := ["Rahul"];
     Extracted.keywords := ["dinner"];
     Extracted.confidence := 0.9%float;
     Extracted.event_action := None;
     Extracted.target_event_id := None |}.

Definition dinnerTime : Z := 1893492000.

(** A time string exactly one week before [clock]. *)
Definition weekBefore : string := "2023-11-07T22:13:20Z".

(** A reminder for the moment one week before [clock]. *)
Definition lastWeek : Extracted.t :=
  {| Extracted.type := "reminder";
     Extracted.title := "Water the plants";
     Extracted.description := None;
     Extracted.event_time := Some weekBefore;
     Extracted.location := None;
     Extracted.participants := [];
     Extracted.keywords := ["plants"];
     Extracted.confidence := 0.9%float;
     Extracted.event_action := None;
     Extracted.target_event_id := None |}.

(** The steps of [processMessage] when the model extracts [lastWeek] and the
    conflict lookup fails after the event is stored. *)
Definition lastWeekSteps : list Step :=
  [ Tick clock;
    Ev (extractEvents "change it" [] (showZ clock) [] (Some 1700000000))
       (Ok [lastWeek]);
    Ev (findDuplicateEvent "Water the plants" 48) (Ok None);
    Tick clock;
    Ev (insertEvent (eventDataOf (H := builtins) message (Some "Rahul") lastWeek
                       (Some 1700000000))) (Ok 13);
    Ev (checkEventConflicts 1700000000 60) Err ].

(** The steps of [processMessage] when the model extracts [dinner], the event
    and its first trigger are stored, and the second [insertTrigger] fails. *)
Definition failingSteps : list Step :=
  [ Tick clock;
    Ev (extractEvents "change it" [] (showZ clock) [] (Some 1700000000)) (Ok [dinner]);
    Ev (findDuplicateEvent "Dinner with Rahul" 48) (Ok None);
    Tick clock;
    Ev (insertEvent (eventDataOf (H := builtins) message (Some "Rahul") dinner
                       (Some dinnerTime))) (Ok 11);
    Ev (checkEventConflicts dinnerTime 60) (Ok []);
    Tick clock;
    Ev (insertTrigger {| Trigger.event_id := 11;
                         Trigger.trigger_type := time_24h;
                         Trigger.trigger_value := showZ ((dinnerTime - 86400) * 1000);
                         Trigger.is_fired := false |}) (Ok tt);
    Ev (insertTrigger {| Trigger.event_id := 11;
                         Trigger.trigger_type := time_1h;
                         Trigger.trigger_value := showZ ((dinnerTime - 3600) * 1000);
                         Trigger.is_fired := false |}) Err ].

Definition failingResult : IngestionResult.t :=
  resultOf message
    {| eventsCreated := 1;
       triggersCreated := 1;
       createdEvents :=
         [createdOf (H := builtins) (Some "Rahul") dinner 11 (Some dinnerTime)] |}.

(** A stored party: Alice takes part, Rahul sent the message. *)
Definition partyEvent : Event.t :=
  {| Event.id := Some 8;
     Event.message_id := Some "m2";
     Event.event_type := "meeting";
     Event.title := "Party";
     Event.description := Some "Party at 8";
     Event.event_time := None;
     Event.location := None;
     Event.participants := stringify (JArr [JStr "Alice"]);
     Event.keywords := "party";
     Event.confidence := 0.9%float;
     Event.status := "discovered";
     Event.context_url := None;
     Event.sender_name := Some "Rahul" |}.

(** A candidate to merge into the party: Bob comes too. *)
Definition bobJoins : Extracted.t :=
  {| Extracted.type := "meeting";
     Extracted.title := "Party";
     Extracted.description := Some "bring cake";
     Extracted.event_time := None;
     Extracted.location := None;
     Extracted.participants := ["Bob"];
     Extracted.keywords := ["party"];
     Extracted.confidence := 0.9%float;
     Extracted.event_action := Some "merge";
     Extracted.target_event_id := Some 8 |}.

(** What the merge hands to [updateEvent]. *)
Definition mergeWritten : UpdateFields.t :=
  {| UpdateFields.title := None;
     UpdateFields.description := Some "Party at 8. bring cake";
     UpdateFields.location := None;
     UpdateFields.event_time := None;
     UpdateFields.keywords := None;
     UpdateFields.participants := Some (stringify (JArr [JStr "Bob"])) |}.

Definition mergeSteps : list Step :=
  [ Tick clock;
    Ev (extractEvents "change it" [] (showZ clock)
          [eventForModel partyEvent] (Some 1700000000)) (Ok [bobJoins]);
    Ev (updateEvent 8 mergeWritten) (Ok true) ].

(** The gift of the specification: no time, a beauty keyword. *)
Definition lipstick : Extracted.t :=
  {| Extracted.type := "recommendation";
     Extracted.title := "Buy lipstick for sis";
     Extracted.description := Some "birthday gift";
     Extracted.event_time := None;
     Extracted.location := None;
     Extracted.participants := [];
     Extracted.keywords := ["lipstick"; "gift"; "birthday"];
     Extracted.confidence := 0.8%float;
     Extracted.event_action := None;
     Extracted.target_event_id := None |}.

Definition lipstickSteps : list Step :=
  [ Tick clock;
    Ev (extractEvents "change it" [] (showZ clock) [] (Some 1700000000)) (Ok [lipstick]);
    Ev (findDuplicateEvent "Buy lipstick for sis" 48) (Ok None);
    Ev (insertEvent (eventDataOf (H := builtins) message (Some "Rahul") lipstick None))
       (Ok 12);
    Ev (insertTrigger {| Trigger.event_id := 12;
                         Trigger.trigger_type := keyword;
                         Trigger.trigger_value := "gift";
                         Trigger.is_fired := false |}) (Ok tt);
    Ev (insertTrigger {| Trigger.event_id := 12;
                         Trigger.trigger_type := keyword;
                         Trigger.trigger_value := "birthday";
                         Trigger.is_fired := false |}) (Ok tt) ].

End Demo.

(* ================================================================== *)
(** ** quicksave.ts: the ranking seen from outside, and the chat memory *)
(* ================================================================== *)

Module Ranking.
Import Quicksave.

(** The events in the order of [events], each with its priority: the array
    that [filterBySignal] sorts. *)
Definition scored (nowMs : Z) (evs : list CompressibleEvent) : list Ranked :=
  map (fun e => {| ev := e; priority := signalPriority (nowMs / 1000) e |}) evs.

(** The entries of priority [p], in order. *)
Definition ofPriority (p : Z) (l : list Ranked) : list Ranked :=
  filter (fun r => priority r =? p) l.

(** [e.status === 'completed' || e.status === 'ignored'] *)
(** How many of the first [i] entries have a time: the clock readings that
    the lines before line [i] have used. *)
Definition readingsBefore (i : nat) (l : list Ranked) : nat :=
  List.length (filter (fun r => isSome (truthyNum (event_time (ev r)))) (firstn i l)).

Definition isDone (e : CompressibleEvent) : bool :=
  (status e =? "completed")%string || (status e =? "ignored")%string.

End Ranking.

Module Chat.
Import Quicksave.

(** An entry of the chat history. *)
Record Turn := {
  role : string;
  content : string;
}.

Record ChatMemoryResult := {
  recentHistory : list Turn;
  memoryPacket : option string;
}.

(** The string built-ins that only [compressChatHistory] uses. *)
Class TextBuiltins := {
  (** [s.slice(0, n)] *)
  sliceTo : Z -> string -> string;
  (** [s.split(/[.!]\s+/)] *)
  splitSentences : string -> list string;
  (** The test of the event words,
      [/\b(event|meeting|...|next week)\b/i.test(s)]. *)
  mentionsEvent : string -> bool;
  (** [s.match(/#(\d+)/g)], the empty list for [null]. *)
  idRefs : string -> list string;
}.

(** The index that [Array.prototype.slice] makes of a relative one, for an
    array of length [len]. *)
Definition relativeIndex (k : Z) (len : nat) : nat :=
  if k <? 0 then Z.to_nat (Z.max (Z.of_nat len + k) 0)
  else Nat.min (Z.to_nat k) len.

(** [l.slice(start, fin)] *)
Definition slice {A} (start fin : Z) (l : list A) : list A :=
  let s := relativeIndex start (List.length l) in
  let e := relativeIndex fin (List.length l) in
  firstn (e - s) (skipn s l).

(** [l.slice(start)] *)
Definition sliceFrom {A} (start : Z) (l : list A) : list A :=
  skipn (relativeIndex start (List.length l)) l.

(** The three arrays that the loop over the older turns fills. *)
Record Signal := {
  userQueries : list string;
  argusKeyFacts : list string;
  eventRefs : list string;
}.

Definition noSignal : Signal :=
  {| userQueries := []; argusKeyFacts := []; eventRefs := [] |}.

Definition ellipsis : string := "…".

Section WithBuiltins.
Context `{Builtins} `{TextBuiltins}.

(** [s.length > n ? s.slice(0, n) + '…' : s] *)
Definition truncated (n : Z) (s : string) : string :=
  if n <? strLength s then sliceTo n s ++ ellipsis else s.

(** The body of the loop over the sentences of a reply. *)
Definition noteSentence (sig : Signal) (sentence : string) : Signal :=
  {| userQueries := userQueries sig;
     argusKeyFacts :=
       if mentionsEvent sentence
       then (argusKeyFacts sig ++ [truncated 120 sentence])%list
       else argusKeyFacts sig;
     eventRefs := (eventRefs sig ++ idRefs sentence)%list |}.

(** The body of the loop over the older turns. *)
Definition noteTurn (sig : Signal) (turn : Turn) : Signal :=
  let text := trim (content turn) in
  if (text =? EmptyString)%string || (strLength text <? 5) then sig
  else if (role turn =? "user")%string then
    {| userQueries := (userQueries sig ++ [truncated 100 text])%list;
       argusKeyFacts := argusKeyFacts sig;
       eventRefs := eventRefs sig |}
  else
    let sentences := filter (fun s => 15 <? strLength s) (splitSentences text) in
    fold_left noteSentence (slice 0 3 sentences) sig.

(** The first part of a packet. *)
Definition packetHeader (turns : nat) : string :=
  "[Prior conversation: " ++ showZ (Z.of_nat turns) ++ " turns compressed]".

(** The parts of the packet after the first. *)
Definition packetRest (sig : Signal) : list string :=
  let asked :=
    match userQueries sig with
    | [] => []
    | queries => ["User asked: " ++ join " → " (sliceFrom (-5) queries)]
    end in
  let facts :=
    match argusKeyFacts sig with
    | [] => []
    | keyFacts => ["Key facts: " ++ join " | " (sliceFrom (-5) keyFacts)]
    end in
  let discussed :=
    match eventRefs sig with
    | [] => []
    | refs =>
        ["Events discussed: " ++ join ", " (slice 0 10 (dedup String.eqb refs))]
    end in
  (asked ++ facts ++ discussed)%list.

(** The memory packet of the older turns. *)
Definition packetOf (olderTurns : list Turn) : string :=
  join newline (packetHeader (List.length olderTurns)
                :: packetRest (fold_left noteTurn olderTurns noSignal)).

(** [compressChatHistory(history, maxRecentTurns)] for an integer
    [maxRecentTurns]; [None] is the argument left out. *)
Definition compressChatHistory (history : list Turn) (maxRecentTurns : option Z)
  : ChatMemoryResult :=
  let maxRecentTurns := match maxRecentTurns with Some n => n | None => 6 end in
  if Z.of_nat (List.length history) <=? maxRecentTurns then
    {| recentHistory := history; memoryPacket := None |}
  else
    let olderTurns :=
      slice 0 (Z.of_nat (List.length history) - maxRecentTurns) history in
    let recent := sliceFrom (- maxRecentTurns) history in
    {| recentHistory := recent; memoryPacket := Some (packetOf olderTurns) |}.

End WithBuiltins.

End Chat.

(* ================================================================== *)
(** ** More of what a run shows                                        *)
(* ================================================================== *)

Module Observe.
Import Collab.

(** The location searches for [kws], each answered with no event. *)
Definition emptyLocations (days : Z) (kws : list string) : list Step :=
  map (fun kw => Ev (searchEventsByLocation kw days 10) (Ok [])) kws.

(** The searches of one context check and the answer of the last of them: the
    location search keyword by keyword, up to the first keyword for which it
    finds an event or fails; after a location search without events for every
    keyword, the full-text search for all of them. *)
Inductive Searches (days : Z) (kws : list string)
  : list Step -> Res (list Event.t) -> Prop :=
| by_location k1 kw k2 r :
    kws = (k1 ++ kw :: k2)%list -> r <> Ok [] ->
    Searches days kws
      (emptyLocations days k1 ++ [Ev (searchEventsByLocation kw days 10) r])%list r
| by_full_text r :
    Searches days kws
      (emptyLocations days kws ++ [Ev (searchEventsByKeywords kws days 10) r])%list r.

(** The result of [matchContext] for the candidates [candidates] and the
    validation [v] (lines 122-138). *)
Definition resultFor (candidates : list Event.t) (v : Validation.t)
  : Matcher.ContextCheckResponse :=
  match Validation.relevant v with
  | [] => Matcher.noMatch (Validation.confidence v)
  | relevant =>
      {| Matcher.matched := true;
         Matcher.events :=
           Matcher.definedOnly (map (Matcher.candidateAt candidates) relevant);
         Matcher.confidence := Validation.confidence v |}
  end.

(** The number of keywords that a [keywords] callback of the table can give,
    the path keywords of [extractUrlKeywords] being five at most. *)
Definition ruleSize (k : Matcher.KeywordRule) : nat :=
  match k with
  | Matcher.PathOf _ => 5
  | Matcher.Fixed kws => List.length kws
  | Matcher.DecodedQuery _ => 1
  | Matcher.Decoded _ => 1
  | Matcher.GroupThen _ rest => S (List.length rest)
  end.

End Observe.

(* ================================================================== *)
(** ** ingestion.ts: what a run of the extraction shows                *)
(* ================================================================== *)

Module Shape.
Import Collab Ingestion.

Definition isTick (s : Step) : bool :=
  match s with
  | Tick _ => true
  | Ev _ _ => false
  end.

(** The trigger handed to [insertTrigger], when the step is such a call. *)
Definition triggerOf (s : Step) : option Trigger.t :=
  match s with
  | Ev c _ => match c with insertTrigger t => Some t | _ => None end
  | Tick _ => None
  end.

(** The identifier that [insertEvent] answered, when the step is such a call
    that succeeded. *)
Definition insertedId (s : Step) : option Z :=
  match s with
  | Ev c r =>
      match c in Call X return Res X -> option Z with
      | insertEvent _ => fun r => match r with Ok i => Some i | Err => None end
      | _ => fun _ => None
      end r
  | Tick _ => None
  end.

(** The events inserted: the calls of [insertEvent] that succeeded. *)
Definition insertsIn (tr : list Step) : Z :=
  Z.of_nat (List.length (filter (fun s => isSome (insertedId s)) tr)).

(** The identifier of the event that the step stored or changed: the answer of
    an [insertEvent] that succeeded, the target of an [updateEvent] that
    answered [true]. *)
Definition storedId (s : Step) : option Z :=
  match s with
  | Ev c r =>
      match c in Call X return Res X -> option Z with
      | insertEvent _ => fun r => match r with Ok i => Some i | Err => None end
      | updateEvent i _ => fun r => match r with Ok true => Some i | _ => None end
      | _ => fun _ => None
      end r
  | Tick _ => None
  end.

Definition storedIds (tr : list Step) : list Z :=
  Matcher.definedOnly (map storedId tr).

(** The title and the window of a [findDuplicateEvent] that answered that there
    is no such event. *)
Definition duplicateFree (s : Step) : option (string * Z) :=
  match s with
  | Ev c r =>
      match c in Call X return Res X -> option (string * Z) with
      | findDuplicateEvent title hours =>
          fun r => match r with Ok None => Some (title, hours) | _ => None end
      | _ => fun _ => None
      end r
  | Tick _ => None
  end.

(** The candidates that [extractEvents] answered, when the step is such a call
    that succeeded. *)
Definition extractionOf (s : Step) : option (list Extracted.t) :=
  match s with
  | Ev c r =>
      match c in Call X return Res X -> option (list Extracted.t) with
      | extractEvents _ _ _ _ _ =>
          fun r => match r with Ok l => Some l | Err => None end
      | _ => fun _ => None
      end r
  | Tick _ => None
  end.

(** The event that a mutation of the action handlers is made on. *)
Definition mutationTarget (s : Step) : option Z :=
  match s with
  | Ev c _ =>
      match c with
      | deleteEvent i | dbCompleteEvent i | ignoreEvent i | snoozeEvent i _ => Some i
      | _ => None
      end
  | Tick _ => None
  end.

(** The calls that [processWebhook] makes outside the [try] of
    [processMessage]. *)
Definition outsideExtraction (s : Step) : bool :=
  match s with
  | Ev c _ =>
      match c with
      | insertMessage _ | upsertContact _ | getRecentMessages _ _
      | getActiveEvents _ | detectAction _ _ _ _ | findActiveEventsByKeywords _
      | deleteEvent _ | dbCompleteEvent _ | ignoreEvent _ | snoozeEvent _ _ => true
      | _ => false
      end
  | Tick _ => false
  end.

(** The step is a call of [insertMessage]. *)
Definition storesMessage (s : Step) : bool :=
  match s with
  | Ev c _ => match c with insertMessage _ => true | _ => false end
  | Tick _ => false
  end.

(** The messages stored: the arguments of the calls of [insertMessage] that
    succeeded, in order. *)
Definition messagesStored (tr : list Step) : list Message.t :=
  Matcher.definedOnly (map storedMessage tr).

(** The event that a result names as the target of an action: its identifier
    and its title, from [actionPerformed] or from [pendingAction]. *)
Definition namedTarget (r : IngestionResult.t) : option (Z * string) :=
  match IngestionResult.actionPerformed r, IngestionResult.pendingAction r with
  | Some report, _ =>
      Some (ActionResult.targetEventId report, ActionResult.targetEventTitle report)
  | None, Some pending =>
      Some (PendingAction.targetEventId pending, PendingAction.targetEventTitle pending)
  | None, None => None
  end.

(** The last step of a run. *)
Definition lastStep (tr : list Step) : option Step :=
  last (map Some tr) None.

(** A step that can follow the insertion of the event [eventId] in the
    handling of one candidate: a clock reading, the conflict lookup, or the
    insertion of a trigger of that event. *)
Definition followsInsert (eventId : Z) (s : Step) : bool :=
  match s with
  | Tick _ => true
  | Ev c _ =>
      match c with
      | checkEventConflicts _ _ => true
      | insertTrigger t => Trigger.event_id t =? eventId
      | _ => false
      end
  end.

(** The event that the triggers of the later steps are for: the one that the
    step inserted, if it inserted one. *)
Definition ownerAfter (owner : option Z) (s : Step) : option Z :=
  match insertedId s with
  | Some i => Some i
  | None => owner
  end.

(** Every trigger of the run is for the event inserted last before it;
    [owner] is the event inserted last before the run. *)
Fixpoint TriggersOwned (owner : option Z) (tr : list Step) : Prop :=
  match tr with
  | [] => True
  | s :: rest =>
      (forall t, triggerOf s = Some t -> owner = Some (Trigger.event_id t))
      /\ TriggersOwned (ownerAfter owner s) rest
  end.

(** The title that may be inserted next: after a duplicate lookup over 48
    hours that found nothing, its title; a clock reading changes nothing; any
    other step leaves no title. *)
Definition clearedAfter (cleared : option string) (s : Step) : option string :=
  match s with
  | Tick _ => cleared
  | Ev _ _ =>
      match duplicateFree s with
      | Some (title, hours) => if hours =? 48 then Some title else None
      | None => None
      end
  end.

(** Every event of the run is inserted right after the duplicate lookup for
    its title found nothing. *)
Fixpoint InsertsGuarded (cleared : option string) (tr : list Step) : Prop :=
  match tr with
  | [] => True
  | s :: rest =>
      (forall d, insertedEvent s = Some d -> cleared = Some (Event.title d))
      /\ InsertsGuarded (clearedAfter cleared s) rest
  end.

(** The steps up to the next insertion of an event. *)
Fixpoint untilInsertion (tr : list Step) : list Step :=
  match tr with
  | [] => []
  | s :: rest => if isSome (insertedId s) then [] else s :: untilInsertion rest
  end.

(** A trigger of the step, if it is the insertion of one, is for the event
    [eventId]. *)
Definition ownedBy (eventId : Z) (s : Step) : Prop :=
  forall t, triggerOf s = Some t -> Trigger.event_id t = eventId.

(** After every insertion of an event and up to the next one, the run creates
    seven triggers at most, all of them for that event. *)
Fixpoint SevenEach (tr : list Step) : Prop :=
  match tr with
  | [] => True
  | s :: rest =>
      (forall i, insertedId s = Some i ->
         triggersIn (untilInsertion rest) <= 7
         /\ Forall (ownedBy i) (untilInsertion rest))
      /\ SevenEach rest
  end.

(** The statement creates [n] triggers at most. *)
Definition TriggersAtMost {A} (n : Z) (m : Body A) : Prop :=
  forall acc tr out, Runs (m acc) tr out -> triggersIn tr <= n.

(** The statement never throws past the [try], and it appends to
    [createdEvents] one entry for each event that its steps stored or changed,
    in the order of the steps and with the identifier of the event. *)
Definition Listed {A} (m : Body A) : Prop :=
  forall acc tr out, Runs (m acc) tr out ->
    exists r acc',
      out = Ok (r, acc')
      /\ map CreatedEvent.id (createdEvents acc')
         = (map CreatedEvent.id (createdEvents acc) ++ storedIds tr)%list.

Section WithBuiltins.
Context `{Builtins}.

(** The time [stored] with an event whose candidate has the time text [text],
    when [previous] is the step made just before the insertion: none for a
    text that is absent, empty or no date; else the step before is the clock
    reading and the time is the parsed one pushed to the week of the reading. *)
Definition storedTimeOf (text : option string) (previous : option Step)
    (stored : option Z) : Prop :=
  match truthyStr text with
  | None => stored = None
  | Some s =>
      match parseUnix s with
      | None => stored = None
      | Some parsed =>
          exists nowMs, previous = Some (Tick nowMs)
                        /\ stored = Some (pushPastForward parsed (nowMs / 1000))
      end
  end.

(** Every event handed to [insertEvent] is built for [message] from one of
    the [candidates], with the time that [storedTimeOf] gives it; [previous]
    is the step made before the run. *)
Fixpoint TimesRead (message : Message.t) (senderName : option string)
    (candidates : list Extracted.t) (previous : option Step) (tr : list Step)
  : Prop :=
  match tr with
  | [] => True
  | s :: rest =>
      (forall d, insertedEvent s = Some d ->
         exists event,
           In event candidates
           /\ d = eventDataOf message senderName event (Event.event_time d)
           /\ storedTimeOf (Extracted.event_time event) previous (Event.event_time d))
      /\ TimesRead message senderName candidates (Some s) rest
  end.

(** The steps that the handling of one of the [candidates] of [message]
    makes. *)
Inductive Segment (message : Message.t) (senderName : option string)
    (candidates : list Extracted.t) : list Step -> Prop :=
| seg_clock clock :
    (* a candidate of low confidence, or an update that names no field *)
    Forall (fun s => isTick s = true) clock ->
    Segment message senderName candidates clock
| seg_update clock target fields r :
    Forall (fun s => isTick s = true) clock ->
    UpdateFields.hasKeys fields = true ->
    target <> 0 ->
    Segment message senderName candidates
      (clock ++ [Ev (updateEvent target fields) r])%list
| seg_duplicate title r :
    r <> Ok None ->
    Segment message senderName candidates [Ev (findDuplicateEvent title 48) r]
| seg_create event clock eventTime r after :
    In event candidates ->
    Forall (fun s => isTick s = true) clock ->
    storedTimeOf (Extracted.event_time event) (lastStep clock) eventTime ->
    match r with
    | Ok eventId =>
        Forall (fun s => followsInsert eventId s = true) after
        /\ triggersIn after <= 7
    | Err => after = []
    end ->
    Segment message senderName candidates
      (Ev (findDuplicateEvent (Extracted.title event) 48) (Ok None)
       :: clock
       ++ Ev (insertEvent (eventDataOf message senderName event eventTime)) r
       :: after)%list.

End WithBuiltins.

End Shape.

(* ================================================================== *)
(** ** ingestion.ts: the batch import                                  *)
(* ================================================================== *)

Module Batch.
Import Collab Ingestion.

(** An element of [messages]. *)
Record Incoming := {
  content : string;
  sender : string;
  chatId : string;
  timestamp : Z;
}.

Record Summary := {
  total : Z;
  processed : Z;
  events : Z;
}.

Section WithBuiltins.
Context `{Builtins}.

(** The message object of lines 597-603; [suffix] is
    [Math.random().toString(36).slice(2)]. *)
Definition importedMessage (nowMs : Z) (suffix : string) (msg : Incoming)
  : Message.t :=
  {| Message.id := "import_" ++ showZ nowMs ++ "_" ++ suffix;
     Message.chat_id := chatId msg;
     Message.sender := sender msg;
     Message.content := content msg;
     Message.timestamp := Some (timestamp msg) |}.

(** The loop of [batchImportMessages] from the values [processed] and
    [totalEvents] of its counters.  [Math.random] is not among the effects of
    [Prog]: each message comes with the random suffix of its identifier. *)
Fixpoint importLoop (messages : list (Incoming * string)) (processed totalEvents : Z)
  : Prog (Z * Z) :=
  match messages with
  | [] => Ret (processed, totalEvents)
  | (msg, suffix) :: rest =>
      (nowMs <- now ;;
       let message := importedMessage nowMs suffix msg in
       call (insertMessage message) ;;
       if negb (shouldSkipMessage (content msg)) then
         result <- processMessage message [] None [] ;;
         importLoop rest (processed + 1)
                    (totalEvents + IngestionResult.eventsCreated result)
       else importLoop rest processed totalEvents)%prog
  end.

(** [batchImportMessages(messages)] *)
Definition batchImportMessages (messages : list (Incoming * string)) : Prog Summary :=
  (counters <- importLoop messages 0 0 ;;
   Ret {| total := Z.of_nat (List.length messages);
          processed := fst counters;
          events := snd counters |})%prog.

End WithBuiltins.

(** The messages that the pre-filter lets through. *)
Definition worthProcessing `{Builtins} (messages : list (Incoming * string))
  : list (Incoming * string) :=
  filter (fun m => negb (shouldSkipMessage (content (fst m)))) messages.

End Batch.

(* ================================================================== *)
(** ** More sample data                                                *)
(* ================================================================== *)

Module Samples.
Import Collab Ingestion.

(** A completed call at the Unix time [t]. *)
Definition doneAt (i t : Z) : Quicksave.CompressibleEvent :=
  {| Quicksave.id := i;
     Quicksave.title := "call";
     Quicksave.description := None;
     Quicksave.event_type := "meeting";
     Quicksave.event_time := Some t;
     Quicksave.location := None;
     Quicksave.status := "completed";
     Quicksave.keywords := "call";
     Quicksave.sender_name := None;
     Quicksave.context_url := None;
     Quicksave.created_at := None |}.

(** A validation that names the first candidate and a sixth one. *)
Definition firstAndSixth : Validation.t :=
  {| Validation.relevant := [0; 5]; Validation.confidence := 0.8%float |}.

(** The steps of a context check of [Demo.netflixUrl] that finds
    [Demo.netflixEvent] by location and whose validation is [firstAndSixth]. *)
Definition matchedSteps : list Step :=
  [ Ev (searchEventsByLocation "netflix" 90 10) (Ok [Demo.netflixEvent]);
    Ev (validateRelevance Demo.netflixUrl EmptyString [Demo.netflixEvent])
       (Ok firstAndSixth) ].

Definition matchedResult : Matcher.ContextCheckResponse :=
  {| Matcher.matched := true;
     Matcher.events := [Demo.netflixEvent];
     Matcher.confidence := 0.8%float |}.

(** A dinner that the model is not sure of. *)
Definition maybeDinner : Extracted.t :=
  {| Extracted.type := "meeting";
     Extracted.title := "Dinner?";
     Extracted.description := None;
     Extracted.event_time := None;
     Extracted.location := None;
     Extracted.participants := [];
     Extracted.keywords := ["dinner"];
     Extracted.confidence := 0.5%float;
     Extracted.event_action := None;
     Extracted.target_event_id := None |}.

(** The steps of [processMessage] when the model extracts [maybeDinner]. *)
Definition unsureSteps : list Step :=
  [ Tick Demo.clock;
    Ev (extractEvents "change it" [] (showZ Demo.clock) [] (Some 1700000000))
       (Ok [maybeDinner]) ].

(** The report of the cancellation of [Demo.netflixEvent]. *)
Definition cancelled : IngestionResult.t :=
  performedResult "msg-1"
    {| ActionResult.action := "cancel";
       ActionResult.targetEventId := 7;
       ActionResult.targetEventTitle := "Cancel Netflix";
       ActionResult.message := "Deleted: " ++ quoted "Cancel Netflix" |}.

(** Two messages to import, the second one trivial. *)
Definition firstImport : Batch.Incoming :=
  {| Batch.content := "change it"; Batch.sender := "919999";
     Batch.chatId := "919999@s.whatsapp.net"; Batch.timestamp := 1700000000 |}.

Definition secondImport : Batch.Incoming :=
  {| Batch.content := "ok"; Batch.sender := "919999";
     Batch.chatId := "919999@s.whatsapp.net"; Batch.timestamp := 1700000060 |}.

(** The messages with the random suffixes of their identifiers. *)
Definition imported : list (Batch.Incoming * string) :=
  [(firstImport, "k3x9"); (secondImport, "p0q2")].

(** The steps of the import of [imported] when the model extracts nothing. *)
Definition importSteps : list Step :=
  [ Tick Demo.clock;
    Ev (insertMessage (Batch.importedMessage Demo.clock "k3x9" firstImport)) (Ok tt);
    Tick Demo.clock;
    Ev (extractEvents "change it" [] (showZ Demo.clock) [] (Some 1700000000)) (Ok []);
    Tick Demo.clock;
    Ev (insertMessage (Batch.importedMessage Demo.clock "p0q2" secondImport)) (Ok tt) ].

Definition importSummary : Batch.Summary :=
  {| Batch.total := 2; Batch.processed := 1; Batch.events := 0 |}.

End Samples.

(* ================================================================== *)
(** ** Facts about strings                                             *)
(* ================================================================== *)

Module JSFacts.








Lemma append_empty (s : string) : s ++ EmptyString = s.
Proof. induction s as [|c s IH]; simpl; [reflexivity|now rewrite IH]. Qed.

End JSFacts.

(* ================================================================== *)
(** ** Facts about the context compressor                              *)
(* ================================================================== *)

Module QuicksaveFacts.
Import Quicksave JSFacts.




Lemma in_edgesWith (e : EventEdge) `{Builtins} (a : CompressibleEvent)
    (rest : list CompressibleEvent) :
  In e (edgesWith a rest) <-> exists b, In b rest /\ In e (pairEdges a b).
Proof.
  induction rest as [|b rest IH]; simpl.
  - split; [tauto|]. intros (b & [] & _).
  - rewrite in_app_iff, IH. split.
    + intros [Hb | (b' & Hin & He)]; eauto.
    + intros (b' & [-> | Hin] & He); eauto.
Qed.

Lemma in_edgesOfPairs (e : EventEdge) `{Builtins} (evs : list CompressibleEvent) :
  In e (edgesOfPairs evs) <-> exists a b, Before a b evs /\ In e (pairEdges a b).
Proof.
  induction evs as [|x evs IH]; simpl.
  - split; [tauto|].
    intros (a & b & (l1 & l2 & l3 & E) & _). destruct l1; discriminate.
  - rewrite in_app_iff, in_edgesWith, IH. split.
    + intros [(b & Hin & He) | (a & b & (l1 & l2 & l3 & ->) & He)].
      * apply in_split in Hin as (l2 & l3 & ->).
        exists x, b. split; [|exact He]. now exists [], l2, l3.
      * exists a, b. split; [|exact He]. now exists (x :: l1), l2, l3.
    + intros (a & b & (l1 & l2 & l3 & E) & He).
      destruct l1 as [|y l1]; simpl in E; injection E as -> ->.
      * left. exists b. split; [|exact He]. apply in_or_app. right. now left.
      * right. exists a, b. split; [|exact He]. now exists l1, l2, l3.
Qed.

Section WithBuiltins.
Context `{Builtins}.

(** The conflicts edge of one pair. *)
Lemma pairEdges_conflicts (a b : CompressibleEvent) (e : EventEdge) :
  relation e = conflicts ->
  (In e (pairEdges a b) <->
   e = {| sourceId := id a; targetId := id b; relation := conflicts |}
   /\ exists ta tb, truthyNum (event_time a) = Some ta
                    /\ truthyNum (event_time b) = Some tb
                    /\ 0 < Z.abs (ta - tb) <= 3600).
Proof.
  intros Hrel. unfold pairEdges. rewrite in_app_iff. split.
  - intros [Htopic | Hclash].
    + destruct (2 <=? _)%nat; [|destruct Htopic].
      destruct (_ || _); destruct Htopic as [<- | []]; discriminate.
    + destruct (truthyNum (event_time a)) as [ta|]; [|destruct Hclash].
      destruct (truthyNum (event_time b)) as [tb|]; [|destruct Hclash].
      destruct ((Z.abs (ta - tb) <=? 3600) && (0 <? Z.abs (ta - tb))) eqn:E;
        [|destruct Hclash].
      destruct Hclash as [<- | []]. split; [reflexivity|].
      apply andb_true_iff in E as [E1 E2].
      exists ta, tb. repeat split; lia.
  - intros (-> & ta & tb & -> & -> & Hd). right.
    replace ((Z.abs (ta - tb) <=? 3600) && (0 <? Z.abs (ta - tb))) with true.
    + now left.
    + symmetry. apply andb_true_iff. split; lia.
Qed.

End WithBuiltins.

Lemma nodup_map_inj {A B} (f : A -> B) (l : list A) (x y : A) :
  NoDup (map f l) -> In x l -> In y l -> f x = f y -> x = y.
Proof.
  induction l as [|z l IH]; simpl; [tauto|].
  intros Hnd. inversion Hnd as [|? ? Hnotin Hnd']; subst.
  intros [-> | Hx] [-> | Hy] E; auto.
  - exfalso. apply Hnotin. rewrite E. now apply in_map.
  - exfalso. apply Hnotin. rewrite <- E. now apply in_map.
Qed.

Lemma Before_in {A} (a b : A) (l : list A) : Before a b l -> In a l /\ In b l.
Proof.
  intros (l1 & l2 & l3 & ->). split.
  - apply in_or_app. right. now left.
  - apply in_or_app. right. right. apply in_or_app. right. now left.
Qed.

(** In a list without repeated keys the order of two elements is one way
    only. *)
Lemma Before_nodup_same {A B} (f : A -> B) (a b a' b' : A) (l : list A) :
  NoDup (map f l) ->
  In a l -> In b l -> Before a' b' l -> f a' = f a -> f b' = f b ->
  a' = a /\ b' = b.
Proof.
  intros Hnd Ha Hb Hbef Ea Eb.
  destruct (Before_in _ _ _ Hbef) as [Ha' Hb'].
  split; eapply nodup_map_inj; eauto.
Qed.

Section Claims.
Context `{Builtins}.


(** C8.  For two events of the working set, [a] before [b], that both have a
    resolved time (the test of the code: neither [null] nor [0]), in a set
    without repeated identifiers: edge detection yields the [conflicts] edge
    from [a] to [b] exactly when the times differ by more than 0 and at most
    3600 seconds.  So a difference of exactly 3600 gives the edge, and a
    difference of 0 or of 3601 gives none. *)
Theorem conflicts_edge_iff (evs : list CompressibleEvent)
    (a b : CompressibleEvent) (ta tb : Z) :
  Before a b evs ->
  NoDup (map id evs) ->
  truthyNum (event_time a) = Some ta ->
  truthyNum (event_time b) = Some tb ->
  let edge := {| sourceId := id a; targetId := id b; relation := conflicts |} in
  (In edge (detectEventEdges evs) <-> 0 < Z.abs (ta - tb) <= 3600)
  /\ (Z.abs (ta - tb) = 3600 -> In edge (detectEventEdges evs))
  /\ (ta - tb = 0 -> ~ In edge (detectEventEdges evs))
  /\ (Z.abs (ta - tb) = 3601 -> ~ In edge (detectEventEdges evs)).
Proof.
  intros Hbef Hnd Ha Hb edge.
  assert (Hiff : In edge (detectEventEdges evs) <-> 0 < Z.abs (ta - tb) <= 3600).
  { unfold detectEventEdges.
    assert (Hlen : (List.length evs <? 2)%nat = false).
    { destruct Hbef as (l1 & l2 & l3 & ->). apply Nat.ltb_ge.
      rewrite length_app. simpl. rewrite length_app. simpl. lia. }
    rewrite Hlen, in_edgesOfPairs. split.
    - intros (a' & b' & Hbef' & Hin).
      apply pairEdges_conflicts in Hin as (Hedge & ta' & tb' & Ha' & Hb' & Hd);
        [|reflexivity].
      injection Hedge as Eida Eidb.
      destruct (Before_in _ _ _ Hbef) as [Hina Hinb].
      destruct (Before_nodup_same id a b a' b' evs Hnd Hina Hinb Hbef')
        as [-> ->]; [congruence|congruence|].
      rewrite Ha in Ha'. rewrite Hb in Hb'.
      injection Ha' as <-. injection Hb' as <-. exact Hd.
    - intros Hd. exists a, b. split; [exact Hbef|].
      apply pairEdges_conflicts; [reflexivity|].
      split; [reflexivity|]. now exists ta, tb. }
  split; [exact Hiff|]. repeat split.
  - intros E. apply Hiff. lia.
  - intros E Hin. apply Hiff in Hin. lia.
  - intros E Hin. apply Hiff in Hin. lia.
Qed.

End Claims.


(** Two events 3600 seconds apart conflict. *)
Lemma conflicts_edge_iff_witness :
  In {| sourceId := 1; targetId := 2; relation := conflicts |}
     (detectEventEdges (H := Demo.builtins)
        [Demo.eventAt 1 1000000; Demo.eventAt 2 1003600]).
Proof.
  refine (proj1 (proj2 (conflicts_edge_iff (H := Demo.builtins)
            [Demo.eventAt 1 1000000; Demo.eventAt 2 1003600]
            (Demo.eventAt 1 1000000) (Demo.eventAt 2 1003600) 1000000 1003600
            _ _ _ _)) _).
  - exists [], [], []. reflexivity.
  - simpl. repeat constructor; simpl; intuition discriminate.
  - reflexivity.
  - reflexivity.
  - reflexivity.
Defined.

End QuicksaveFacts.

(* ================================================================== *)
(** ** Facts about programs and their runs                             *)
(* ================================================================== *)

Module CollabFacts.
Import Collab.

(** A run of [bind p f] is a run of [p] that returned, followed by a run of
    the continuation, or a run of [p] that threw. *)
Lemma Runs_bind_inv {A B} (p : Prog A) (f : A -> Prog B) (tr : list Step)
    (out : Res B) :
  Runs (bind p f) tr out ->
  (exists tr1 a tr2,
      Runs p tr1 (Ok a) /\ Runs (f a) tr2 out /\ tr = (tr1 ++ tr2)%list)
  \/ (Runs p tr Err /\ out = Err).
Proof.
  revert tr. induction p as [a| |X c k IH|k IH]; intros tr; simpl.
  - intros HR. left. exists [], a, tr. auto.
  - intros [-> ->]. right. auto.
  - intros (r & tr' & -> & HR). destruct (IH r tr' HR)
      as [(tr1 & a & tr2 & H1 & H2 & ->) | [H1 ->]].
    + left. exists (Ev c r :: tr1), a, tr2. repeat split; eauto.
    + right. split; eauto.
  - intros (ms & tr' & -> & HR). destruct (IH ms tr' HR)
      as [(tr1 & a & tr2 & H1 & H2 & ->) | [H1 ->]].
    + left. exists (Tick ms :: tr1), a, tr2. repeat split; eauto.
    + right. split; eauto.
Qed.

Lemma Runs_bind_intro {A B} (p : Prog A) (f : A -> Prog B) (tr1 tr2 : list Step)
    (a : A) (out : Res B) :
  Runs p tr1 (Ok a) -> Runs (f a) tr2 out -> Runs (bind p f) (tr1 ++ tr2) out.
Proof.
  revert tr1. induction p as [a'| |X c k IH|k IH]; intros tr1; simpl.
  - intros [-> [= ->]]. auto.
  - intros [_ [=]].
  - intros (r & tr' & -> & HR) H2. exists r, (tr' ++ tr2)%list. eauto.
  - intros (ms & tr' & -> & HR) H2. exists ms, (tr' ++ tr2)%list. eauto.
Qed.

Lemma Always_Runs {A} (P : Step -> Prop) (p : Prog A) (tr : list Step)
    (out : Res A) :
  Always P p -> Runs p tr out -> Forall P tr.
Proof.
  revert tr. induction p as [a| |X c k IH|k IH]; intros tr; simpl.
  - intros _ [-> _]. constructor.
  - intros _ [-> _]. constructor.
  - intros HA (r & tr' & -> & HR). destruct (HA r). constructor; eauto.
  - intros HA (ms & tr' & -> & HR). destruct (HA ms). constructor; eauto.
Qed.

Lemma Always_bind {A B} (P : Step -> Prop) (p : Prog A) (f : A -> Prog B) :
  Always P p -> (forall a, Always P (f a)) -> Always P (bind p f).
Proof.
  intros HA Hf. induction p as [a| |X c k IH|k IH]; simpl in *; auto.
  - intros r. destruct (HA r). auto.
  - intros ms. destruct (HA ms). auto.
Qed.

Lemma Always_impl {A} (P Q : Step -> Prop) (p : Prog A) :
  (forall s, P s -> Q s) -> Always P p -> Always Q p.
Proof.
  intros HPQ. induction p as [a| |X c k IH|k IH]; simpl; auto.
  - intros HA r. destruct (HA r). auto.
  - intros HA ms. destruct (HA ms). auto.
Qed.

Lemma Always_call {X} (P : Step -> Prop) (c : Call X) :
  (forall r, P (Ev c r)) -> Always P (call c).
Proof. intros HP r. split; [apply HP|]. destruct r; exact I. Qed.

Lemma Always_now (P : Step -> Prop) : (forall ms, P (Tick ms)) -> Always P now.
Proof. intros HP ms. split; [apply HP|exact I]. Qed.

(** A run against given answers, one step at a time. *)
Ltac run_trace :=
  repeat (hnf;
          match goal with
          | |- exists _, _ => eexists
          | |- _ /\ _ => split
          | |- _ = _ => reflexivity
          end).

End CollabFacts.

(* ================================================================== *)
(** ** Facts about the context matcher                                 *)
(* ================================================================== *)

Module MatcherFacts.
Import Collab CollabFacts Matcher.

Section Claims.
Context `{Builtins}.

Lemma cascade_no_validation (kws : list string) (days : Z) (c : list Event.t) :
  Always (fun s => validationOf s = None) (locationCascade kws days c).
Proof.
  revert c. induction kws as [|kw rest IH]; intros c; simpl; [exact I|].
  intros r. split; [reflexivity|].
  destruct r as [found|]; simpl; [|exact I].
  destruct found; [apply IH|exact I].
Qed.

(** The claim for the part of [matchContext] that follows the extraction of
    the keywords. *)
Lemma matchKeywords_empty_relevant (url : string) (title : option string)
    (days : Z) (kws : list string) (tr : list Step)
    (out : Res ContextCheckResponse) :
  Runs (matchKeywords url title days kws) tr out ->
  forall s v,
    In s tr -> validationOf s = Some v -> Validation.relevant v = [] ->
    out = Ok (noMatch (Validation.confidence v))
    /\ exists candidates, validatedCandidates s = Some candidates /\ candidates <> [].
Proof.
  unfold matchKeywords. intros HR s v Hin Hv Hrel.
  apply Runs_bind_inv in HR as [(tr1 & located & tr2 & H1 & H2 & ->) | [H1 ->]];
    apply (Always_Runs _ _ _ _ (cascade_no_validation _ _ _)) in H1;
    rewrite Forall_forall in H1.
  2:{ rewrite (H1 s Hin) in Hv. discriminate. }
  apply in_app_or in Hin as [Hin | Hin]; [rewrite (H1 s Hin) in Hv; discriminate|].
  clear H1.
  assert (Hrest : forall candidates tr' ,
    Runs (match candidates with
          | [] => Ret (noMatch 0%float)
          | _ => (validation <- call (validateRelevance url (orElse title EmptyString) candidates) ;;
                 match Validation.relevant validation with
                 | [] => Ret (noMatch (Validation.confidence validation))
                 | relevant =>
                   Ret {| matched := true;
                          events := definedOnly (map (candidateAt candidates) relevant);
                          confidence := Validation.confidence validation |}
                 end)%prog
          end) tr' out ->
    In s tr' ->
    out = Ok (noMatch (Validation.confidence v))
    /\ exists candidates, validatedCandidates s = Some candidates /\ candidates <> []).
  { intros candidates tr' HR Hs.
    destruct candidates as [|c0 cs]; simpl in HR.
    - destruct HR as [-> _]. destruct Hs.
    - destruct HR as (r & tr'' & -> & HR).
      destruct r as [validation|]; simpl in HR.
      + destruct (Validation.relevant validation) as [|i more] eqn:Erel;
          simpl in HR; destruct HR as [-> ->];
          destruct Hs as [<- | []]; simpl in Hv; injection Hv as <-.
        * split; [reflexivity|]. exists (c0 :: cs). split; [reflexivity|discriminate].
        * congruence.
      + destruct HR as [-> ->]. destruct Hs as [<- | []]. discriminate. }
  destruct located as [|l0 ls].
  - simpl in H2. destruct H2 as (r & tr' & -> & HR).
    destruct r as [candidates|]; cbn [bind] in HR.
    + destruct Hin as [<- | Hin]; [discriminate|]. exact (Hrest candidates tr' HR Hin).
    + destruct HR as [-> ->]. destruct Hin as [<- | []]. discriminate.
  - cbn [bind] in H2. exact (Hrest (l0 :: ls) tr2 H2 Hin).
Qed.

(** C9.  In every run of the context matcher: when the relevance validation
    was called (its candidate list is then non-empty) and answered with an
    empty list of relevant indices, the matcher returns [matched = false], no
    events, and the confidence that the validation returned. *)
Theorem empty_relevant_forwards_confidence (url : string) (title : option string)
    (days : Z) (tr : list Step) (out : Res ContextCheckResponse) :
  Runs (matchContext url title days) tr out ->
  forall s v,
    In s tr -> validationOf s = Some v -> Validation.relevant v = [] ->
    out = Ok {| matched := false; events := [];
                confidence := Validation.confidence v |}
    /\ exists candidates, validatedCandidates s = Some candidates /\ candidates <> [].
Proof.
  unfold matchContext. intros HR s v Hin Hv Hrel.
  destruct (extractContextFromUrl url title) as [ctx|]; cbn [bind orThrow Runs] in HR;
    [|destruct HR as [-> _]; destruct Hin].
  destruct (ctxKeywords ctx) as [|kw kws]; cbn [Runs] in HR;
    [destruct HR as [-> _]; destruct Hin|].
  eapply matchKeywords_empty_relevant; eauto.
Qed.
End Claims.

(** The context check of [Demo.netflixUrl] whose validation keeps nothing. *)
Lemma empty_relevant_forwards_confidence_witness :
  Runs (matchContext (H := Demo.builtins) Demo.netflixUrl None 90)
       Demo.matchSteps (Ok (noMatch 0.3%float))
  /\ Ok (noMatch 0.3%float)
     = Ok {| matched := false; events := [];
             confidence := Validation.confidence Demo.nothingRelevant |}.
Proof.
  assert (HR : Runs (matchContext (H := Demo.builtins) Demo.netflixUrl None 90)
                    Demo.matchSteps (Ok (noMatch 0.3%float))).
  { run_trace. }
  split; [exact HR|].
  refine (proj1 (empty_relevant_forwards_confidence (H := Demo.builtins)
            Demo.netflixUrl None 90 Demo.matchSteps _ HR
            (Ev (validateRelevance Demo.netflixUrl EmptyString [Demo.netflixEvent])
                (Ok Demo.nothingRelevant))
            Demo.nothingRelevant _ _ _)).
  - right. left. reflexivity.
  - reflexivity.
  - reflexivity.
Defined.

End MatcherFacts.

(* ================================================================== *)
(** ** Facts about ingestion                                           *)
(* ================================================================== *)

Module IngestionFacts.
Import Collab CollabFacts Ingestion.

(** The loop adds whole weeks, and with enough rounds it ends by its own
    test. *)
Lemma whileBefore_spec (fuel : nat) (t nowUnix : Z) :
  nowUnix - t <= Z.of_nat fuel * weekSec ->
  exists n, 0 <= n
            /\ whileBefore fuel t nowUnix = t + n * weekSec
            /\ nowUnix <= t + n * weekSec
            /\ (0 < n -> t + (n - 1) * weekSec < nowUnix).
Proof.
  revert t. induction fuel as [|fuel IH]; intros t Hfuel.
  - exists 0. simpl in *. repeat split; lia.
  - simpl. destruct (Z.ltb_spec t nowUnix) as [Hlt | Hge].
    + destruct (IH (t + weekSec)) as (n & Hn & E & Hle & Hmin).
      { unfold weekSec in *. lia. }
      exists (n + 1). rewrite E. repeat split; try lia.
      intros _. destruct (Z.eq_dec n 0) as [-> | Hn0]; [lia|].
      assert (Hm := Hmin ltac:(lia)). lia.
    + exists 0. repeat split; lia.
Qed.

Lemma rounds_suffice (t nowUnix : Z) :
  t < nowUnix -> nowUnix - t <= Z.of_nat (rounds t nowUnix) * weekSec.
Proof.
  intros Hlt. unfold rounds, weekSec.
  assert (Hq : 0 <= (nowUnix - t) / (7 * 24 * 3600)) by (apply Z.div_pos; lia).
  rewrite Z2Nat.id by lia.
  pose proof (Z.mod_pos_bound (nowUnix - t) (7 * 24 * 3600) ltac:(lia)).
  pose proof (Z.div_mod (nowUnix - t) (7 * 24 * 3600) ltac:(lia)).
  lia.
Qed.

(** What the past-date guard computes. *)
Lemma pushPastForward_spec (t nowUnix : Z) :
  (t < nowUnix - 3600 ->
   exists n, 0 < n
             /\ pushPastForward t nowUnix = t + n * weekSec
             /\ nowUnix <= pushPastForward t nowUnix
             /\ pushPastForward t nowUnix - weekSec < nowUnix)
  /\ (nowUnix - 3600 <= t -> pushPastForward t nowUnix = t).
Proof.
  unfold pushPastForward. split; intros Hcmp.
  - replace (t <? nowUnix - 3600) with true by (symmetry; apply Z.ltb_lt; lia).
    destruct (whileBefore_spec (rounds t nowUnix) t nowUnix) as (n & Hn & E & Hle & Hmin).
    { apply rounds_suffice. lia. }
    exists n. rewrite E.
    assert (0 < n) by (unfold weekSec in *; lia).
    specialize (Hmin ltac:(lia)). repeat split; lia.
  - replace (t <? nowUnix - 3600) with false by (symmetry; apply Z.ltb_ge; lia).
    reflexivity.
Qed.

Lemma AlwaysB_ret {A} (P : Step -> Prop) (a : A) : AlwaysB P (retB a).
Proof. intros acc. exact I. Qed.

Lemma AlwaysB_bind {A B} (P : Step -> Prop) (m : Body A) (f : A -> Body B) :
  AlwaysB P m -> (forall a, AlwaysB P (f a)) -> AlwaysB P (bindB m f).
Proof.
  intros Hm Hf acc. unfold bindB. apply Always_bind; [apply Hm|].
  intros [[a|] acc']; simpl; [apply Hf|exact I].
Qed.

Lemma AlwaysB_call {X} (P : Step -> Prop) (c : Call X) :
  (forall r, P (Ev c r)) -> AlwaysB P (callB c).
Proof. intros HP acc r. split; [apply HP|exact I]. Qed.

Lemma AlwaysB_now (P : Step -> Prop) : (forall ms, P (Tick ms)) -> AlwaysB P nowB.
Proof. intros HP acc ms. split; [apply HP|exact I]. Qed.

Lemma AlwaysB_update (P : Step -> Prop) (f : Locals -> Locals) : AlwaysB P (update f).
Proof. intros acc. exact I. Qed.

Lemma AlwaysB_forEach {A} (P : Step -> Prop) (l : list A) (body : A -> Body unit) :
  (forall x, AlwaysB P (body x)) -> AlwaysB P (forEach l body).
Proof.
  intros Hb. induction l as [|x rest IH]; simpl.
  - apply AlwaysB_ret.
  - apply AlwaysB_bind; auto.
Qed.

Create HintDb always discriminated.
#[export] Hint Resolve AlwaysB_ret AlwaysB_update : always.
#[export] Hint Constructors ExtractionStep : always.

(** One step of the proof that a statement makes only allowed steps. *)
Ltac always_step :=
  match goal with
  | |- AlwaysB _ (bindB _ _) => apply AlwaysB_bind; [|intros ?]
  | |- AlwaysB _ (retB _) => apply AlwaysB_ret
  | |- AlwaysB _ (update _) => apply AlwaysB_update
  | |- AlwaysB _ (callB _) => apply AlwaysB_call; intros ?; auto with always
  | |- AlwaysB _ nowB => apply AlwaysB_now; intros ?; auto with always
  | |- AlwaysB _ (forEach _ _) => apply AlwaysB_forEach; intros ?
  | |- AlwaysB _ (match ?x with _ => _ end) => destruct x
  | |- AlwaysB _ (if ?b then _ else _) => destruct b
  | |- AlwaysB _ (let '(_, _) := ?p in _) => destruct p
  end.

Section ExtractionSteps.
Context `{Builtins}.
Variables (message : Message.t) (senderName : option string).
Local Abbreviation P := (ExtractionStep message senderName).

Lemma updateTime_steps (t : option string) : AlwaysB P (updateTime t).
Proof. unfold updateTime. repeat always_step. Qed.

Lemma createTime_steps (t : option string) : AlwaysB P (createTime t).
Proof. unfold createTime. repeat always_step. Qed.

Lemma addTrigger_steps i ty v : AlwaysB P (addTrigger i ty v).
Proof. unfold addTrigger. repeat always_step. Qed.

Lemma applyUpdate_steps existing action target event :
  AlwaysB P (applyUpdate senderName existing action target event).
Proof.
  unfold applyUpdate, updateFieldsOf.
  repeat first [apply updateTime_steps | always_step].
Qed.

Lemma createEvent_steps event : AlwaysB P (createEvent message senderName event).
Proof.
  unfold createEvent, noteConflicts, timeTriggers, locationTrigger, keywordTriggers.
  repeat first [apply createTime_steps | apply addTrigger_steps | always_step].
Qed.

Lemma processCandidate_steps existing event :
  AlwaysB P (processCandidate message senderName existing event).
Proof.
  unfold processCandidate.
  repeat first [apply applyUpdate_steps | apply createEvent_steps | always_step].
Qed.

Lemma processMessageBody_steps context existing :
  AlwaysB P (processMessageBody message context senderName existing).
Proof.
  unfold processMessageBody.
  repeat first [apply processCandidate_steps | always_step].
Qed.

Lemma processMessage_steps context existing :
  Always P (processMessage message context senderName existing).
Proof.
  unfold processMessage. apply Always_bind; [|intros ?; exact I].
  apply processMessageBody_steps.
Qed.

End ExtractionSteps.

Lemma eventsIn_cons (s : Step) (tr : list Step) :
  eventsIn (s :: tr) = (if countsEvent s then 1 else 0) + eventsIn tr.
Proof. unfold eventsIn. simpl. destruct (countsEvent s); simpl List.length; lia. Qed.

Lemma triggersIn_cons (s : Step) (tr : list Step) :
  triggersIn (s :: tr) = (if countsTrigger s then 1 else 0) + triggersIn tr.
Proof. unfold triggersIn. simpl. destruct (countsTrigger s); simpl List.length; lia. Qed.

Lemma eventsIn_app (tr1 tr2 : list Step) :
  eventsIn (tr1 ++ tr2) = eventsIn tr1 + eventsIn tr2.
Proof. unfold eventsIn. rewrite filter_app, length_app. lia. Qed.

Lemma triggersIn_app (tr1 tr2 : list Step) :
  triggersIn (tr1 ++ tr2) = triggersIn tr1 + triggersIn tr2.
Proof. unfold triggersIn. rewrite filter_app, length_app. lia. Qed.

Lemma EndsInFailure_app (tr1 tr2 : list Step) :
  Forall (fun s => stepFailed s = false) tr1 ->
  EndsInFailure tr2 -> EndsInFailure (tr1 ++ tr2).
Proof.
  intros H1 (before & last & -> & Hl & Hb).
  exists (tr1 ++ before)%list, last. rewrite app_assoc. repeat split; auto.
  apply Forall_app. auto.
Qed.

Lemma EndsInFailure_cons (s : Step) (tr : list Step) :
  stepFailed s = false -> EndsInFailure tr -> EndsInFailure (s :: tr).
Proof.
  intros Hs He. apply (EndsInFailure_app [s] tr); [constructor; auto|exact He].
Qed.

Lemma EndsInFailure_one (s : Step) : stepFailed s = true -> EndsInFailure [s].
Proof. intros Hs. exists [], s. repeat split; auto. Qed.

Ltac count_simpl :=
  cbn [countsEvent countsTrigger isOk stepFailed negb
       eventsCreated triggersCreated countEvent countTrigger pushCreated] in *.

Lemma Accounted_ret {A} (a : A) : Accounted (retB a).
Proof.
  intros acc tr out [-> ->]. exists (Ok a), acc.
  repeat split; try (unfold eventsIn, triggersIn; simpl; lia). constructor.
Qed.

Lemma Accounted_update (f : Locals -> Locals) :
  (forall acc, eventsCreated (f acc) = eventsCreated acc
               /\ triggersCreated (f acc) = triggersCreated acc) ->
  Accounted (update f).
Proof.
  intros Hf acc tr out [-> ->]. exists (Ok tt), (f acc). destruct (Hf acc) as [-> ->].
  repeat split; try (unfold eventsIn, triggersIn; simpl; lia). constructor.
Qed.

Lemma Accounted_bind {A B} (m : Body A) (f : A -> Body B) :
  Accounted m -> (forall a, Accounted (f a)) -> Accounted (bindB m f).
Proof.
  intros Hm Hf acc tr out HR. unfold bindB in HR.
  apply Runs_bind_inv in HR as [(tr1 & [r1 acc1] & tr2 & H1 & H2 & ->) | [H1 ->]].
  - destruct (Hm _ _ _ H1) as (r & acc' & E & He & Ht & Hshape).
    injection E as <- <-.
    destruct r1 as [a|]; simpl in H2.
    + destruct (Hf a _ _ _ H2) as (r2 & acc2 & -> & He2 & Ht2 & Hshape2).
      exists r2, acc2. rewrite eventsIn_app, triggersIn_app.
      repeat split; try lia.
      destruct r2; [apply Forall_app; auto|apply EndsInFailure_app; auto].
    + destruct H2 as [-> ->]. exists Err, acc1. rewrite app_nil_r. auto.
  - destruct (Hm _ _ _ H1) as (r & acc' & E & _). discriminate.
Qed.

(** A call that creates neither an event nor a trigger. *)
Lemma Accounted_call {X} (c : Call X) :
  (forall r, countsEvent (Ev c r) = false /\ countsTrigger (Ev c r) = false) ->
  Accounted (callB c).
Proof.
  intros Hc acc tr out (r & tr' & -> & [-> ->]). exists r, acc.
  rewrite eventsIn_cons, triggersIn_cons. destruct (Hc r) as [-> ->].
  repeat split; try (unfold eventsIn, triggersIn; simpl; lia).
  destruct r; [repeat constructor|now apply EndsInFailure_one].
Qed.

Lemma Accounted_now : Accounted nowB.
Proof.
  intros acc tr out (ms & tr' & -> & [-> ->]). exists (Ok ms), acc.
  repeat split; try (unfold eventsIn, triggersIn; simpl; lia). repeat constructor.
Qed.

Lemma Accounted_forEach {A} (l : list A) (body : A -> Body unit) :
  (forall x, Accounted (body x)) -> Accounted (forEach l body).
Proof.
  intros Hb. induction l as [|x rest IH]; simpl.
  - apply Accounted_ret.
  - apply Accounted_bind; auto.
Qed.

(** [const eventId = insertEvent(eventData); eventsCreated++; ...] *)
Lemma Accounted_insertEvent {B} (d : Event.t) (rest : Z -> Body B) :
  (forall i, Accounted (rest i)) ->
  Accounted (bindB (callB (insertEvent d))
                   (fun i => bindB (update countEvent) (fun _ => rest i))).
Proof.
  intros Hrest acc tr out (r & tr' & -> & HR).
  rewrite eventsIn_cons, triggersIn_cons.
  destruct r as [i|]; simpl in HR.
  - destruct (Hrest i _ _ _ HR) as (r & acc' & -> & He & Ht & Hshape).
    exists r, acc'. count_simpl. repeat split; try lia.
    destruct r; [constructor; auto|apply EndsInFailure_cons; auto].
  - destruct HR as [-> ->]. exists Err, acc. count_simpl.
    repeat split; try (unfold eventsIn, triggersIn; simpl; lia).
    now apply EndsInFailure_one.
Qed.

(** [const updated = updateEvent(...); if (updated) { ...; eventsCreated++ }] *)
Lemma Accounted_updateEvent (i : Z) (fields : UpdateFields.t) (e : CreatedEvent.t) :
  Accounted (bindB (callB (updateEvent i fields))
                   (fun updated : bool =>
                      if updated
                      then bindB (update (pushCreated e)) (fun _ => update countEvent)
                      else retB tt)).
Proof.
  intros acc tr out (r & tr' & -> & HR).
  rewrite eventsIn_cons, triggersIn_cons.
  destruct r as [[|]|]; simpl in HR; destruct HR as [-> ->]; count_simpl.
  - exists (Ok tt), (countEvent (pushCreated e acc)). count_simpl.
    repeat split; try (unfold eventsIn, triggersIn; simpl; lia). repeat constructor.
  - exists (Ok tt), acc.
    repeat split; try (unfold eventsIn, triggersIn; simpl; lia). repeat constructor.
  - exists Err, acc.
    repeat split; try (unfold eventsIn, triggersIn; simpl; lia).
    now apply EndsInFailure_one.
Qed.

(** [insertTrigger({...}); triggersCreated++] *)
Lemma Accounted_addTrigger `{Builtins} (i : Z) (type : TriggerType) (value : string) :
  Accounted (addTrigger i type value).
Proof.
  intros acc tr out (r & tr' & -> & HR).
  rewrite eventsIn_cons, triggersIn_cons.
  destruct r as [[]|]; simpl in HR; destruct HR as [-> ->]; count_simpl.
  - exists (Ok tt), (countTrigger acc). count_simpl.
    repeat split; try (unfold eventsIn, triggersIn; simpl; lia). repeat constructor.
  - exists Err, acc.
    repeat split; try (unfold eventsIn, triggersIn; simpl; lia).
    now apply EndsInFailure_one.
Qed.

Ltac accounted_step :=
  match goal with
  | |- Accounted (bindB (callB (insertEvent _)) _) =>
      apply Accounted_insertEvent; intros ?
  | |- Accounted (bindB (callB (updateEvent _ _)) _) => apply Accounted_updateEvent
  | |- Accounted (addTrigger _ _ _) => apply Accounted_addTrigger
  | |- Accounted (bindB _ _) => apply Accounted_bind; [|intros ?]
  | |- Accounted (retB _) => apply Accounted_ret
  | |- Accounted (update _) => apply Accounted_update; intros ?; split; reflexivity
  | |- Accounted (callB _) => apply Accounted_call; intros ?; split; reflexivity
  | |- Accounted nowB => apply Accounted_now
  | |- Accounted (forEach _ _) => apply Accounted_forEach; intros ?
  | |- Accounted (match ?x with _ => _ end) => destruct x
  | |- Accounted (if ?b then _ else _) => destruct b
  end.

Section ExtractionCounts.
Context `{Builtins}.

Lemma updateTime_accounted (t : option string) : Accounted (updateTime t).
Proof. unfold updateTime. repeat accounted_step. Qed.

Lemma createTime_accounted (t : option string) : Accounted (createTime t).
Proof. unfold createTime. repeat accounted_step. Qed.

Lemma applyUpdate_accounted senderName existing action target event :
  Accounted (applyUpdate senderName existing action target event).
Proof.
  unfold applyUpdate, updateFieldsOf.
  repeat first [apply updateTime_accounted | accounted_step].
Qed.

Lemma createEvent_accounted message senderName event :
  Accounted (createEvent message senderName event).
Proof.
  unfold createEvent, noteConflicts, timeTriggers, locationTrigger, keywordTriggers.
  repeat first [apply createTime_accounted | accounted_step].
Qed.

Lemma processCandidate_accounted message senderName existing event :
  Accounted (processCandidate message senderName existing event).
Proof.
  unfold processCandidate.
  repeat first [apply applyUpdate_accounted | apply createEvent_accounted
               | accounted_step].
Qed.

Lemma processMessageBody_accounted message context senderName existing :
  Accounted (processMessageBody message context senderName existing).
Proof.
  unfold processMessageBody.
  repeat first [apply processCandidate_accounted | accounted_step].
Qed.

End ExtractionCounts.

Ltac prog_step :=
  match goal with
  | |- Always _ (bind _ _) => apply Always_bind; [|intros ?]
  | |- Always _ (call _) => apply Always_call; intros ?
  | |- Always _ now => apply Always_now; intros ?
  | |- Always _ (Ret _) => exact I
  | |- Always _ Throw => exact I
  | |- Always _ (match ?x with _ => _ end) => destruct x
  | |- Always _ (if ?b then _ else _) => destruct b
  end.

Section Claims.
Context `{Builtins}.

Lemma extraction_step_no_action (message : Message.t) (senderName : option string)
    (s : Step) :
  ExtractionStep message senderName s -> stepIsActionMutation s = false.
Proof. intros Hs. destruct Hs; reflexivity. Qed.

Lemma extraction_step_insert (message : Message.t) (senderName : option string)
    (s : Step) (d : Event.t) :
  ExtractionStep message senderName s -> insertedEvent s = Some d ->
  exists event eventTime, d = eventDataOf message senderName event eventTime.
Proof.
  intros Hs. destruct Hs; simpl; intros E; try discriminate.
  injection E as <-. eauto.
Qed.

(** The result of an extraction carries neither an action nor a pending
    confirmation, and no step of it is a mutation of the action handlers. *)
Lemma processMessage_result (message : Message.t) (context : list string)
    (senderName : option string) (existing : list Event.t)
    (tr : list Step) (out : Res IngestionResult.t) :
  Runs (processMessage message context senderName existing) tr out ->
  Forall (fun s => stepIsActionMutation s = false) tr
  /\ exists acc, out = Ok (resultOf message acc).
Proof.
  intros HR. split.
  - eapply Forall_impl; [|eapply Always_Runs; [apply processMessage_steps|exact HR]].
    intros s. apply extraction_step_no_action.
  - unfold processMessage in HR.
    apply Runs_bind_inv in HR as [(tr1 & [r acc] & tr2 & H1 & [-> ->] & ->) | [H1 ->]].
    + exists acc. reflexivity.
    + destruct (processMessageBody_accounted _ _ _ _ _ _ _ H1) as (r & acc & E & _).
      discriminate.
Qed.

Lemma isRealAction_iff (a : Detected.t) :
  isRealAction a = true <->
  Detected.isAction a = true
  /\ (0.6 <=? Detected.confidence a)%float = true
  /\ Detected.action a <> "none".
Proof.
  unfold isRealAction. rewrite !andb_true_iff, negb_true_iff, String.eqb_neq. tauto.
Qed.

(** After [detectAction] has answered, [processWebhook] neither calls it
    again nor reads the active events again. *)
Lemma routeAction_asks_once (message : Message.t) (context : list string)
    (senderName : option string) (activeEvents : list Event.t) (a : Detected.t) :
  Always (fun s => detectedAction s = None /\ activeFound s = None)
         (routeAction message context senderName activeEvents a).
Proof.
  unfold routeAction, findTarget, performAction, proposeChanges, proposedTime.
  cbv zeta.
  repeat first [ (split; reflexivity)
               | match goal with
                 | |- Always _ (processMessage _ _ _ _) =>
                     eapply Always_impl; [|apply processMessage_steps];
                     intros s Hs; destruct Hs; split; reflexivity
                 end
               | prog_step ].
Qed.

(** A run of [processWebhook] in which [detectAction] answered: the message
    has a text and passed the filters, the five calls of the intake succeeded,
    and the rest of the run is a run of [routeAction] on that answer, for the
    message, the context and the active events of the intake. *)
Lemma processWebhook_routes (data : Webhook.t) (options : Options)
    (tr : list Step) (out : Res IngestionResult.t) (s : Step) (a : Detected.t) :
  Runs (processWebhook data options) tr out ->
  In s tr -> detectedAction s = Some a ->
  exists content recentMessages activeEvents rest,
    contentOf data = Some content
    /\ passesFilters data options = true
    /\ shouldSkipMessage content = false
    /\ tr = (intakeSteps data content recentMessages activeEvents a ++ rest)%list
    /\ Runs (routeAction (messageOf data content)
               (contextOf (messageOf data content) recentMessages)
               (truthyStr (Webhook.pushName data)) activeEvents a) rest out.
Proof.
  unfold processWebhook, passesFilters, contentOf. cbv zeta.
  destruct (truthyStr _) as [content|]; [|intros [-> _] []].
  destruct (_ && _); [intros [-> _] []|].
  destruct (_ && _); [intros [-> _] []|].
  cbn [bind call Runs].
  intros (r1 & tr1 & -> & HR) Hin Hs.
  destruct r1 as [[]|];
    [|destruct HR as [-> _]; destruct Hin as [<- | []]; discriminate].
  cbn [bind Runs] in HR. destruct HR as (r2 & tr2 & -> & HR).
  destruct r2 as [[]|];
    [|destruct HR as [-> _]; destruct Hin as [<- | [<- | []]]; discriminate].
  cbn [bind Runs] in HR.
  destruct (shouldSkipMessage content) eqn:Hskip;
    [destruct HR as [-> _]; destruct Hin as [<- | [<- | []]]; discriminate|].
  cbn [bind call Runs] in HR. destruct HR as (r3 & tr3 & -> & HR).
  destruct r3 as [recentMessages|];
    [|destruct HR as [-> _]; destruct Hin as [<- | [<- | [<- | []]]]; discriminate].
  cbn [bind Runs] in HR. destruct HR as (r4 & tr4 & -> & HR).
  destruct r4 as [activeEvents|];
    [|destruct HR as [-> _];
      destruct Hin as [<- | [<- | [<- | [<- | []]]]]; discriminate].
  cbn [bind Runs] in HR. destruct HR as (r5 & tr5 & -> & HR).
  destruct r5 as [actionResult|];
    [|destruct HR as [-> _];
      destruct Hin as [<- | [<- | [<- | [<- | [<- | []]]]]]; discriminate].
  cbn [bind Runs] in HR.
  assert (a = actionResult) as ->.
  { destruct Hin as [<- | [<- | [<- | [<- | [<- | Hin]]]]]; try discriminate.
    - simpl in Hs. congruence.
    - pose proof (Always_Runs _ _ _ _ (routeAction_asks_once _ _ _ _ _) HR) as Hall.
      rewrite Forall_forall in Hall. destruct (Hall s Hin) as [E _]. congruence. }
  exists content, recentMessages, activeEvents, tr5.
  repeat split; assumption.
Qed.

(** The runs of [processWebhook] that reach the routing: for a message with a
    text that passes the filters, the intake followed by any run of
    [routeAction]. *)
Lemma processWebhook_reaches (data : Webhook.t) (options : Options)
    (content : string) (recentMessages : list Message.t)
    (activeEvents : list Event.t) (a : Detected.t)
    (rest : list Step) (out : Res IngestionResult.t) :
  contentOf data = Some content ->
  passesFilters data options = true ->
  shouldSkipMessage content = false ->
  Runs (routeAction (messageOf data content)
          (contextOf (messageOf data content) recentMessages)
          (truthyStr (Webhook.pushName data)) activeEvents a) rest out ->
  Runs (processWebhook data options)
       (intakeSteps data content recentMessages activeEvents a ++ rest) out.
Proof.
  unfold processWebhook, passesFilters, contentOf. cbv zeta.
  intros -> Hfilters Hskip HR.
  apply andb_true_iff in Hfilters as [Hown Hgroup].
  apply negb_true_iff in Hown, Hgroup. rewrite Hown, Hgroup.
  cbn [bind call Runs intakeSteps app].
  eexists. eexists. split; [reflexivity|]. cbn [bind Runs].
  eexists. eexists. split; [reflexivity|]. cbn [bind Runs]. rewrite Hskip.
  cbn [bind call Runs].
  eexists. eexists. split; [reflexivity|]. cbn [bind Runs].
  eexists. eexists. split; [reflexivity|]. cbn [bind Runs].
  eexists. eexists. split; [reflexivity|]. cbn [bind Runs].
  exact HR.
Qed.

(** C1.  The answer of [detectAction] is what [processWebhook] routes: a run
    in which the model answered is the intake followed by a run of
    [routeAction] on that answer.  The answer is routed to the action handlers
    only if [isAction] is true, the confidence is at least 0.6 and the action
    is not [none]; otherwise the rest of the run is exactly a run of the
    extraction [processMessage] of the same message, no step of the run is a
    mutation of the action handlers and the result carries no action.  A
    [cancel] with [isAction = true] and confidence 0.59 is such a case; with
    confidence 0.60 the target is looked up and, once it is resolved,
    [deleteEvent] is called on it and the result reports the deletion. *)
Theorem real_action_threshold (message : Message.t) (context : list string)
    (senderName : option string) (activeEvents : list Event.t) :
  let extraction := processMessage message context senderName activeEvents in
  (forall a, isRealAction a = true <->
             Detected.isAction a = true
             /\ (0.6 <=? Detected.confidence a)%float = true
             /\ Detected.action a <> "none")
  /\ (forall a, isRealAction a = false ->
        routeAction message context senderName activeEvents a = extraction)
  /\ (forall a tr out, isRealAction a = false ->
        Runs (routeAction message context senderName activeEvents a) tr out ->
        Forall (fun s => stepIsActionMutation s = false) tr
        /\ exists r, out = Ok r
                     /\ IngestionResult.actionPerformed r = None
                     /\ IngestionResult.pendingAction r = None)
  /\ (forall a, isRealAction (cancelWith 0.59 a) = false
        /\ routeAction message context senderName activeEvents (cancelWith 0.59 a)
           = extraction)
  /\ (forall a, isRealAction (cancelWith 0.6 a) = true
        /\ routeAction message context senderName activeEvents (cancelWith 0.6 a)
           = (targetEvent <- findTarget (cancelWith 0.6 a) activeEvents ;;
              match targetEvent with
              | Some target =>
                  match truthyNum (Event.id target) with
                  | Some eventId =>
                      call (deleteEvent eventId) ;;
                      Ret (performedResult (Message.id message)
                             {| ActionResult.action := "cancel";
                                ActionResult.targetEventId := eventId;
                                ActionResult.targetEventTitle := Event.title target;
                                ActionResult.message :=
                                  "Deleted: " ++ quoted (Event.title target) |})
                  | None => extraction
                  end
              | None => extraction
              end)%prog)
  /\ (forall a target rest eventId,
        Detected.targetKeywords a = [] ->
        truthyNum (Event.id target) = Some eventId ->
        Runs (routeAction message context senderName (target :: rest)
                (cancelWith 0.6 a))
             [Ev (deleteEvent eventId) (Ok tt)]
             (Ok (performedResult (Message.id message)
                    {| ActionResult.action := "cancel";
                       ActionResult.targetEventId := eventId;
                       ActionResult.targetEventTitle := Event.title target;
                       ActionResult.message :=
                         "Deleted: " ++ quoted (Event.title target) |})))
  /\ (forall data options tr out s a,
        Runs (processWebhook data options) tr out ->
        In s tr -> detectedAction s = Some a ->
        exists content recentMessages active rest,
          let stored := messageOf data content in
          let recent := contextOf stored recentMessages in
          let sender := truthyStr (Webhook.pushName data) in
          contentOf data = Some content
          /\ tr = (intakeSteps data content recentMessages active a ++ rest)%list
          /\ Runs (routeAction stored recent sender active a) rest out
          /\ (isRealAction a = false ->
                Runs (processMessage stored recent sender active) rest out
                /\ Forall (fun x => stepIsActionMutation x = false) tr
                /\ exists r, out = Ok r
                             /\ IngestionResult.actionPerformed r = None
                             /\ IngestionResult.pendingAction r = None)
          /\ (isRealAction a = true -> Detected.action a = "cancel" ->
                Detected.targetKeywords a = [] ->
                forall target more eventId,
                  active = target :: more ->
                  truthyNum (Event.id target) = Some eventId ->
                  exists r, rest = [Ev (deleteEvent eventId) r]))
  /\ (forall data options content recentMessages active a rest out,
        contentOf data = Some content ->
        passesFilters data options = true ->
        shouldSkipMessage content = false ->
        Runs (routeAction (messageOf data content)
                (contextOf (messageOf data content) recentMessages)
                (truthyStr (Webhook.pushName data)) active a) rest out ->
        Runs (processWebhook data options)
             (intakeSteps data content recentMessages active a ++ rest) out)
  /\ (forall data options content recentMessages active a rest out,
        contentOf data = Some content ->
        passesFilters data options = true ->
        shouldSkipMessage content = false ->
        Runs (processMessage (messageOf data content)
                (contextOf (messageOf data content) recentMessages)
                (truthyStr (Webhook.pushName data)) active) rest out ->
        Runs (processWebhook data options)
             (intakeSteps data content recentMessages active (cancelWith 0.59 a)
              ++ rest) out
        /\ Forall (fun x => stepIsActionMutation x = false)
             (intakeSteps data content recentMessages active (cancelWith 0.59 a)
              ++ rest))
  /\ (forall data options content recentMessages a target more eventId,
        contentOf data = Some content ->
        passesFilters data options = true ->
        shouldSkipMessage content = false ->
        Detected.targetKeywords a = [] ->
        truthyNum (Event.id target) = Some eventId ->
        Runs (processWebhook data options)
             (intakeSteps data content recentMessages (target :: more)
                (cancelWith 0.6 a)
              ++ [Ev (deleteEvent eventId) (Ok tt)])
             (Ok (performedResult (Webhook.id data)
                    {| ActionResult.action := "cancel";
                       ActionResult.targetEventId := eventId;
                       ActionResult.targetEventTitle := Event.title target;
                       ActionResult.message :=
                         "Deleted: " ++ quoted (Event.title target) |}))).
Proof.
  assert (Hdelete : forall m c sn a target rest eventId,
    Detected.targetKeywords a = [] ->
    truthyNum (Event.id target) = Some eventId ->
    Runs (routeAction m c sn (target :: rest) (cancelWith 0.6 a))
         [Ev (deleteEvent eventId) (Ok tt)]
         (Ok (performedResult (Message.id m)
                {| ActionResult.action := "cancel";
                   ActionResult.targetEventId := eventId;
                   ActionResult.targetEventTitle := Event.title target;
                   ActionResult.message :=
                     "Deleted: " ++ quoted (Event.title target) |}))).
  { intros m c sn a target rest eventId Hk Hid.
    unfold routeAction, findTarget.
    change (isRealAction (cancelWith 0.6 a)) with true.
    change (Detected.targetKeywords (cancelWith 0.6 a)) with (Detected.targetKeywords a).
    rewrite Hk. cbn [bind optOr hd_error]. rewrite Hid.
    cbn. exists (Ok tt), []. split; [reflexivity|]. split; reflexivity. }
  intros extraction. repeat apply conj.
  - apply isRealAction_iff.
  - intros a Ha. unfold routeAction. now rewrite Ha.
  - intros a tr out Ha HR. unfold routeAction in HR. rewrite Ha in HR.
    destruct (processMessage_result _ _ _ _ _ _ HR) as [Hsteps [acc ->]].
    split; [exact Hsteps|]. eexists. split; [reflexivity|]. split; reflexivity.
  - intros a. split; reflexivity.
  - intros a. split; reflexivity.
  - intros a target rest eventId. apply Hdelete.
  - intros data options tr out s a HR Hin Hs.
    destruct (processWebhook_routes _ _ _ _ _ _ HR Hin Hs)
      as (content & recentMessages & active & rest & Hc & _ & _ & -> & Hroute).
    exists content, recentMessages, active, rest. cbv zeta.
    split; [exact Hc|]. split; [reflexivity|]. split; [exact Hroute|]. split.
    + intros Ha. unfold routeAction in Hroute. rewrite Ha in Hroute.
      destruct (processMessage_result _ _ _ _ _ _ Hroute) as [Hsteps [acc ->]].
      split; [exact Hroute|]. split.
      * apply Forall_app. split; [repeat constructor|exact Hsteps].
      * eexists. split; [reflexivity|]. split; reflexivity.
    + intros Ha Hcancel Hk target more eventId -> Hid.
      unfold routeAction, findTarget in Hroute. rewrite Ha, Hk in Hroute.
      cbn [bind optOr hd_error] in Hroute. rewrite Hid in Hroute.
      unfold performAction in Hroute. cbv zeta in Hroute.
      rewrite Hcancel in Hroute.
      cbn [String.eqb Ascii.eqb Bool.eqb orb bind call Runs] in Hroute.
      destruct Hroute as (r & tr' & -> & Hrest).
      exists r. destruct r as [[]|]; cbn in Hrest; destruct Hrest as [-> _];
        reflexivity.
  - intros data options content recentMessages active a rest out.
    apply processWebhook_reaches.
  - intros data options content recentMessages active a rest out Hc Hf Hskip HR.
    split.
    + apply processWebhook_reaches; try assumption.
    + apply Forall_app. split; [repeat constructor|].
      exact (proj1 (processMessage_result _ _ _ _ _ _ HR)).
  - intros data options content recentMessages a target more eventId
      Hc Hf Hskip Hk Hid.
    apply processWebhook_reaches; try assumption.
    exact (Hdelete _ _ _ a target more eventId Hk Hid).
Qed.

(** C10.  An action that passes the threshold but resolves no target: when
    [getActiveEvents] answered that there is no active event, and the answer
    of the model names no keywords or the keyword search finds nothing, the
    run of [processWebhook] is the intake, the keyword search if there is one
    (it only reads), and then exactly a run of the extraction [processMessage]
    of the same message; no step of the run is a mutation of the action
    handlers and the result carries neither an action nor a pending
    confirmation.  Every such extraction is reached. *)
Theorem unresolved_action_falls_through (message : Message.t)
    (context : list string) (senderName : option string) (a : Detected.t) :
  isRealAction a = true ->
  let extraction := processMessage message context senderName [] in
  (Detected.targetKeywords a = [] ->
     routeAction message context senderName [] a = extraction)
  /\ (Detected.targetKeywords a <> [] ->
       exists k,
         routeAction message context senderName [] a
         = Vis (findActiveEventsByKeywords (Detected.targetKeywords a)) k
         /\ k (Ok []) = extraction)
  /\ (forall tr out,
       Runs (routeAction message context senderName [] a) tr out ->
       (forall s, In s tr -> isKeywordSearch s = true -> keywordMatches s = Some []) ->
       Forall (fun s => stepIsActionMutation s = false) tr
       /\ (exists rest,
             tr = (emptyLookup a ++ rest)%list
             /\ Runs extraction rest out)
       /\ exists r, out = Ok r
                    /\ IngestionResult.actionPerformed r = None
                    /\ IngestionResult.pendingAction r = None)
  /\ (forall rest out,
       Runs extraction rest out ->
       Runs (routeAction message context senderName [] a)
            (emptyLookup a ++ rest) out)
  /\ (forall data options tr out s,
       Runs (processWebhook data options) tr out ->
       In s tr -> detectedAction s = Some a ->
       (forall x found, In x tr -> activeFound x = Some found -> found = []) ->
       (forall x, In x tr -> isKeywordSearch x = true -> keywordMatches x = Some []) ->
       exists content recentMessages rest,
         let stored := messageOf data content in
         contentOf data = Some content
         /\ tr = (intakeSteps data content recentMessages [] a
                  ++ emptyLookup a ++ rest)%list
         /\ Runs (processMessage stored (contextOf stored recentMessages)
                    (truthyStr (Webhook.pushName data)) []) rest out
         /\ Forall (fun x => stepIsActionMutation x = false) tr
         /\ exists r, out = Ok r
                      /\ IngestionResult.actionPerformed r = None
                      /\ IngestionResult.pendingAction r = None)
  /\ (forall data options content recentMessages rest out,
       contentOf data = Some content ->
       passesFilters data options = true ->
       shouldSkipMessage content = false ->
       Runs (processMessage (messageOf data content)
               (contextOf (messageOf data content) recentMessages)
               (truthyStr (Webhook.pushName data)) []) rest out ->
       Runs (processWebhook data options)
            (intakeSteps data content recentMessages [] a
             ++ emptyLookup a ++ rest) out).
Proof.
  intros Ha extraction.
  assert (Hsound : forall m c sn tr out,
    Runs (routeAction m c sn [] a) tr out ->
    (forall s, In s tr -> isKeywordSearch s = true -> keywordMatches s = Some []) ->
    Forall (fun s => stepIsActionMutation s = false) tr
    /\ (exists rest, tr = (emptyLookup a ++ rest)%list
                     /\ Runs (processMessage m c sn []) rest out)
    /\ exists r, out = Ok r
                 /\ IngestionResult.actionPerformed r = None
                 /\ IngestionResult.pendingAction r = None).
  { intros m c sn tr out HR Hfound.
    unfold routeAction, findTarget in HR. rewrite Ha in HR. unfold emptyLookup.
    destruct (Detected.targetKeywords a) as [|kw kws] eqn:Hk.
    - cbn [bind optOr hd_error] in HR.
      destruct (processMessage_result _ _ _ _ _ _ HR) as [Hsteps [acc ->]].
      split; [exact Hsteps|]. split.
      + exists tr. split; [reflexivity|exact HR].
      + eexists. split; [reflexivity|]. split; reflexivity.
    - cbn [bind call] in HR. destruct HR as (r & tr' & -> & HR).
      pose proof (Hfound (Ev (findActiveEventsByKeywords (kw :: kws)) r)
                    (or_introl eq_refl) eq_refl) as Hr.
      destruct r as [found|]; [|discriminate].
      injection Hr as ->.
      cbn [bind optOr hd_error] in HR.
      destruct (processMessage_result _ _ _ _ _ _ HR) as [Hsteps [acc ->]].
      split; [constructor; [reflexivity|exact Hsteps]|]. split.
      + exists tr'. split; [reflexivity|exact HR].
      + eexists. split; [reflexivity|]. split; reflexivity. }
  assert (Hcomplete : forall m c sn rest out,
    Runs (processMessage m c sn []) rest out ->
    Runs (routeAction m c sn [] a) (emptyLookup a ++ rest) out).
  { intros m c sn rest out HR. unfold routeAction, findTarget, emptyLookup.
    rewrite Ha. destruct (Detected.targetKeywords a) as [|kw kws].
    - exact HR.
    - cbn [bind call Runs app]. exists (Ok []), rest. split; [reflexivity|].
      exact HR. }
  split; [|split; [|split; [|split; [|split]]]].
  - intros Hk. unfold routeAction, findTarget. rewrite Ha, Hk. reflexivity.
  - intros Hk. unfold routeAction, findTarget. rewrite Ha.
    destruct (Detected.targetKeywords a) as [|kw kws]; [congruence|].
    eexists. split; reflexivity.
  - intros tr out. apply Hsound.
  - intros rest out. apply Hcomplete.
  - intros data options tr out s HR Hin Hs Hactive Hfound.
    destruct (processWebhook_routes _ _ _ _ _ _ HR Hin Hs)
      as (content & recentMessages & active & rest & Hc & _ & _ & -> & Hroute).
    assert (active = []) as ->.
    { apply (Hactive (Ev (getActiveEvents 20) (Ok active)) active);
        [|reflexivity].
      apply in_or_app. left. simpl. auto. }
    destruct (Hsound _ _ _ _ _ Hroute) as (Hsteps & (rest' & -> & Hrest) & Hout).
    { intros x Hx. apply Hfound. apply in_or_app. now right. }
    exists content, recentMessages, rest'. cbv zeta.
    split; [exact Hc|]. split; [reflexivity|]. split; [exact Hrest|].
    split; [|exact Hout].
    apply Forall_app. split; [repeat constructor|exact Hsteps].
  - intros data options content recentMessages rest out Hc Hf Hskip HR.
    apply processWebhook_reaches; try assumption.
    now apply Hcomplete.
Qed.

(** The runs of the block that proposes a new time. *)
Lemma proposedTime_runs (newTime : option string) (tr : list Step)
    (out : Res (option Z)) :
  Runs (proposedTime newTime) tr out ->
  Forall (fun s => stepWritesStore s = false) tr
  /\ exists t, out = Ok t
       /\ ((t = None /\ tr = [])
           \/ exists s parsed ms,
                truthyStr newTime = Some s
                /\ parseUnix s = Some parsed
                /\ 0 < parsed
                /\ tr = [Tick ms]
                /\ t = Some (pushPastForward parsed (ms / 1000))).
Proof.
  unfold proposedTime.
  destruct (truthyStr newTime) as [s|];
    [|intros [-> ->]; split; [constructor|eauto]].
  destruct (parseUnix s) as [parsed|] eqn:Hparse;
    [|intros [-> ->]; split; [constructor|eauto]].
  destruct (Z.ltb_spec 0 parsed) as [Hpos|Hneg];
    [|intros [-> ->]; split; [constructor|eauto]].
  intros (ms & tr' & -> & [-> ->]). split; [repeat constructor|].
  eexists. split; [reflexivity|]. right. exists s, parsed, ms. auto.
Qed.

(** Once the target of a real action is resolved, by the keyword search or
    as the most recent active event, [processWebhook] goes on as
    [performAction] on it. *)
Lemma routeAction_resolved (message : Message.t) (context : list string)
    (senderName : option string) (activeEvents : list Event.t) (a : Detected.t) :
  isRealAction a = true ->
  (forall target rest eventId,
      Detected.targetKeywords a = [] ->
      activeEvents = target :: rest ->
      truthyNum (Event.id target) = Some eventId ->
      routeAction message context senderName activeEvents a
      = performAction message a target eventId)
  /\ (Detected.targetKeywords a <> [] ->
       exists k,
         routeAction message context senderName activeEvents a
         = Vis (findActiveEventsByKeywords (Detected.targetKeywords a)) k
         /\ (forall target more eventId,
               truthyNum (Event.id target) = Some eventId ->
               k (Ok (target :: more)) = performAction message a target eventId)
         /\ (forall target rest eventId,
               activeEvents = target :: rest ->
               truthyNum (Event.id target) = Some eventId ->
               k (Ok []) = performAction message a target eventId)).
Proof.
  intros Ha. unfold routeAction, findTarget. rewrite Ha. split.
  - intros target rest eventId -> -> Hid. cbn [bind optOr hd_error]. now rewrite Hid.
  - intros Hk. destruct (Detected.targetKeywords a) as [|kw kws]; [congruence|].
    eexists. split; [reflexivity|]. split.
    + intros target more eventId Hid. cbn [bind optOr hd_error]. now rewrite Hid.
    + intros target rest eventId -> Hid. cbn [bind optOr hd_error]. now rewrite Hid.
Qed.

(** The time that a [modify] proposes: none when the new time is absent or
    empty, is no date, or parses to a Unix time of 0 or less; else the clock
    is read once and the parsed time is pushed to the week of the reading. *)
Lemma proposedTime_exact (newTime : option string) (tr : list Step)
    (out : Res (option Z)) :
  Runs (proposedTime newTime) tr out ->
  exists t, out = Ok t
    /\ match truthyStr newTime with
       | None => t = None /\ tr = []
       | Some s =>
           match parseUnix s with
           | None => t = None /\ tr = []
           | Some parsed =>
               if 0 <? parsed
               then exists ms, tr = [Tick ms]
                               /\ t = Some (pushPastForward parsed (ms / 1000))
               else t = None /\ tr = []
           end
       end.
Proof.
  unfold proposedTime.
  destruct (truthyStr newTime) as [s|]; [|intros [-> ->]; eauto].
  destruct (parseUnix s) as [parsed|]; [|intros [-> ->]; eauto].
  destruct (0 <? parsed); [|intros [-> ->]; eauto].
  intros (ms & tr' & -> & [-> ->]). eexists. split; [reflexivity|]. eauto.
Qed.

(** The runs of the handler of a [modify]. *)
Lemma performAction_modify (a : Detected.t) (message : Message.t)
    (target : Event.t) (eventId : Z) (tr : list Step)
    (out : Res IngestionResult.t) :
  Runs (performAction message a target eventId) tr out ->
  Detected.action a = "modify" ->
  Forall (fun s => stepWritesStore s = false) tr
  /\ exists t,
       match truthyStr (Detected.newTime a) with
       | None => t = None /\ tr = []
       | Some s =>
           match parseUnix s with
           | None => t = None /\ tr = []
           | Some parsed =>
               if 0 <? parsed
               then exists ms, tr = [Tick ms]
                               /\ t = Some (pushPastForward parsed (ms / 1000))
               else t = None /\ tr = []
           end
       end
       /\ let changes :=
         {| Changes.event_time := t;
            Changes.title := truthyStr (Detected.newTitle a);
            Changes.location := truthyStr (Detected.newLocation a);
            Changes.description := truthyStr (Detected.newDescription a) |} in
       out = Ok (if Changes.hasKeys changes
                 then pendingResult (Message.id message)
                        {| PendingAction.action := "modify";
                           PendingAction.targetEventId := eventId;
                           PendingAction.targetEventTitle := Event.title target;
                           PendingAction.changes := changes;
                           PendingAction.description := changeSummary changes |}
                 else performedResult (Message.id message)
                        {| ActionResult.action := "modify";
                           ActionResult.targetEventId := eventId;
                           ActionResult.targetEventTitle := Event.title target;
                           ActionResult.message :=
                             "Modify requested but no changes specified" |}).
Proof.
  intros HR Hmodify. unfold performAction in HR. cbv zeta in HR.
  rewrite Hmodify in HR. cbn [String.eqb Ascii.eqb Bool.eqb orb] in HR.
  unfold proposeChanges in HR.
  apply Runs_bind_inv in HR as [(tr1 & changes & tr2 & H1 & H2 & ->) | [H1 ->]].
  - apply Runs_bind_inv in H1 as [(tr3 & t & tr4 & H3 & [-> E] & ->) | [H3 [=]]].
    injection E as ->.
    destruct (proposedTime_runs _ _ _ H3) as [Hsteps _].
    destruct (proposedTime_exact _ _ _ H3) as (t' & [= <-] & Ht).
    rewrite app_nil_r.
    match type of H2 with
    | Runs (if ?b then _ else _) _ _ => destruct b eqn:Hkeys
    end; destruct H2 as [-> ->]; rewrite app_nil_r;
      (split; [exact Hsteps|]); exists t; (split; [exact Ht|]);
      cbv zeta; rewrite Hkeys; reflexivity.
  - apply Runs_bind_inv in H1 as [(tr3 & t & tr4 & H3 & [-> [=]] & ->) | [H3 _]].
    destruct (proposedTime_runs _ _ _ H3) as [_ (t & [=] & _)].
Qed.


Lemma eventData_status (message : Message.t) (senderName : option string)
    (event : Extracted.t) (eventTime : option Z) :
  StatusFollowsTag (eventDataOf message senderName event eventTime).
Proof.
  unfold StatusFollowsTag, eventDataOf. cbn [Event.context_url Event.status].
  destruct (resolveContextUrl event); [left|right]; split;
    (reflexivity || discriminate).
Qed.

Lemma processMessage_inserts (message : Message.t) (context : list string)
    (senderName : option string) (existing : list Event.t) :
  Always (fun s => forall d, insertedEvent s = Some d -> StatusFollowsTag d)
         (processMessage message context senderName existing).
Proof.
  eapply Always_impl; [|apply processMessage_steps].
  intros s Hs d E.
  destruct (extraction_step_insert _ _ _ _ Hs E) as (event & t & ->).
  apply eventData_status.
Qed.

Lemma routeAction_inserts (message : Message.t) (context : list string)
    (senderName : option string) (activeEvents : list Event.t) (a : Detected.t) :
  Always (fun s => forall d, insertedEvent s = Some d -> StatusFollowsTag d)
         (routeAction message context senderName activeEvents a).
Proof.
  unfold routeAction, findTarget, performAction, proposeChanges, proposedTime.
  cbv zeta.
  repeat first [ (intros ? ?; discriminate)
               | match goal with
                 | |- Always _ (processMessage _ _ _ _) => apply processMessage_inserts
                 end
               | prog_step ].
Qed.

Lemma processWebhook_inserts (data : Webhook.t) (options : Options) :
  Always (fun s => forall d, insertedEvent s = Some d -> StatusFollowsTag d)
         (processWebhook data options).
Proof.
  unfold processWebhook. cbv zeta.
  repeat first [ (intros ? ?; discriminate)
               | match goal with
                 | |- Always _ (routeAction _ _ _ _ _) => apply routeAction_inserts
                 end
               | prog_step ].
Qed.

(** C5.  Every event that [processWebhook] or [processMessage] hands to
    [insertEvent] has status [scheduled] when its context tag is set and
    status [discovered] when it is not, whatever its time; no other initial
    status occurs. *)
Theorem created_event_status :
  (forall data options tr out,
      Runs (processWebhook data options) tr out ->
      forall s d, In s tr -> insertedEvent s = Some d -> StatusFollowsTag d)
  /\ (forall message context senderName existing tr out,
        Runs (processMessage message context senderName existing) tr out ->
        forall s d, In s tr -> insertedEvent s = Some d -> StatusFollowsTag d)
  /\ (forall message senderName event eventTime,
        let d := eventDataOf message senderName event eventTime in
        Event.context_url d = resolveContextUrl event
        /\ Event.event_time d = eventTime
        /\ Event.status d = if isSome (resolveContextUrl event)
                            then "scheduled" else "discovered").
Proof.
  repeat apply conj.
  - intros data options tr out HR s d Hin.
    pose proof (Always_Runs _ _ _ _ (processWebhook_inserts data options) HR) as HF.
    rewrite Forall_forall in HF. exact (HF s Hin d).
  - intros message context senderName existing tr out HR s d Hin.
    pose proof (Always_Runs _ _ _ _
                  (processMessage_inserts message context senderName existing) HR) as HF.
    rewrite Forall_forall in HF. exact (HF s Hin d).
  - intros. repeat split.
Qed.





End Claims.



(** A [cancel] above the threshold that names a keyword, with no active event
    and nothing found by the keyword: after the search the message goes
    through the extraction. *)
Lemma unresolved_action_falls_through_witness :
  Runs (processWebhook (H := Demo.builtins) Demo.payload Demo.options)
       (intakeSteps (H := Demo.builtins) Demo.payload "change it" [] []
          Demo.keywordCancel
        ++ emptyLookup Demo.keywordCancel ++ Samples.unsureSteps)
       (Ok (resultOf Demo.message acc0)).
Proof.
  refine (proj2 (proj2 (proj2 (proj2 (proj2
            (unresolved_action_falls_through (H := Demo.builtins)
               Demo.message [] (Some "Rahul") Demo.keywordCancel eq_refl)))))
            Demo.payload Demo.options "change it" [] Samples.unsureSteps
            (Ok (resultOf Demo.message acc0)) eq_refl eq_refl eq_refl _).
  run_trace.
Defined.

(** The gift of the specification is stored as [scheduled]. *)
Lemma created_event_status_witness :
  StatusFollowsTag
    (eventDataOf (H := Demo.builtins) Demo.message (Some "Rahul") Demo.lipstick None).
Proof.
  refine (proj1 (proj2 (created_event_status (H := Demo.builtins)))
            Demo.message [] (Some "Rahul") [] Demo.lipstickSteps _ _
            (Ev (insertEvent (eventDataOf (H := Demo.builtins) Demo.message
                                (Some "Rahul") Demo.lipstick None)) (Ok 12))
            _ _ eq_refl).
  - run_trace.
  - right. right. right. left. reflexivity.
Defined.


Lemma findExisting_withParticipants (p : string) (existing : list Event.t)
    (target : Z) :
  findExisting (map (withParticipants p) existing) target
  = option_map (withParticipants p) (findExisting existing target).
Proof.
  induction existing as [|e rest IH]; [reflexivity|].
  unfold findExisting in *. cbn [map find withParticipants Event.id].
  destruct (Event.id e) as [i|]; [destruct (i =? target)|]; auto.
Qed.

(** C3, the code at the failing input: the party has Alice as participant and
    Rahul as sender; merging a candidate with Bob appends the description, and
    writes Bob alone as the participants, because the existing participants are
    read from [sender_name].  In general the fields that a merge writes do not
    depend on the stored participants of any event. *)
Lemma merge_writes_new_participants_only :
  mergeFieldsOf (H := Demo.builtins) [Demo.partyEvent] 8 Demo.bobJoins
  = Demo.mergeWritten
  /\ (forall (B : Builtins) p existing target event,
        mergeFieldsOf (H := B) (map (withParticipants p) existing) target event
        = mergeFieldsOf (H := B) existing target event)
  /\ (exists r,
        Runs (processMessage (H := Demo.builtins) Demo.message []
                (Some "Rahul") [Demo.partyEvent])
             Demo.mergeSteps (Ok r))
  /\ UpdateFields.description Demo.mergeWritten = Some "Party at 8. bring cake"
  /\ UpdateFields.participants Demo.mergeWritten
     = Some (Demo.stringify (JArr [JStr "Bob"]))
  /\ UpdateFields.participants Demo.mergeWritten
     <> Some (Demo.stringify (JArr [JStr "Alice"; JStr "Bob"])).
Proof.
  split; [reflexivity|]. split; [|split; [|repeat split; discriminate]].
  - intros B p existing target event. unfold mergeFieldsOf.
    rewrite findExisting_withParticipants.
    destruct (findExisting existing target); reflexivity.
  - eexists. run_trace.
Qed.

End IngestionFacts.

From Stdlib Require Import Permutation Sorted.

(* ================================================================== *)
(** * Further results                                                  *)
(* ================================================================== *)

(* ------------------------------------------------------------------ *)
(** ** quicksave.ts: the ranking                                        *)
(* ------------------------------------------------------------------ *)

Module RankingFacts.
Import Quicksave Ranking JSFacts.

Local Abbreviation descending := (fun a b : Ranked => priority b <= priority a).

Lemma insertRanked_perm (x : Ranked) (l : list Ranked) :
  Permutation (insertRanked x l) (x :: l).
Proof.
  induction l as [|y rest IH]; simpl; [reflexivity|].
  destruct (priority x <? priority y); [|reflexivity].
  rewrite IH. apply perm_swap.
Qed.

Lemma insertRanked_sorted (x : Ranked) (l : list Ranked) :
  StronglySorted descending l -> StronglySorted descending (insertRanked x l).
Proof.
  induction 1 as [|y rest Hsorted IH Hall]; simpl.
  - repeat constructor.
  - destruct (Z.ltb_spec (priority x) (priority y)) as [Hlt|Hge].
    + constructor; [exact IH|].
      rewrite Forall_forall in *. intros z Hz.
      apply (Permutation_in _ (insertRanked_perm x rest)) in Hz.
      destruct Hz as [<- | Hz]; [lia|auto].
    + constructor; [constructor; assumption|].
      constructor; [lia|].
      rewrite Forall_forall in *. intros z Hz. specialize (Hall z Hz). lia.
Qed.

(** Inserting keeps the order among entries of equal priority, the new entry
    first. *)
Lemma insertRanked_stable (p : Z) (x : Ranked) (l : list Ranked) :
  ofPriority p (insertRanked x l) = ofPriority p (x :: l).
Proof.
  unfold ofPriority. induction l as [|y rest IH]; [reflexivity|].
  simpl insertRanked. destruct (Z.ltb_spec (priority x) (priority y)) as [Hlt|Hge];
    [|reflexivity].
  simpl in *. rewrite IH.
  destruct (Z.eqb_spec (priority x) p), (Z.eqb_spec (priority y) p);
    try reflexivity. lia.
Qed.

Lemma sortRanked_perm (l : list Ranked) : Permutation (sortRanked l) l.
Proof.
  induction l as [|x rest IH]; simpl; [reflexivity|].
  rewrite insertRanked_perm. now constructor.
Qed.

Lemma sortRanked_sorted (l : list Ranked) : StronglySorted descending (sortRanked l).
Proof.
  induction l as [|x rest IH]; simpl; [constructor|].
  now apply insertRanked_sorted.
Qed.

Lemma sortRanked_stable (p : Z) (l : list Ranked) :
  ofPriority p (sortRanked l) = ofPriority p l.
Proof.
  induction l as [|x rest IH]; [reflexivity|].
  simpl sortRanked. rewrite insertRanked_stable.
  unfold ofPriority in *. simpl. now rewrite IH.
Qed.

Lemma sorted_app_cross {A} (R : A -> A -> Prop) (l1 l2 : list A) :
  StronglySorted R (l1 ++ l2) ->
  forall a b, In a l1 -> In b l2 -> R a b.
Proof.
  induction l1 as [|x l1 IH]; simpl; intros Hs a b Ha Hb; [destruct Ha|].
  inversion Hs as [|? ? Hs' Hall]; subst.
  destruct Ha as [<- | Ha]; [|eauto].
  rewrite Forall_forall in Hall. apply Hall. apply in_or_app. now right.
Qed.

Section WithBuiltins.
Context `{Builtins}.

Lemma signalPriority_range (now : Z) (e : CompressibleEvent) :
  0 <= signalPriority now e <= 10.
Proof. unfold signalPriority. lia. Qed.

Lemma filterBySignal_perm (nowMs : Z) (evs : list CompressibleEvent) :
  Permutation (filterBySignal nowMs evs) (scored nowMs evs).
Proof. apply sortRanked_perm. Qed.

Lemma filterBySignal_sorted (nowMs : Z) (evs : list CompressibleEvent) :
  StronglySorted descending (filterBySignal nowMs evs).
Proof. apply sortRanked_sorted. Qed.

Lemma filterBySignal_length (nowMs : Z) (evs : list CompressibleEvent) :
  List.length (filterBySignal nowMs evs) = List.length evs.
Proof.
  rewrite (Permutation_length (filterBySignal_perm nowMs evs)).
  unfold scored. now rewrite length_map.
Qed.

Lemma map_ev_scored (nowMs : Z) (evs : list CompressibleEvent) :
  map ev (scored nowMs evs) = evs.
Proof.
  unfold scored. rewrite map_map. simpl. apply map_id.
Qed.

(** X1.  [filterBySignal] loses and invents nothing: its result holds the
    events it was given, each once and each with its own priority.  The
    priorities lie between 0 and 10, the result is in descending order of
    priority, and events of equal priority keep the order they came in. *)
Theorem filterBySignal_ranks (nowMs : Z) (evs : list CompressibleEvent) :
  let ranked := filterBySignal nowMs evs in
  Permutation ranked (scored nowMs evs)
  /\ Permutation (map ev ranked) evs
  /\ Forall (fun r => 0 <= priority r <= 10) ranked
  /\ StronglySorted (fun a b => priority b <= priority a) ranked
  /\ (forall p, ofPriority p ranked = ofPriority p (scored nowMs evs)).
Proof.
  intros ranked. repeat apply conj.
  - apply filterBySignal_perm.
  - pose proof (Permutation_map ev (filterBySignal_perm nowMs evs)) as Hperm.
    now rewrite map_ev_scored in Hperm.
  - rewrite Forall_forall. intros r Hr.
    apply (Permutation_in _ (filterBySignal_perm nowMs evs)) in Hr.
    unfold scored in Hr. apply in_map_iff in Hr as (e & <- & _).
    apply signalPriority_range.
  - apply filterBySignal_sorted.
  - intros p. apply sortRanked_stable.
Qed.

Lemma denseLines_length (clock : nat -> Z) (k : nat) (l : list Ranked) :
  List.length (denseLines clock k l) = List.length l.
Proof.
  revert k. induction l as [|r rest IH]; intros k; simpl; [reflexivity|].
  now rewrite IH.
Qed.

Lemma denseLines_nth (clock : nat -> Z) (l : list Ranked) :
  forall k i r,
  nth_error l i = Some r ->
  nth_error (denseLines clock k l) i
  = Some (denseLine (clock (k + readingsBefore i l)%nat) (ev r)).
Proof.
  induction l as [|r0 rest IH]; intros k i r Hi.
  - destruct i; discriminate.
  - destruct i as [|i].
    + injection Hi as ->. cbn [denseLines nth_error]. unfold readingsBefore.
      cbn [firstn filter List.length]. now rewrite Nat.add_0_r.
    + cbn [denseLines nth_error] in *. rewrite (IH _ i r Hi).
      unfold readingsBefore. cbn [firstn filter].
      destruct (isSome (truthyNum (event_time (ev r0)))); cbn [List.length];
        do 3 f_equal; lia.
Qed.

(** X2.  [compressEventsForPrompt] on a non-empty list keeps the first
    [maxEvents] events of the ranking, 60 when no number is given (all of them
    when there are fewer; with a negative [maxEvents] it drops that many from
    the end): no event that is left out has a higher priority than one that is
    kept, and the edges are those of the kept events.  The text is the dense
    lines of the kept events, in order and one per line, each printed with the
    clock reading that its turn gives it (the ranking takes the first reading,
    every line whose event has a time the next one); when there are edges the
    text goes on with a line [Relationships: ] and the labels of the first ten
    edges, separated by a comma and a space, and when there are none it ends
    with the last line. *)
Theorem compress_keeps_top (clock : nat -> Z) (evs : list CompressibleEvent)
    (maxEvents : option Z) :
  evs <> [] ->
  let limit := match maxEvents with Some n => n | None => 60 end in
  let c := compressEventsForPrompt clock evs maxEvents in
  let ranked := filterBySignal (clock O) evs in
  let kept := firstn (Z.to_nat (eventCount c)) ranked in
  let dropped := skipn (Z.to_nat (eventCount c)) ranked in
  let lines := denseLines clock 1 kept in
  eventCount c = (if limit <? 0
                  then Z.max 0 (Z.of_nat (List.length evs) + limit)
                  else Z.min limit (Z.of_nat (List.length evs)))
  /\ edges c = detectEventEdges (map ev kept)
  /\ events c
     = match edges c with
       | [] => join newline lines
       | _ => join newline lines ++ newline ++ "Relationships: "
              ++ join ", " (map edgeLabel (firstn 10 (edges c)))
       end
  /\ List.length lines = List.length kept
  /\ (forall i r, nth_error kept i = Some r ->
        nth_error lines i
        = Some (denseLine (clock (S (readingsBefore i kept))) (ev r)))
  /\ (forall a b, In a kept -> In b dropped -> priority b <= priority a).
Proof.
  intros Hne limit c ranked kept dropped lines.
  destruct evs as [|e0 rest]; [congruence|].
  assert (Hsel : slice0 limit ranked = kept
                 /\ eventCount c
                    = (if limit <? 0
                       then Z.max 0 (Z.of_nat (List.length (e0 :: rest)) + limit)
                       else Z.min limit (Z.of_nat (List.length (e0 :: rest))))).
  { subst lines dropped kept c. cbn [compressEventsForPrompt eventCount].
    fold limit. fold ranked.
    pose proof (filterBySignal_length (clock O) (e0 :: rest)) as Hlen.
    fold ranked in Hlen.
    unfold slice0. destruct (Z.ltb_spec limit 0) as [Hneg|Hpos];
      rewrite length_firstn, Hlen, Nat2Z.id.
    - split; [f_equal; lia|lia].
    - split; [|lia].
      destruct (Nat.le_gt_cases (Z.to_nat limit) (List.length (e0 :: rest)))
        as [Hle|Hgt].
      + f_equal; lia.
      + rewrite Nat.min_r by lia. rewrite <- Hlen.
        rewrite firstn_all. apply firstn_all2. lia. }
  destruct Hsel as [Hsel Hcount].
  assert (Hedges : edges c = detectEventEdges (map ev kept)).
  { subst c. cbn [compressEventsForPrompt edges]. fold limit. fold ranked.
    now rewrite Hsel. }
  repeat apply conj.
  - exact Hcount.
  - exact Hedges.
  - rewrite Hedges. subst c. cbn [compressEventsForPrompt events].
    fold limit. fold ranked. rewrite Hsel. fold lines.
    destruct (detectEventEdges (map ev kept)); [apply append_empty|reflexivity].
  - apply denseLines_length.
  - intros i r Hi. subst lines. now rewrite (denseLines_nth clock kept 1 i r Hi).
  - intros a b Ha Hb.
    pose proof (filterBySignal_sorted (clock O) (e0 :: rest)) as Hsorted.
    fold ranked in Hsorted.
    rewrite <- (firstn_skipn (Z.to_nat (eventCount c)) ranked) in Hsorted.
    exact (sorted_app_cross _ _ _ Hsorted a b Ha Hb).
Qed.

Lemma sorted_higher_first (l : list Ranked) (a b : Ranked) :
  StronglySorted descending l -> In a l -> In b l ->
  priority b < priority a -> Before a b l.
Proof.
  intros Hs Ha Hb Hlt.
  apply in_split in Ha as (l1 & l2 & ->).
  apply in_app_or in Hb as [Hb | [-> | Hb]].
  - pose proof (sorted_app_cross _ _ _ Hs b a Hb (or_introl eq_refl)) as Hle.
    simpl in Hle. lia.
  - lia.
  - apply in_split in Hb as (l3 & l4 & ->). now exists l1, l3, l4.
Qed.

(** X3.  An event that starts within the next two hours and is neither
    completed nor ignored has priority 6 at least; a past event that is
    completed or ignored has priority 2 at most.  So in the ranking the first
    stands before the second, whatever else is known of the two. *)
Theorem imminent_outranks_done (nowMs : Z) (evs : list CompressibleEvent)
    (a b : CompressibleEvent) (ta tb : Z) :
  In a evs -> In b evs ->
  truthyNum (event_time a) = Some ta -> 0 < ta - nowMs / 1000 <= 7200 ->
  isDone a = false ->
  truthyNum (event_time b) = Some tb -> tb < nowMs / 1000 ->
  isDone b = true ->
  let now := nowMs / 1000 in
  6 <= signalPriority now a
  /\ signalPriority now b <= 2
  /\ Before {| ev := a; priority := signalPriority now a |}
            {| ev := b; priority := signalPriority now b |}
            (filterBySignal nowMs evs).
Proof.
  intros Ha Hb Hta Hsoon Hact Htb Hpast Hdone now.
  assert (Hpa : 6 <= signalPriority now a).
  { unfold signalPriority. rewrite Hta. fold now. unfold isDone in Hact.
    rewrite Hact.
    replace ((0 <? ta - now) && (ta - now <=? 2 * 3600)) with true
      by (symmetry; apply andb_true_iff; split; [apply Z.ltb_lt|apply Z.leb_le];
          subst now; lia).
    destruct (status a =? "scheduled")%string, (status a =? "snoozed")%string,
             (isSome (truthyStr (context_url a))),
             (event_type a =? "recommendation")%string,
             (truthyNum (created_at a)) as [c|];
      cbn [andb]; repeat match goal with |- context [if ?c then _ else _] =>
                                           destruct c end; lia. }
  assert (Hpb : signalPriority now b <= 2).
  { unfold signalPriority. rewrite Htb. fold now. unfold isDone in Hdone.
    rewrite Hdone.
    replace (0 <? tb - now) with false by (symmetry; apply Z.ltb_ge; subst now; lia).
    replace (168 * 3600 <? tb - now) with false
      by (symmetry; apply Z.ltb_ge; subst now; lia).
    replace (tb - now <? 0) with true by (symmetry; apply Z.ltb_lt; subst now; lia).
    cbn [andb].
    destruct (Bool.orb_prop _ _ Hdone) as [Hs | Hs];
      apply String.eqb_eq in Hs; rewrite Hs; cbn [String.eqb Ascii.eqb Bool.eqb];
      destruct (isSome (truthyStr (context_url b))),
               (event_type b =? "recommendation")%string,
               (truthyNum (created_at b)) as [c|];
      cbn [andb]; repeat match goal with |- context [if ?c then _ else _] =>
                                           destruct c end; lia. }
  repeat apply conj; [exact Hpa|exact Hpb|].
  apply sorted_higher_first.
  - apply filterBySignal_sorted.
  - apply (Permutation_in _ (Permutation_sym (filterBySignal_perm nowMs evs))).
    unfold scored. apply in_map_iff. now exists a.
  - apply (Permutation_in _ (Permutation_sym (filterBySignal_perm nowMs evs))).
    unfold scored. apply in_map_iff. now exists b.
  - simpl. lia.
Qed.

End WithBuiltins.

(** Two calls an hour apart, both kept: the text is their two lines and the
    relationship between them. *)
Lemma compress_keeps_top_witness :
  let calls := [Demo.eventAt 1 1000000; Demo.eventAt 2 1003600] in
  let c := compressEventsForPrompt (H := Demo.builtins) (fun _ => 0) calls (Some 2) in
  eventCount c = 2
  /\ edges c = [ {| sourceId := 1; targetId := 2; relation := conflicts |} ]
  /\ events c
     = join newline
         (denseLines (H := Demo.builtins) (fun _ => 0) 1 (filterBySignal 0 calls))
       ++ newline ++ "Relationships: " ++ "#1→#2(conflicts)".
Proof.
  pose proof (compress_keeps_top (H := Demo.builtins) (fun _ => 0)
                [Demo.eventAt 1 1000000; Demo.eventAt 2 1003600] (Some 2)
                ltac:(discriminate)) as (Hcount & Hedges & Htext & _).
  split; [exact Hcount|]. split; [exact Hedges|exact Htext].
Defined.

(** A call in an hour and a completed call of yesterday. *)
Lemma imminent_outranks_done_witness :
  6 <= signalPriority 1700000000 (Demo.eventAt 1 1700003600)
  /\ signalPriority 1700000000 (Samples.doneAt 2 1699913600) <= 2.
Proof.
  pose proof (imminent_outranks_done Demo.clock
                [Samples.doneAt 2 1699913600; Demo.eventAt 1 1700003600]
                (Demo.eventAt 1 1700003600) (Samples.doneAt 2 1699913600)
                1700003600 1699913600
                ltac:(simpl; tauto) ltac:(simpl; tauto)
                eq_refl ltac:(vm_compute; split; [reflexivity|discriminate])
                eq_refl eq_refl eq_refl eq_refl) as (Ha & Hb & _).
  split; [exact Ha|exact Hb].
Defined.

End RankingFacts.

(* ------------------------------------------------------------------ *)
(** ** quicksave.ts: the edges                                          *)
(* ------------------------------------------------------------------ *)

Module EdgeFacts.
Import Quicksave.

Lemma dedup_nodup (l : list string) : NoDup (dedup String.eqb l).
Proof.
  induction l as [|y rest IH]; simpl; constructor.
  - rewrite filter_In, negb_true_iff, String.eqb_refl. intros [_ [=]].
  - now apply NoDup_filter.
Qed.

(** Two lists without repetition have as many elements of the first in the
    second as of the second in the first. *)
Lemma common_length (l1 l2 : list string) :
  NoDup l1 -> NoDup l2 ->
  List.length (filter (fun k => existsb (String.eqb k) l2) l1)
  = List.length (filter (fun k => existsb (String.eqb k) l1) l2).
Proof.
  intros H1 H2. apply Permutation_length. apply NoDup_Permutation.
  - now apply NoDup_filter.
  - now apply NoDup_filter.
  - intros x. rewrite !filter_In, !existsb_exists. split.
    + intros (Hx1 & y & Hy & E). apply String.eqb_eq in E. subst y.
      split; [assumption|]. exists x. split; [assumption|apply String.eqb_refl].
    + intros (Hx2 & y & Hy & E). apply String.eqb_eq in E. subst y.
      split; [assumption|]. exists x. split; [assumption|apply String.eqb_refl].
Qed.

Section WithBuiltins.
Context `{Builtins}.

Lemma pairEdges_shape (a b : CompressibleEvent) :
  (List.length (pairEdges a b) <= 2)%nat
  /\ forall e, In e (pairEdges a b) ->
       (relation e = cancels \/ relation e = same_topic \/ relation e = conflicts)
       /\ sourceId e = id a /\ targetId e = id b.
Proof.
  unfold pairEdges.
  destruct (2 <=? _)%nat; [destruct (_ || _)|];
    (destruct (truthyNum (event_time a)) as [ta|];
     [destruct (truthyNum (event_time b)) as [tb|];
      [destruct ((Z.abs (ta - tb) <=? 3600) && (0 <? Z.abs (ta - tb)))| ]| ]);
    simpl; (split; [lia|]); intros e He;
    repeat (destruct He as [<- | He]; [simpl; tauto|]); destruct He.
Qed.

Lemma edgesWith_length (a : CompressibleEvent) (rest : list CompressibleEvent) :
  (List.length (edgesWith a rest) <= 2 * List.length rest)%nat.
Proof.
  induction rest as [|b rest IH]; simpl; [lia|].
  rewrite length_app. destruct (pairEdges_shape a b) as [Hlen _]. lia.
Qed.

Lemma edgesOfPairs_length (evs : list CompressibleEvent) :
  (List.length (edgesOfPairs evs) <= List.length evs * (List.length evs - 1))%nat.
Proof.
  induction evs as [|a rest IH]; simpl; [lia|].
  rewrite length_app. pose proof (edgesWith_length a rest). nia.
Qed.

(** X4.  [detectEventEdges] gives no edge for fewer than two events; every
    edge it gives is [cancels], [same_topic] or [conflicts] (never [updates] or
    [related]) and runs from an event of the list to one that stands later in
    it; and a list of n events gives at most n(n-1) edges, two for each
    pair. *)
Theorem detectEventEdges_shape (evs : list CompressibleEvent) :
  ((List.length evs < 2)%nat -> detectEventEdges evs = [])
  /\ (forall e, In e (detectEventEdges evs) ->
        (relation e = cancels \/ relation e = same_topic \/ relation e = conflicts)
        /\ exists a b, Before a b evs /\ sourceId e = id a /\ targetId e = id b)
  /\ (List.length (detectEventEdges evs)
      <= List.length evs * (List.length evs - 1))%nat.
Proof.
  unfold detectEventEdges. repeat apply conj.
  - intros Hlt. apply Nat.ltb_lt in Hlt. now rewrite Hlt.
  - intros e He. destruct (List.length evs <? 2)%nat; [destruct He|].
    apply QuicksaveFacts.in_edgesOfPairs in He as (a & b & Hbef & He).
    destruct (pairEdges_shape a b) as [_ Hshape].
    destruct (Hshape e He) as (Hrel & Hs & Ht). split; [exact Hrel|eauto].
  - destruct (List.length evs <? 2)%nat; [simpl; lia|apply edgesOfPairs_length].
Qed.

(** X5.  The relations that edge detection finds for a pair of events do not
    depend on which of the two stands first: the number of shared keywords,
    the test for a subscription and its cancellation, and the distance in time
    are the same either way. *)
Theorem pairEdges_symmetric (a b : CompressibleEvent) :
  map relation (pairEdges a b) = map relation (pairEdges b a).
Proof.
  unfold pairEdges.
  rewrite (common_length (kwSet a) (kwSet b))
    by (unfold kwSet; apply dedup_nodup).
  rewrite !map_app. f_equal.
  - destruct (2 <=? _)%nat; [|reflexivity].
    rewrite (orb_comm (_ && _) (_ && _)).
    destruct (_ || _); reflexivity.
  - destruct (truthyNum (event_time a)) as [ta|],
             (truthyNum (event_time b)) as [tb|]; try reflexivity.
    replace (Z.abs (tb - ta)) with (Z.abs (ta - tb)) by lia.
    destruct (_ && _); reflexivity.
Qed.

End WithBuiltins.

End EdgeFacts.

(* ------------------------------------------------------------------ *)
(** ** quicksave.ts: the chat memory                                    *)
(* ------------------------------------------------------------------ *)

Module ChatFacts.
Import Quicksave Chat JSFacts.

Lemma relativeIndex_zero (len : nat) : relativeIndex 0 len = O.
Proof. reflexivity. Qed.

Lemma skipn_min {A} (k : nat) (l : list A) :
  skipn (Nat.min k (List.length l)) l = skipn k l.
Proof.
  destruct (Nat.le_gt_cases k (List.length l)) as [Hle|Hgt].
  - now rewrite Nat.min_l.
  - rewrite Nat.min_r by lia. rewrite skipn_all. symmetry. apply skipn_all2. lia.
Qed.

Section WithBuiltins.
Context `{Builtins} `{TextBuiltins}.

Lemma packetOf_header (older : list Turn) :
  exists rest, packetOf older = packetHeader (List.length older) ++ rest.
Proof.
  unfold packetOf. destruct (packetRest _) as [|part parts].
  - exists EmptyString. simpl. now rewrite append_empty.
  - simpl. eexists. reflexivity.
Qed.

(** X6.  [compressChatHistory] with [maxRecentTurns = n].  A history of at
    most [n] turns comes back whole and without a packet.  A longer one, for
    [n > 0], is cut in two: the last [n] turns come back raw, the turns before
    them are the ones compressed, and the packet starts with the line that
    counts them.  For [n = 0] ([slice(-0)] is [slice(0)]) and for a negative
    [n] every turn is compressed and the raw part is the history without its
    first [-n] turns: for [n = 0] the whole history again, not the empty
    list.  Leaving [maxRecentTurns] out is [n = 6]. *)
Theorem chat_history_split (history : list Turn) (n : Z) :
  let r := compressChatHistory history (Some n) in
  let len := Z.of_nat (List.length history) in
  (len <= n -> recentHistory r = history /\ memoryPacket r = None)
  /\ (n < len ->
      exists older tail,
        memoryPacket r = Some (packetOf older)
        /\ packetOf older = packetHeader (List.length older) ++ tail
        /\ (0 < n -> history = (older ++ recentHistory r)%list
                     /\ Z.of_nat (List.length (recentHistory r)) = n)
        /\ (n <= 0 -> older = history
                      /\ recentHistory r = skipn (Z.to_nat (- n)) history))
  /\ compressChatHistory history None = compressChatHistory history (Some 6).
Proof.
  intros r len. subst r. unfold compressChatHistory. fold len.
  repeat apply conj; [| |reflexivity].
  - intros Hle. apply Z.leb_le in Hle. now rewrite Hle.
  - intros Hlt. apply Z.leb_gt in Hlt. rewrite Hlt. apply Z.leb_gt in Hlt.
    cbn [recentHistory memoryPacket].
    destruct (packetOf_header (slice 0 (len - n) history)) as [tail Htail].
    exists (slice 0 (len - n) history), tail.
    split; [reflexivity|]. split; [exact Htail|].
    unfold slice, sliceFrom. rewrite relativeIndex_zero, Nat.sub_0_r.
    cbn [skipn]. unfold relativeIndex.
    replace (len - n <? 0) with false by (symmetry; apply Z.ltb_ge; lia).
    split.
    + intros Hpos.
      replace (- n <? 0) with true by (symmetry; apply Z.ltb_lt; lia).
      replace (Nat.min (Z.to_nat (len - n)) (List.length history))
        with (Z.to_nat (len - n)) by (subst len; lia).
      replace (Z.to_nat (Z.max (Z.of_nat (List.length history) + - n) 0))
        with (Z.to_nat (len - n)) by (subst len; lia).
      split; [symmetry; apply firstn_skipn|].
      rewrite length_skipn. subst len. lia.
    + intros Hneg.
      replace (- n <? 0) with false by (symmetry; apply Z.ltb_ge; lia).
      replace (Nat.min (Z.to_nat (len - n)) (List.length history))
        with (List.length history) by (subst len; lia).
      split; [apply firstn_all|apply skipn_min].
Qed.

End WithBuiltins.

End ChatFacts.

(* ------------------------------------------------------------------ *)
(** ** matcher.ts: keywords, searches and results                       *)
(* ------------------------------------------------------------------ *)

Module ContextFacts.
Import Collab CollabFacts Matcher Observe.

Lemma dedup_length {A} (eqb : A -> A -> bool) (l : list A) :
  (List.length (dedup eqb l) <= List.length l)%nat.
Proof.
  induction l as [|x rest IH]; simpl; [lia|].
  pose proof (filter_length_le (fun y => negb (eqb x y)) (dedup eqb rest)). lia.
Qed.

Lemma table_rule_sizes :
  Forall (fun p => (ruleSize (keywords p) <= 6)%nat) URL_PATTERNS.
Proof. unfold URL_PATTERNS. repeat constructor; simpl; lia. Qed.

Lemma definedOnly_in {A} (l : list (option A)) (a : A) :
  In a (definedOnly l) <-> In (Some a) l.
Proof.
  induction l as [|[x|] rest IH]; simpl; [tauto| |].
  - rewrite IH. split; intros [E | Hin]; auto; left; congruence.
  - rewrite IH. split; [auto|]. intros [E | Hin]; [discriminate|auto].
Qed.

Lemma definedOnly_length {A} (l : list (option A)) :
  (List.length (definedOnly l) <= List.length l)%nat.
Proof. induction l as [|[x|] rest IH]; simpl; lia. Qed.

Section WithBuiltins.
Context `{Builtins}.

Lemma firstPattern_spec (url : string) (table : list UrlPattern) :
  match firstPattern url table with
  | Some (p, m) =>
      exists before after,
        table = (before ++ p :: after)%list
        /\ regexMatch (pattern p) url = Some m
        /\ Forall (fun q => regexMatch (pattern q) url = None) before
  | None => Forall (fun q => regexMatch (pattern q) url = None) table
  end.
Proof.
  induction table as [|q rest IH]; simpl; [constructor|].
  destruct (regexMatch (pattern q) url) as [m|] eqn:Eq.
  - exists [], rest. repeat split; auto.
  - destruct (firstPattern url rest) as [[p m]|].
    + destruct IH as (before & after & -> & Hm & Hnone).
      exists (q :: before), after. repeat split; auto.
    + constructor; assumption.
Qed.

Lemma extractUrlKeywords_length (path : option string) (kws : list string) :
  extractUrlKeywords path = Some kws -> (List.length kws <= 5)%nat.
Proof.
  unfold extractUrlKeywords. destruct (truthyStr path) as [p|].
  - destruct (mapM _ _) as [decoded|]; [|discriminate].
    intros E. assert (Hkws : kws = firstn 5 decoded) by congruence.
    rewrite Hkws, length_firstn. lia.
  - intros [= <-]. simpl. lia.
Qed.

Lemma applyRule_length (k : KeywordRule) (m : list (option string))
    (kws : list string) :
  applyRule k m = Some kws -> (List.length kws <= ruleSize k)%nat.
Proof.
  destruct k as [i|fixed|i|i|i rest]; simpl.
  - apply extractUrlKeywords_length.
  - intros [= <-]. lia.
  - destruct (decodeURIComponent _); simpl; intros [= <-]. simpl. lia.
  - destruct (decodeURIComponent _); simpl; intros [= <-]. simpl. lia.
  - intros [= <-]. destruct (group m i); simpl; lia.
Qed.

Lemma uniqueNonEmpty_clean (l : list string) :
  NoDup (uniqueNonEmpty l)
  /\ ~ In EmptyString (uniqueNonEmpty l)
  /\ (List.length (uniqueNonEmpty l) <= List.length l)%nat.
Proof.
  unfold uniqueNonEmpty. repeat apply conj.
  - apply NoDup_filter, EdgeFacts.dedup_nodup.
  - rewrite filter_In. intros [_ Hne]. discriminate.
  - pose proof (filter_length_le (fun s => negb (s =? EmptyString)%string)
                  (dedup String.eqb l)).
    pose proof (dedup_length String.eqb l). lia.
Qed.

(** X7.  The keywords that [extractContextFromUrl] gives are pairwise
    different, none is the empty string, and there are eleven at most.  The
    activity is that of the first pattern of the table, in the order of the
    table, that matches the address; it is [browsing] when no pattern
    matches. *)
Theorem context_keywords_clean (url : string) (title : option string)
    (ctx : UrlContext) :
  extractContextFromUrl url title = Some ctx ->
  NoDup (ctxKeywords ctx)
  /\ ~ In EmptyString (ctxKeywords ctx)
  /\ (List.length (ctxKeywords ctx) <= 11)%nat
  /\ ((ctxActivity ctx = "browsing"
       /\ Forall (fun q => regexMatch (pattern q) url = None) URL_PATTERNS)
      \/ exists before p after m,
           URL_PATTERNS = (before ++ p :: after)%list
           /\ regexMatch (pattern p) url = Some m
           /\ Forall (fun q => regexMatch (pattern q) url = None) before
           /\ ctxActivity ctx = activity p).
Proof.
  unfold extractContextFromUrl.
  pose proof (firstPattern_spec url URL_PATTERNS) as Hfirst.
  destruct (firstPattern url URL_PATTERNS) as [[p m]|].
  - destruct Hfirst as (before & after & Htable & Hm & Hnone).
    destruct (applyRule (keywords p) m) as [kws|] eqn:Ekws; [|discriminate].
    destruct (URL_pathname url) as [pathname|]; [|discriminate].
    destruct (extractUrlKeywords (Some pathname)) as [pathKeywords|] eqn:Epath;
      [|discriminate].
    intros [= <-]. cbn [ctxKeywords ctxActivity].
    destruct (uniqueNonEmpty_clean (kws ++ pathKeywords)) as (Hnd & Hne & Hlen).
    repeat apply conj; [exact Hnd|exact Hne| |].
    + rewrite length_app in Hlen.
      apply applyRule_length in Ekws. apply extractUrlKeywords_length in Epath.
      assert (Hp : In p URL_PATTERNS) by (rewrite Htable; apply in_elt).
      pose proof (proj1 (Forall_forall _ _) table_rule_sizes p Hp) as Hsize.
      simpl in Hsize. lia.
    + right. exists before, p, after, m. auto.
  - destruct (URL_pathname url) as [pathname|]; [|discriminate].
    destruct (extractUrlKeywords (Some pathname)) as [pathKeywords|] eqn:Epath;
      [|discriminate].
    match goal with
    | |- context [uniqueNonEmpty (pathKeywords ++ ?t)] =>
        set (titleKeywords := t);
        assert (Htitle : (List.length titleKeywords <= 5)%nat)
          by (subst titleKeywords; destruct (truthyStr title);
              [rewrite length_firstn; lia|simpl; lia])
    end.
    clearbody titleKeywords.
    intros [= <-]. cbn [ctxKeywords ctxActivity].
    destruct (uniqueNonEmpty_clean (pathKeywords ++ titleKeywords))
      as (Hnd & Hne & Hlen).
    repeat apply conj; [exact Hnd|exact Hne| |].
    + rewrite length_app in Hlen. apply extractUrlKeywords_length in Epath. lia.
    + left. split; [reflexivity|exact Hfirst].
Qed.

Lemma cascade_runs (kws : list string) (days : Z) (tr : list Step)
    (out : Res (list Event.t)) :
  Runs (locationCascade kws days []) tr out ->
  (tr = emptyLocations days kws /\ out = Ok [])
  \/ exists k1 kw k2 r,
       kws = (k1 ++ kw :: k2)%list /\ r <> Ok []
       /\ tr = (emptyLocations days k1
                ++ [Ev (searchEventsByLocation kw days 10) r])%list
       /\ out = r.
Proof.
  revert tr. induction kws as [|kw rest IH]; intros tr; simpl.
  - intros [-> ->]. left. auto.
  - intros (r & tr' & -> & HR). destruct r as [[|e found]|]; cbn [bind] in HR.
    + destruct (IH tr' HR) as [[-> ->] | (k1 & kw' & k2 & r & -> & Hr & -> & ->)].
      * left. auto.
      * right. exists (kw :: k1), kw', k2, r. auto.
    + destruct HR as [-> ->]. right.
      exists [], kw, rest, (Ok (e :: found)). repeat split; auto. discriminate.
    + destruct HR as [-> ->]. right.
      exists [], kw, rest, Err. repeat split; auto. discriminate.
Qed.

Lemma validation_runs (url : string) (title : option string)
    (candidates : list Event.t) (tr : list Step) (out : Res ContextCheckResponse) :
  Runs (match candidates with
        | [] => Ret (noMatch 0%float)
        | _ =>
            (validation <-
               call (validateRelevance url (orElse title EmptyString) candidates) ;;
             match Validation.relevant validation with
             | [] => Ret (noMatch (Validation.confidence validation))
             | relevant =>
                 let matchedEvents :=
                   definedOnly (map (candidateAt candidates) relevant) in
                 Ret {| matched := true; events := matchedEvents;
                        confidence := Validation.confidence validation |}
             end)%prog
        end) tr out ->
  match candidates with
  | [] => tr = [] /\ out = Ok (noMatch 0%float)
  | _ =>
      exists r,
        tr = [Ev (validateRelevance url (orElse title EmptyString) candidates) r]
        /\ out = match r with
                 | Ok v => Ok (resultFor candidates v)
                 | Err => Err
                 end
  end.
Proof.
  destruct candidates as [|c cs]; simpl; [auto|].
  intros (r & tr' & -> & HR). exists r.
  destruct r as [v|]; cbn [bind] in HR.
  - unfold resultFor.
    destruct (Validation.relevant v); destruct HR as [-> ->]; auto.
  - destruct HR as [-> ->]. auto.
Qed.

(** Every run of the steps after the keywords: the searches, then the
    validation of what the last search found. *)
Lemma matchKeywords_runs (url : string) (title : option string) (days : Z)
    (kws : list string) (tr : list Step) (out : Res ContextCheckResponse) :
  Runs (matchKeywords url title days kws) tr out ->
  exists searches answer tail,
    tr = (searches ++ tail)%list
    /\ Searches days kws searches answer
    /\ match answer with
       | Err => tail = [] /\ out = Err
       | Ok [] => tail = [] /\ out = Ok (noMatch 0%float)
       | Ok candidates =>
           exists r,
             tail = [Ev (validateRelevance url (orElse title EmptyString) candidates) r]
             /\ out = match r with
                      | Ok v => Ok (resultFor candidates v)
                      | Err => Err
                      end
       end.
Proof.
  unfold matchKeywords. intros HR.
  apply Runs_bind_inv in HR as [(tr1 & located & tr2 & H1 & H2 & ->) | [H1 ->]];
    apply cascade_runs in H1
      as [[-> E] | (k1 & kw & k2 & r & Hkws & Hr & -> & E)];
    try discriminate.
  - injection E as ->. cbn [bind call] in H2.
    destruct H2 as (r & tr' & -> & HR).
    exists (emptyLocations days kws ++ [Ev (searchEventsByKeywords kws days 10) r])%list,
      r, tr'.
    split; [now rewrite <- app_assoc|]. split; [constructor|].
    destruct r as [candidates|]; cbn [bind] in HR.
    + apply (validation_runs url title candidates) in HR.
      destruct candidates; exact HR.
    + exact HR.
  - subst r. destruct located as [|c cs]; [congruence|].
    exists (emptyLocations days k1
            ++ [Ev (searchEventsByLocation kw days 10) (Ok (c :: cs))])%list,
      (Ok (c :: cs)), tr2.
    split; [reflexivity|]. split; [econstructor; eassumption|].
    cbn [bind] in H2. apply (validation_runs url title (c :: cs)) in H2. exact H2.
  - subst r.
    exists (emptyLocations days k1
            ++ [Ev (searchEventsByLocation kw days 10) Err])%list, Err, [].
    split; [now rewrite app_nil_r|]. split; [econstructor; eassumption|auto].
Qed.

Lemma emptyLocations_read_only (days : Z) (kws : list string) :
  Forall (fun s => stepWritesStore s = false) (emptyLocations days kws).
Proof. unfold emptyLocations. rewrite Forall_map. now apply Forall_forall. Qed.

Lemma Searches_read_only (days : Z) (kws : list string) (searches : list Step)
    (answer : Res (list Event.t)) :
  Searches days kws searches answer ->
  Forall (fun s => stepWritesStore s = false) searches.
Proof.
  intros [k1 kw k2 r _ _ | r]; apply Forall_app; split;
    try apply emptyLocations_read_only; repeat constructor.
Qed.

Lemma Runs_bind_failed {A B} (p : Prog A) (f : A -> Prog B) (tr : list Step) :
  Runs p tr Err -> Runs (bind p f) tr Err.
Proof.
  revert tr. induction p as [a| |X c k IH|k IH]; intros tr; simpl.
  - intros [_ [=]].
  - intros [-> _]. split; reflexivity.
  - intros (r & tr' & -> & HR). exists r, tr'. auto.
  - intros (ms & tr' & -> & HR). exists ms, tr'. auto.
Qed.

Lemma cascade_empty (kws : list string) (days : Z) :
  Runs (locationCascade kws days []) (emptyLocations days kws) (Ok []).
Proof.
  induction kws as [|kw rest IH]; simpl; [auto|].
  exists (Ok []), (emptyLocations days rest). split; [reflexivity|exact IH].
Qed.

Lemma cascade_found (k1 : list string) (kw : string) (k2 : list string) (days : Z)
    (r : Res (list Event.t)) :
  r <> Ok [] ->
  Runs (locationCascade (k1 ++ kw :: k2) days [])
       (emptyLocations days k1 ++ [Ev (searchEventsByLocation kw days 10) r]) r.
Proof.
  intros Hr. induction k1 as [|k k1 IH]; simpl.
  - exists r, []. split; [reflexivity|].
    destruct r as [[|e found]|]; cbn [bind Runs]; [congruence|auto|auto].
  - exists (Ok []), (emptyLocations days k1
                     ++ [Ev (searchEventsByLocation kw days 10) r])%list.
    split; [reflexivity|exact IH].
Qed.

(** Every sequence of searches that [Searches] describes is made by a run. *)
Lemma matchKeywords_complete (url : string) (title : option string) (days : Z)
    (kws : list string) (searches : list Step) (answer : Res (list Event.t)) :
  Searches days kws searches answer ->
  match answer with
  | Ok (c :: cs) =>
      forall r,
        Runs (matchKeywords url title days kws)
             (searches
              ++ [Ev (validateRelevance url (orElse title EmptyString) (c :: cs)) r])
             (match r with
              | Ok v => Ok (resultFor (c :: cs) v)
              | Err => Err
              end)
  | Ok [] => Runs (matchKeywords url title days kws) searches (Ok (noMatch 0%float))
  | Err => Runs (matchKeywords url title days kws) searches Err
  end.
Proof.
  assert (Hvalidate : forall c cs r,
    Runs (validation <-
            call (validateRelevance url (orElse title EmptyString) (c :: cs)) ;;
          match Validation.relevant validation with
          | [] => Ret (noMatch (Validation.confidence validation))
          | relevant =>
              let matchedEvents :=
                definedOnly (map (candidateAt (c :: cs)) relevant) in
              Ret {| matched := true; events := matchedEvents;
                     confidence := Validation.confidence validation |}
          end)%prog
         [Ev (validateRelevance url (orElse title EmptyString) (c :: cs)) r]
         (match r with
          | Ok v => Ok (resultFor (c :: cs) v)
          | Err => Err
          end)).
  { intros c cs r. cbn [bind call Runs]. exists r, []. split; [reflexivity|].
    destruct r as [v|]; cbn [bind Runs]; [|auto].
    unfold resultFor. destruct (Validation.relevant v); cbn [Runs]; auto. }
  unfold matchKeywords. intros [k1 kw k2 r Hkws Hr | r].
  - subst kws. pose proof (cascade_found k1 kw k2 days r Hr) as Hcascade.
    destruct r as [[|c cs]|]; [congruence| |].
    + intros r. apply (Runs_bind_intro _ _ _ _ _ _ Hcascade).
      cbn [bind]. apply Hvalidate.
    + now apply Runs_bind_failed.
  - pose proof (cascade_empty kws days) as Hcascade.
    destruct r as [[|c cs]|].
    + apply (Runs_bind_intro _ _ _ _ _ _ Hcascade).
      cbn [bind call Runs]. exists (Ok []), []. split; [reflexivity|].
      cbn [bind Runs]. auto.
    + intros r. rewrite <- app_assoc.
      apply (Runs_bind_intro _ _ _ _ _ _ Hcascade).
      cbn [bind call Runs app].
      exists (Ok (c :: cs)),
        [Ev (validateRelevance url (orElse title EmptyString) (c :: cs)) r].
      split; [reflexivity|]. cbn [bind]. apply Hvalidate.
    + apply (Runs_bind_intro _ _ _ _ _ _ Hcascade).
      cbn [bind call Runs]. exists Err, []. split; [reflexivity|].
      cbn [bind Runs]. auto.
Qed.

(** X8.  Every run of [matchContext]: nothing is written to the store.  When
    the address cannot be read the run makes no step and fails; when it gives
    no keyword the run makes no step and answers that nothing matches.
    Otherwise searches are made: the location search keyword by keyword, in
    order, up to the first keyword for which it finds an event (or fails); the
    full-text search only after the location search found nothing for every
    keyword, and for all the keywords.  The model is called once at most, as
    the last step, on the non-empty candidates that the last search found, and
    its answer gives the result.  Every such sequence of searches, with any
    answers, is a run. *)
Theorem context_check_steps (url : string) (title : option string) (days : Z)
    (tr : list Step) (out : Res ContextCheckResponse) :
  Runs (matchContext url title days) tr out ->
  Forall (fun s => stepWritesStore s = false) tr
  /\ match extractContextFromUrl url title with
     | None => tr = [] /\ out = Err
     | Some ctx =>
         match ctxKeywords ctx with
         | [] => tr = [] /\ out = Ok (noMatch 0%float)
         | kw :: kws =>
             exists searches answer tail,
               tr = (searches ++ tail)%list
               /\ searches <> []
               /\ Searches days (kw :: kws) searches answer
               /\ match answer with
                  | Ok (c :: cs) =>
                      exists r,
                        tail = [Ev (validateRelevance url (orElse title EmptyString)
                                      (c :: cs)) r]
                        /\ out = match r with
                                 | Ok v => Ok (resultFor (c :: cs) v)
                                 | Err => Err
                                 end
                  | Ok [] => tail = [] /\ out = Ok (noMatch 0%float)
                  | Err => tail = [] /\ out = Err
                  end
         end
     end
  /\ (forall ctx searches answer,
        extractContextFromUrl url title = Some ctx ->
        ctxKeywords ctx <> [] ->
        Searches days (ctxKeywords ctx) searches answer ->
        match answer with
        | Ok (c :: cs) =>
            forall r,
              Runs (matchContext url title days)
                   (searches
                    ++ [Ev (validateRelevance url (orElse title EmptyString)
                              (c :: cs)) r])
                   (match r with
                    | Ok v => Ok (resultFor (c :: cs) v)
                    | Err => Err
                    end)
        | Ok [] => Runs (matchContext url title days) searches (Ok (noMatch 0%float))
        | Err => Runs (matchContext url title days) searches Err
        end).
Proof.
  unfold matchContext. intros HR.
  assert (Hcomplete : forall ctx searches answer,
    extractContextFromUrl url title = Some ctx ->
    ctxKeywords ctx <> [] ->
    Searches days (ctxKeywords ctx) searches answer ->
    match answer with
    | Ok (c :: cs) =>
        forall r,
          Runs (ctx <- orThrow (extractContextFromUrl url title) ;;
                match ctxKeywords ctx with
                | [] => Ret (noMatch 0%float)
                | kws => matchKeywords url title days kws
                end)%prog
               (searches
                ++ [Ev (validateRelevance url (orElse title EmptyString)
                          (c :: cs)) r])
               (match r with
                | Ok v => Ok (resultFor (c :: cs) v)
                | Err => Err
                end)
    | Ok [] =>
        Runs (ctx <- orThrow (extractContextFromUrl url title) ;;
              match ctxKeywords ctx with
              | [] => Ret (noMatch 0%float)
              | kws => matchKeywords url title days kws
              end)%prog searches (Ok (noMatch 0%float))
    | Err =>
        Runs (ctx <- orThrow (extractContextFromUrl url title) ;;
              match ctxKeywords ctx with
              | [] => Ret (noMatch 0%float)
              | kws => matchKeywords url title days kws
              end)%prog searches Err
    end).
  { intros ctx searches answer -> Hkws Hs. cbn [bind orThrow].
    destruct (ctxKeywords ctx) as [|kw kws]; [congruence|].
    exact (matchKeywords_complete url title days (kw :: kws) searches answer Hs). }
  destruct (extractContextFromUrl url title) as [ctx|] eqn:Ectx;
    cbn [bind orThrow Runs] in HR;
    [|destruct HR as [-> ->]; split; [constructor|split; [auto|exact Hcomplete]]].
  destruct (ctxKeywords ctx) as [|kw kws] eqn:Ekws; cbn [Runs] in HR;
    [destruct HR as [-> ->]; split; [constructor|split; [auto|exact Hcomplete]]|].
  apply matchKeywords_runs in HR as (searches & answer & tail & -> & Hs & Htail).
  split; [|split; [|exact Hcomplete]].
  - apply Forall_app. split; [eapply Searches_read_only; eassumption|].
    destruct answer as [[|c cs]|].
    + destruct Htail as [-> _]. constructor.
    + destruct Htail as (r & -> & _). repeat constructor.
    + destruct Htail as [-> _]. constructor.
  - exists searches, answer, tail. split; [reflexivity|]. split.
    + destruct Hs as [k1 kw' k2 r _ _ | r]; intros E;
        apply app_eq_nil in E as [_ [=]].
    + split; [exact Hs|]. destruct answer as [[|c cs]|]; exact Htail.
Qed.

Lemma candidateAt_spec (candidates : list Event.t) (relevant : list Z) (e : Event.t) :
  In e (definedOnly (map (candidateAt candidates) relevant))
  <-> exists i, In i relevant /\ 0 <= i /\ nth_error candidates (Z.to_nat i) = Some e.
Proof.
  rewrite definedOnly_in, in_map_iff. unfold candidateAt. split.
  - intros (i & Hi & Hin). exists i. destruct (Z.ltb_spec i 0); [discriminate|auto].
  - intros (i & Hin & Hpos & Hi). exists i.
    destruct (Z.ltb_spec i 0); [lia|auto].
Qed.

(** X9.  A result of [matchContext] with [matched = false] has no events.  A
    result with [matched = true] comes from a validation, the last step of the
    run, that named at least one index; it carries the confidence of that
    validation, and its events are the candidates at the named indices, in the
    order named: an index that is negative or beyond the candidates is passed
    over, so that the events can be fewer than the indices, or none. *)
Theorem matched_events (url : string) (title : option string) (days : Z)
    (tr : list Step) (result : ContextCheckResponse) :
  Runs (matchContext url title days) tr (Ok result) ->
  (matched result = false -> events result = [])
  /\ (matched result = true ->
      exists before s candidates v,
        tr = (before ++ [s])%list
        /\ validatedCandidates s = Some candidates
        /\ validationOf s = Some v
        /\ Validation.relevant v <> []
        /\ confidence result = Validation.confidence v
        /\ events result
           = definedOnly (map (candidateAt candidates) (Validation.relevant v))
        /\ (List.length (events result) <= List.length (Validation.relevant v))%nat
        /\ (forall e, In e (events result) <->
                      exists i, In i (Validation.relevant v) /\ 0 <= i
                                /\ nth_error candidates (Z.to_nat i) = Some e)).
Proof.
  unfold matchContext. intros HR.
  destruct (extractContextFromUrl url title) as [ctx|] eqn:Ectx;
    cbn [bind orThrow Runs] in HR; [|destruct HR as [_ [=]]].
  destruct (ctxKeywords ctx) as [|kw kws] eqn:Ekws; cbn [Runs] in HR.
  { destruct HR as [-> E].
    assert (result = noMatch 0%float) by congruence. subst result.
    split; [reflexivity|discriminate]. }
  apply matchKeywords_runs in HR as (searches & answer & tail & -> & Hs & Htail).
  destruct answer as [[|c cs]|].
  - destruct Htail as [-> E].
    assert (result = noMatch 0%float) by congruence. subst result.
    split; [reflexivity|discriminate].
  - destruct Htail as (r & -> & Hout). destruct r as [v|]; [|discriminate].
    assert (result = resultFor (c :: cs) v) by congruence. subst result.
    unfold resultFor.
    destruct (Validation.relevant v) as [|i more] eqn:Erel.
    + split; [reflexivity|discriminate].
    + split; [discriminate|]. intros _.
      exists searches,
        (Ev (validateRelevance url (orElse title EmptyString) (c :: cs)) (Ok v)),
        (c :: cs), v.
      rewrite Erel. cbn [matched events confidence].
      repeat split; try reflexivity; try discriminate.
      * pose proof (definedOnly_length (map (candidateAt (c :: cs)) (i :: more)))
          as Hlen.
        now rewrite length_map in Hlen.
      * apply candidateAt_spec.
      * apply candidateAt_spec.
  - destruct Htail as [_ [=]].
Qed.

End WithBuiltins.

(** The context of [Demo.netflixUrl]. *)
Lemma context_keywords_clean_witness :
  NoDup ["netflix"; "subscription"; "streaming"; "browse"].
Proof.
  exact (proj1 (context_keywords_clean (H := Demo.builtins) Demo.netflixUrl None
                  {| ctxActivity := "streaming";
                     ctxKeywords := ["netflix"; "subscription"; "streaming"; "browse"] |}
                  eq_refl)).
Defined.

(** The context check of [Demo.netflixUrl] that finds [Demo.netflixEvent] by
    location. *)
Lemma context_check_steps_witness :
  Forall (fun s => stepWritesStore s = false) Demo.matchSteps
  /\ exists searches answer tail,
       Demo.matchSteps = (searches ++ tail)%list
       /\ searches <> []
       /\ Searches 90 ["netflix"; "subscription"; "streaming"; "browse"]
            searches answer.
Proof.
  pose proof (context_check_steps (H := Demo.builtins) Demo.netflixUrl None 90
                Demo.matchSteps (Ok (noMatch 0.3%float)) ltac:(run_trace))
    as (Hsteps & (searches & answer & tail & Htr & Hne & Hs & _) & _).
  split; [exact Hsteps|]. exists searches, answer, tail. auto.
Defined.

(** A validation that names the first candidate and one that does not exist:
    one event is matched. *)
Lemma matched_events_witness :
  exists before s candidates v,
    Samples.matchedSteps = (before ++ [s])%list
    /\ validatedCandidates s = Some candidates
    /\ validationOf s = Some v
    /\ Validation.relevant v <> []
    /\ confidence Samples.matchedResult = Validation.confidence v.
Proof.
  assert (HR : Runs (matchContext (H := Demo.builtins) Demo.netflixUrl None 90)
                    Samples.matchedSteps (Ok Samples.matchedResult)).
  { run_trace. }
  destruct (proj2 (matched_events (H := Demo.builtins) Demo.netflixUrl None 90
                     Samples.matchedSteps Samples.matchedResult HR) eq_refl)
    as (before & s & candidates & v & H1 & H2 & H3 & H4 & H5 & _).
  exists before, s, candidates, v. auto.
Defined.

End ContextFacts.

(* ------------------------------------------------------------------ *)
(** ** ingestion.ts: the steps of an extraction                         *)
(* ------------------------------------------------------------------ *)

Module ShapeFacts.
Import Collab CollabFacts Ingestion IngestionFacts Shape.

(** A run of [bindB m f]: a run of [m] that went through, followed by a run of
    [f]; or a run of [m] that ended in a failure or threw. *)
Lemma RunsB_bind {A B} (m : Body A) (f : A -> Body B) (acc : Locals)
    (tr : list Step) (out : Res (Res B * Locals)) :
  Runs (bindB m f acc) tr out ->
  (exists tr1 a acc1 tr2,
      Runs (m acc) tr1 (Ok (Ok a, acc1)) /\ Runs (f a acc1) tr2 out
      /\ tr = (tr1 ++ tr2)%list)
  \/ (exists acc1, Runs (m acc) tr (Ok (Err, acc1)) /\ out = Ok (Err, acc1))
  \/ (Runs (m acc) tr Err /\ out = Err).
Proof.
  unfold bindB. intros HR.
  apply Runs_bind_inv in HR as [(tr1 & [[a|] acc1] & tr2 & H1 & H2 & ->) | [H1 ->]].
  - left. exists tr1, a, acc1, tr2. auto.
  - right. left. simpl in H2. destruct H2 as [-> ->]. rewrite app_nil_r. eauto.
  - right. right. auto.
Qed.

Lemma RunsB_call {X} (c : Call X) (acc : Locals) (tr : list Step)
    (out : Res (Res X * Locals)) :
  Runs (callB c acc) tr out -> exists r, tr = [Ev c r] /\ out = Ok (r, acc).
Proof. intros (r & tr' & -> & [-> ->]). eauto. Qed.

(** ** The triggers of a statement *)

Lemma triggersIn_nonneg (tr : list Step) : 0 <= triggersIn tr.
Proof. unfold triggersIn. lia. Qed.

Lemma TriggersAtMost_weaken {A} (n k : Z) (m : Body A) :
  n <= k -> TriggersAtMost n m -> TriggersAtMost k m.
Proof. intros Hle Hm acc tr out HR. specialize (Hm _ _ _ HR). lia. Qed.

Lemma TriggersAtMost_ret {A} (a : A) : TriggersAtMost 0 (retB a).
Proof. intros acc tr out [-> _]. reflexivity. Qed.

Lemma TriggersAtMost_update (f : Locals -> Locals) : TriggersAtMost 0 (update f).
Proof. intros acc tr out [-> _]. reflexivity. Qed.

Lemma TriggersAtMost_now : TriggersAtMost 0 nowB.
Proof. intros acc tr out (ms & tr' & -> & [-> _]). reflexivity. Qed.

Lemma TriggersAtMost_call {X} (c : Call X) :
  (forall r, countsTrigger (Ev c r) = false) -> TriggersAtMost 0 (callB c).
Proof.
  intros Hc acc tr out HR. apply RunsB_call in HR as (r & -> & _).
  rewrite triggersIn_cons, Hc. reflexivity.
Qed.

Lemma TriggersAtMost_bind {A B} (n k : Z) (m : Body A) (f : A -> Body B) :
  TriggersAtMost n m -> (forall a, TriggersAtMost k (f a)) -> 0 <= k ->
  TriggersAtMost (n + k) (bindB m f).
Proof.
  intros Hm Hf Hk acc tr out HR.
  apply RunsB_bind in HR
    as [(tr1 & a & acc1 & tr2 & H1 & H2 & ->) | [(acc1 & H1 & _) | [H1 _]]].
  - rewrite triggersIn_app. specialize (Hm _ _ _ H1). specialize (Hf _ _ _ _ H2). lia.
  - specialize (Hm _ _ _ H1). lia.
  - specialize (Hm _ _ _ H1). lia.
Qed.

Lemma TriggersAtMost_forEach {A} (l : list A) (body : A -> Body unit) :
  (forall x, TriggersAtMost 1 (body x)) ->
  TriggersAtMost (Z.of_nat (List.length l)) (forEach l body).
Proof.
  intros Hb. induction l as [|x rest IH].
  - apply TriggersAtMost_ret.
  - cbn [forEach List.length]. rewrite Nat2Z.inj_succ.
    replace (Z.succ (Z.of_nat (List.length rest)))
      with (1 + Z.of_nat (List.length rest)) by lia.
    apply TriggersAtMost_bind; [apply Hb|intros _; exact IH|lia].
Qed.

Section WithBuiltins.
Context `{Builtins}.

Lemma addTrigger_at_most (i : Z) (type : TriggerType) (value : string) :
  TriggersAtMost 1 (addTrigger i type value).
Proof.
  intros acc tr out (r & tr' & -> & HR). rewrite triggersIn_cons.
  destruct r as [[]|]; simpl in HR; destruct HR as [-> _];
    cbn [countsTrigger isOk]; unfold triggersIn; simpl; lia.
Qed.

Lemma noteConflicts_at_most (eventId : Z) (eventTime : option Z) :
  TriggersAtMost 0 (noteConflicts eventId eventTime).
Proof.
  unfold noteConflicts. destruct (truthyNum eventTime) as [t|];
    [|apply TriggersAtMost_ret].
  change 0 with (0 + 0).
  apply TriggersAtMost_bind; [now apply TriggersAtMost_call| |lia].
  intros conflicts. destruct (filter _ conflicts);
    [apply TriggersAtMost_ret|apply TriggersAtMost_update].
Qed.

Lemma timeTriggers_at_most (eventId : Z) (eventTime : option Z) :
  TriggersAtMost 3 (timeTriggers eventId eventTime).
Proof.
  unfold timeTriggers. destruct (truthyNum eventTime) as [t|];
    [|apply (TriggersAtMost_weaken 0); [lia|apply TriggersAtMost_ret]].
  change 3 with (0 + 3).
  apply TriggersAtMost_bind; [apply TriggersAtMost_now| |lia].
  intros nowMs. apply (TriggersAtMost_forEach intervals).
  intros [type offset]. destruct (_ <? _).
  - apply addTrigger_at_most.
  - apply (TriggersAtMost_weaken 0); [lia|apply TriggersAtMost_ret].
Qed.

Lemma locationTrigger_at_most (eventId : Z) (event : Extracted.t) :
  TriggersAtMost 1 (locationTrigger eventId event).
Proof.
  unfold locationTrigger. destruct (truthyStr (Extracted.location event)).
  - apply addTrigger_at_most.
  - apply (TriggersAtMost_weaken 0); [lia|apply TriggersAtMost_ret].
Qed.

Lemma keywordTriggers_at_most (eventId : Z) (event : Extracted.t) :
  TriggersAtMost 3 (keywordTriggers eventId event).
Proof.
  unfold keywordTriggers.
  match goal with
  | |- TriggersAtMost _ (forEach ?l ?body) =>
      apply (TriggersAtMost_weaken (Z.of_nat (List.length l)));
        [rewrite length_firstn; lia
        |apply TriggersAtMost_forEach; intros kw; apply addTrigger_at_most]
  end.
Qed.

(** ** The steps after an insertion *)

Lemma followsInsert_trigger (eventId : Z) (type : TriggerType) (value : string) :
  AlwaysB (fun s => followsInsert eventId s = true) (addTrigger eventId type value).
Proof.
  unfold addTrigger. apply AlwaysB_bind; [|intros ?; apply AlwaysB_update].
  apply AlwaysB_call. intros r. simpl. apply Z.eqb_refl.
Qed.

(** ** The steps of one candidate *)

Lemma createTime_runs (t : option string) (acc : Locals) (tr : list Step)
    (out : Res (Res (option Z) * Locals)) :
  Runs (createTime t acc) tr out ->
  Forall (fun s => isTick s = true) tr
  /\ exists v, out = Ok (Ok v, acc) /\ storedTimeOf t (lastStep tr) v.
Proof.
  unfold createTime, storedTimeOf. destruct (truthyStr t) as [s|];
    [destruct (parseUnix s) as [eventTime|]|]; simpl.
  - intros (ms & tr' & -> & [-> ->]). split; [repeat constructor|].
    eexists. split; [reflexivity|]. exists ms. split; reflexivity.
  - intros [-> ->]. split; [constructor|eauto].
  - intros [-> ->]. split; [constructor|eauto].
Qed.

Lemma updateTime_runs (t : option string) (acc : Locals) (tr : list Step)
    (out : Res (Res (option Z) * Locals)) :
  Runs (updateTime t acc) tr out ->
  Forall (fun s => isTick s = true) tr /\ exists v, out = Ok (Ok v, acc).
Proof.
  unfold updateTime. destruct (truthyStr t) as [s|];
    [destruct (parseUnix s) as [parsedTime|]; [destruct (0 <? parsedTime)|]|]; simpl.
  - intros (ms & tr' & -> & [-> ->]). split; [repeat constructor|eauto].
  - intros [-> ->]. split; [constructor|eauto].
  - intros [-> ->]. split; [constructor|eauto].
  - intros [-> ->]. split; [constructor|eauto].
Qed.

Lemma truthyNum_nonzero (n : option Z) (v : Z) : truthyNum n = Some v -> v <> 0.
Proof.
  unfold truthyNum. destruct n as [[|p|p]|]; intros [= <-]; discriminate.
Qed.

Section Segments.
Variables (message : Message.t) (senderName : option string).

Lemma after_insert_steps (event : Extracted.t) (eventId : Z) (eventTime : option Z) :
  AlwaysB (fun s => followsInsert eventId s = true)
    (update countEvent ;;
     update (pushCreated (createdOf senderName event eventId eventTime)) ;;
     noteConflicts eventId eventTime ;;
     timeTriggers eventId eventTime ;;
     locationTrigger eventId event ;;
     keywordTriggers eventId event)%body.
Proof.
  unfold noteConflicts, timeTriggers, locationTrigger, keywordTriggers.
  repeat first [apply followsInsert_trigger | always_step].
Qed.

Lemma after_insert_at_most (event : Extracted.t) (eventId : Z) (eventTime : option Z) :
  TriggersAtMost 7
    (update countEvent ;;
     update (pushCreated (createdOf senderName event eventId eventTime)) ;;
     noteConflicts eventId eventTime ;;
     timeTriggers eventId eventTime ;;
     locationTrigger eventId event ;;
     keywordTriggers eventId event)%body.
Proof.
  change 7 with (0 + (0 + (0 + (3 + (1 + 3))))).
  repeat (apply TriggersAtMost_bind; [| intros _ | lia]).
  - apply TriggersAtMost_update.
  - apply TriggersAtMost_update.
  - apply noteConflicts_at_most.
  - apply timeTriggers_at_most.
  - apply locationTrigger_at_most.
  - apply keywordTriggers_at_most.
Qed.

Lemma createEvent_segment (candidates : list Extracted.t) (event : Extracted.t)
    (acc : Locals) (tr : list Step) (out : Res (Res unit * Locals)) :
  In event candidates ->
  Runs (createEvent message senderName event acc) tr out ->
  Segment message senderName candidates tr.
Proof.
  unfold createEvent. intros Hin HR.
  apply RunsB_bind in HR
    as [(tr1 & dup & acc1 & tr2 & H1 & H2 & ->) | [(acc1 & H1 & ->) | [H1 ->]]];
    apply RunsB_call in H1 as (r & -> & E); [|injection E as <- _|discriminate].
  2:{ apply seg_duplicate. discriminate. }
  injection E as <- ->. destruct dup as [e|].
  { destruct H2 as [-> _]. apply seg_duplicate. discriminate. }
  apply RunsB_bind in H2
    as [(tr3 & eventTime & acc2 & tr4 & H3 & H4 & ->) | [(acc2 & H3 & ->) | [H3 ->]]];
    apply createTime_runs in H3 as [Hclock (v & E & Htime)]; try discriminate.
  injection E as <- ->.
  apply RunsB_bind in H4
    as [(tr5 & eventId & acc3 & tr6 & H5 & H6 & ->) | [(acc3 & H5 & ->) | [H5 ->]]];
    apply RunsB_call in H5 as (r & -> & E); [|injection E as <- _|discriminate].
  - injection E as <- ->.
    apply (seg_create message senderName candidates event tr3 eventTime
             (Ok eventId) tr6 Hin Hclock Htime).
    split.
    + exact (Always_Runs _ _ _ _ (after_insert_steps event eventId eventTime acc) H6).
    + exact (after_insert_at_most event eventId eventTime _ _ _ H6).
  - apply (seg_create message senderName candidates event tr3 eventTime Err []
             Hin Hclock Htime).
    reflexivity.
Qed.

Lemma applyUpdate_segment (candidates : list Extracted.t) (existing : list Event.t)
    (action : string) (target : Z) (event : Extracted.t) (acc : Locals)
    (tr : list Step) (out : Res (Res unit * Locals)) :
  target <> 0 ->
  Runs (applyUpdate senderName existing action target event acc) tr out ->
  Segment message senderName candidates tr.
Proof.
  intros Htarget. unfold applyUpdate. intros HR.
  assert (Hfields : forall tr1 out1,
    Runs ((if (action =? "update")%string then updateFieldsOf event
           else retB (mergeFieldsOf existing target event)) acc) tr1 out1 ->
    Forall (fun s => isTick s = true) tr1 /\ exists f, out1 = Ok (Ok f, acc)).
  { intros tr1 out1. destruct (action =? "update")%string.
    - unfold updateFieldsOf. intros HF.
      apply RunsB_bind in HF
        as [(tr3 & t & acc2 & tr4 & H3 & [-> ->] & ->) | [(acc2 & H3 & ->) | [H3 ->]]];
        apply updateTime_runs in H3 as [Hclock (v & E)]; try discriminate.
      injection E as <- ->. rewrite app_nil_r. split; [exact Hclock|eauto].
    - intros [-> ->]. split; [constructor|eauto]. }
  apply RunsB_bind in HR
    as [(tr1 & fields & acc1 & tr2 & H1 & H2 & ->) | [(acc1 & H1 & ->) | [H1 ->]]];
    apply Hfields in H1 as [Hclock (f & E)]; try discriminate.
  injection E as <- ->.
  destruct (UpdateFields.hasKeys fields) eqn:Hkeys.
  - apply RunsB_bind in H2
      as [(tr5 & updated & acc3 & tr6 & H5 & H6 & ->) | [(acc3 & H5 & ->) | [H5 ->]]];
      apply RunsB_call in H5 as (r & -> & E); [|injection E as <- _|discriminate].
    + injection E as <- ->.
      assert (tr6 = []) as ->
        by (destruct updated; simpl in H6; destruct H6 as [-> _]; reflexivity).
      now apply seg_update.
    + now apply seg_update.
  - destruct H2 as [-> _]. rewrite app_nil_r. now apply seg_clock.
Qed.

Lemma processCandidate_segment (candidates : list Extracted.t)
    (existing : list Event.t) (event : Extracted.t)
    (acc : Locals) (tr : list Step) (out : Res (Res unit * Locals)) :
  In event candidates ->
  Runs (processCandidate message senderName existing event acc) tr out ->
  Segment message senderName candidates tr.
Proof.
  intros Hin. unfold processCandidate. destruct (_ <? _)%float.
  { intros [-> _]. apply seg_clock. constructor. }
  destruct (truthyNum (Extracted.target_event_id event)) as [target|] eqn:Etarget;
    [|now apply createEvent_segment].
  destruct (_ || _); [|now apply createEvent_segment].
  apply applyUpdate_segment. eapply truthyNum_nonzero; eassumption.
Qed.

Lemma forEach_segments (candidates : list Extracted.t) (existing : list Event.t)
    (extraction : list Extracted.t)
    (acc : Locals) (tr : list Step) (out : Res (Res unit * Locals)) :
  incl extraction candidates ->
  Runs (forEach extraction (processCandidate message senderName existing) acc) tr out ->
  exists segs,
    tr = List.concat segs /\ Forall (Segment message senderName candidates) segs.
Proof.
  revert acc tr out. induction extraction as [|event rest IH]; intros acc tr out Hincl;
    simpl.
  - intros [-> _]. exists []. split; [reflexivity|constructor].
  - intros HR.
    assert (Hin : In event candidates) by (apply Hincl; now left).
    assert (Hrest : incl rest candidates) by (intros x Hx; apply Hincl; now right).
    apply RunsB_bind in HR
      as [(tr1 & [] & acc1 & tr2 & H1 & H2 & ->) | [(acc1 & H1 & ->) | [H1 ->]]];
      apply (processCandidate_segment candidates _ _ _ _ _ Hin) in H1.
    + destruct (IH _ _ _ Hrest H2) as (segs & -> & Hsegs).
      exists (tr1 :: segs). split; [reflexivity|constructor; assumption].
    + exists [tr]. split; [simpl; now rewrite app_nil_r|].
      constructor; [assumption|constructor].
    + exists [tr]. split; [simpl; now rewrite app_nil_r|].
      constructor; [assumption|constructor].
Qed.

(** Every run of [processMessage]: the clock, the call of the model, and then
    the steps of the candidates one after the other. *)
Lemma processMessage_segments (context : list string) (existing : list Event.t)
    (tr : list Step) (out : Res IngestionResult.t) :
  Runs (processMessage message context senderName existing) tr out ->
  exists ms r segs,
    tr = (Tick ms
          :: Ev (extractEvents (Message.content message) context (toISOString ms)
                   (map eventForModel existing) (Message.timestamp message)) r
          :: List.concat segs)%list
    /\ Forall (Segment message senderName
                 (match r with Ok extraction => extraction | Err => [] end)) segs
    /\ (r = Err -> segs = []).
Proof.
  unfold processMessage. intros HR.
  apply Runs_bind_inv in HR as [(tr1 & res & tr2 & H1 & [-> _] & ->) | [H1 ->]].
  - rewrite app_nil_r. unfold processMessageBody in H1.
    destruct H1 as (ms & tr' & -> & H1).
    cbn [bind continue] in H1.
    apply RunsB_bind in H1
      as [(tr3 & extraction & acc1 & tr4 & H3 & H4 & ->) | [(acc1 & H3 & E) | [H3 E]]];
      apply RunsB_call in H3 as (r & -> & E'); try discriminate.
    + injection E' as <- ->.
      apply (forEach_segments extraction) in H4 as (segs & -> & Hsegs);
        [|apply incl_refl].
      exists ms, (Ok extraction), segs. repeat split; [assumption|discriminate].
    + injection E' as <- _. exists ms, Err, []. repeat split; auto.
  - destruct (processMessageBody_accounted _ _ _ _ _ _ _ H1) as (r & acc & [=] & _).
Qed.

End Segments.

End WithBuiltins.

End ShapeFacts.

(* ------------------------------------------------------------------ *)
(** ** ingestion.ts: what an extraction stores                          *)
(* ------------------------------------------------------------------ *)

Module ExtractionFacts.
Import Collab CollabFacts Ingestion IngestionFacts Shape ShapeFacts.

Lemma insertsIn_cons (s : Step) (tr : list Step) :
  insertsIn (s :: tr) = (if isSome (insertedId s) then 1 else 0) + insertsIn tr.
Proof.
  unfold insertsIn. simpl. destruct (isSome (insertedId s)); simpl List.length; lia.
Qed.

Lemma insertsIn_app (tr1 tr2 : list Step) :
  insertsIn (tr1 ++ tr2) = insertsIn tr1 + insertsIn tr2.
Proof. unfold insertsIn. rewrite filter_app, length_app. lia. Qed.

Lemma insertsIn_nonneg (tr : list Step) : 0 <= insertsIn tr.
Proof. unfold insertsIn. lia. Qed.

(** ** Clock readings *)

Lemma clock_quiet (clock : list Step) :
  Forall (fun s => isTick s = true) clock ->
  triggersIn clock = 0 /\ insertsIn clock = 0
  /\ Forall (fun s => insertedEvent s = None /\ triggerOf s = None
                      /\ updatedEvent s = None /\ stepWritesStore s = false) clock.
Proof.
  induction 1 as [|s clock Hs _ (Ht & Hi & Hall)].
  - repeat split. constructor.
  - destruct s as [X c r|ms]; [discriminate|].
    rewrite triggersIn_cons, insertsIn_cons. simpl. repeat split; try lia.
    constructor; auto.
Qed.

Lemma follows_quiet (eventId : Z) (after : list Step) :
  Forall (fun s => followsInsert eventId s = true) after ->
  insertsIn after = 0
  /\ Forall (fun s => insertedEvent s = None /\ insertedId s = None
                      /\ updatedEvent s = None
                      /\ forall t, triggerOf s = Some t -> Trigger.event_id t = eventId)
            after.
Proof.
  induction 1 as [|s after Hs _ (Hi & Hall)].
  - split; [reflexivity|constructor].
  - rewrite insertsIn_cons.
    destruct s as [X c r|ms]; [destruct c; try discriminate|]; simpl in *.
    + split; [lia|]. constructor; [|exact Hall]. repeat split; discriminate.
    + split; [lia|]. constructor; [|exact Hall]. repeat split; try discriminate.
      intros t' [= <-]. now apply Z.eqb_eq.
    + split; [lia|]. constructor; [|exact Hall]. repeat split; discriminate.
Qed.

(** ** The guard of the insertions *)

Lemma InsertsGuarded_app (cleared : option string) (tr1 tr2 : list Step) :
  InsertsGuarded cleared tr1 -> (forall c, InsertsGuarded c tr2) ->
  InsertsGuarded cleared (tr1 ++ tr2).
Proof.
  revert cleared. induction tr1 as [|s tr1 IH]; intros cleared; simpl; [auto|].
  intros [Hs Hrest] H2. split; auto.
Qed.

Lemma InsertsGuarded_quiet (tr : list Step) :
  Forall (fun s => insertedEvent s = None) tr -> forall c, InsertsGuarded c tr.
Proof.
  induction 1 as [|s tr Hs _ IH]; intros c; simpl; [exact I|].
  split; [|apply IH]. intros d Hd. congruence.
Qed.

Lemma InsertsGuarded_clock (cleared : option string) (clock rest : list Step) :
  Forall (fun s => isTick s = true) clock ->
  InsertsGuarded cleared rest -> InsertsGuarded cleared (clock ++ rest).
Proof.
  induction 1 as [|s clock Hs _ IH]; intros Hrest; simpl; [exact Hrest|].
  destruct s as [X c r|ms]; [discriminate|]. simpl. split; [discriminate|auto].
Qed.

Lemma InsertsGuarded_concat (segs : list (list Step)) :
  Forall (fun seg => forall c, InsertsGuarded c seg) segs ->
  forall c, InsertsGuarded c (List.concat segs).
Proof.
  induction 1 as [|seg segs Hseg _ IH]; intros c; simpl; [exact I|].
  apply InsertsGuarded_app; auto.
Qed.

(** What [InsertsGuarded] says of one insertion. *)
Lemma InsertsGuarded_spec (cleared : option string) (before : list Step) (s : Step)
    (after : list Step) (d : Event.t) :
  InsertsGuarded cleared (before ++ s :: after) ->
  insertedEvent s = Some d ->
  (exists earlier lookup clock,
      before = (earlier ++ lookup :: clock)%list
      /\ duplicateFree lookup = Some (Event.title d, 48)
      /\ Forall (fun x => isTick x = true) clock)
  \/ (Forall (fun x => isTick x = true) before /\ cleared = Some (Event.title d)).
Proof.
  revert cleared. induction before as [|b before IH]; intros cleared; simpl.
  - intros [Hs _] Hd. right. split; [constructor|auto].
  - intros [_ Hrest] Hd.
    destruct (IH _ Hrest Hd)
      as [(earlier & lookup & clock & -> & Hlookup & Hclock) | [Hclock Hcleared]].
    + left. exists (b :: earlier), lookup, clock. auto.
    + destruct b as [X c r|ms].
      * left. exists [], (Ev c r), before. repeat split; [|exact Hclock].
        unfold clearedAfter in Hcleared.
        destruct (duplicateFree (Ev c r)) as [[title hours]|]; [|discriminate].
        destruct (Z.eqb_spec hours 48); [|discriminate]. congruence.
      * right. split; [constructor; auto|exact Hcleared].
Qed.

(** ** The owner of the triggers *)

Lemma TriggersOwned_app (owner : option Z) (tr1 tr2 : list Step) :
  TriggersOwned owner tr1 -> (forall o, TriggersOwned o tr2) ->
  TriggersOwned owner (tr1 ++ tr2).
Proof.
  revert owner. induction tr1 as [|s tr1 IH]; intros owner; simpl; [auto|].
  intros [Hs Hrest] H2. split; auto.
Qed.

Lemma TriggersOwned_quiet (tr : list Step) :
  Forall (fun s => triggerOf s = None) tr -> forall o, TriggersOwned o tr.
Proof.
  induction 1 as [|s tr Hs _ IH]; intros o; simpl; [exact I|].
  split; [|apply IH]. intros t Ht. congruence.
Qed.

Lemma TriggersOwned_follows (eventId : Z) (after : list Step) :
  Forall (fun s => followsInsert eventId s = true) after ->
  TriggersOwned (Some eventId) after.
Proof.
  intros Hafter. apply follows_quiet in Hafter as [_ Hall].
  induction Hall as [|s after (_ & Hid & _ & Ht) _ IH]; simpl; [exact I|].
  split.
  - intros t E. now rewrite (Ht t E).
  - unfold ownerAfter. now rewrite Hid.
Qed.

Lemma TriggersOwned_concat (segs : list (list Step)) :
  Forall (fun seg => forall o, TriggersOwned o seg) segs ->
  forall o, TriggersOwned o (List.concat segs).
Proof.
  induction 1 as [|seg segs Hseg _ IH]; intros o; simpl; [exact I|].
  apply TriggersOwned_app; auto.
Qed.

(** What [TriggersOwned] says of one trigger. *)
Lemma TriggersOwned_spec (owner : option Z) (before : list Step) (s : Step)
    (after : list Step) (t : Trigger.t) :
  TriggersOwned owner (before ++ s :: after) ->
  triggerOf s = Some t ->
  (exists earlier insertion between,
      before = (earlier ++ insertion :: between)%list
      /\ insertedId insertion = Some (Trigger.event_id t)
      /\ Forall (fun x => insertedId x = None) between)
  \/ (Forall (fun x => insertedId x = None) before
      /\ owner = Some (Trigger.event_id t)).
Proof.
  revert owner. induction before as [|b before IH]; intros owner; simpl.
  - intros [Hs _] Ht. right. split; [constructor|auto].
  - intros [_ Hrest] Ht.
    destruct (IH _ Hrest Ht)
      as [(earlier & insertion & between & -> & Hid & Hquiet) | [Hquiet Howner]].
    + left. exists (b :: earlier), insertion, between. auto.
    + unfold ownerAfter in Howner. destruct (insertedId b) as [i|] eqn:Hb.
      * left. exists [], b, before. repeat split; [congruence|exact Hquiet].
      * right. split; [constructor; auto|exact Howner].
Qed.

(** ** The triggers of each inserted event *)

Lemma triggersIn_quiet (tr : list Step) :
  Forall (fun s => triggerOf s = None) tr -> triggersIn tr = 0.
Proof.
  induction 1 as [|s tr Hs _ IH]; [reflexivity|].
  rewrite triggersIn_cons, IH.
  destruct s as [X c r|ms]; [destruct c; try reflexivity; discriminate|reflexivity].
Qed.

Lemma untilInsertion_quiet (tr : list Step) :
  Forall (fun s => insertedId s = None) tr -> untilInsertion tr = tr.
Proof.
  induction 1 as [|s tr Hs _ IH]; [reflexivity|].
  cbn [untilInsertion]. now rewrite Hs, IH.
Qed.

(** The steps up to the next insertion, for a run made of two parts. *)
Lemma untilInsertion_app (tr1 tr2 : list Step) :
  exists more,
    untilInsertion (tr1 ++ tr2) = (untilInsertion tr1 ++ more)%list
    /\ (more = [] \/ more = untilInsertion tr2).
Proof.
  induction tr1 as [|s tr1 (more & E & Hmore)].
  - exists (untilInsertion tr2). auto.
  - cbn [app untilInsertion]. destruct (isSome (insertedId s)).
    + exists []. auto.
    + exists more. rewrite E. auto.
Qed.

(** A part of a run that respects the bound of seven triggers after each of
    its insertions, and that starts with no trigger before its first
    insertion. *)
Local Abbreviation Calm tr :=
  (SevenEach tr /\ Forall (fun s => triggerOf s = None) (untilInsertion tr)).

Lemma Calm_app (tr1 tr2 : list Step) : Calm tr1 -> Calm tr2 -> Calm (tr1 ++ tr2).
Proof.
  intros [H1 Q1] [H2 Q2]. split.
  - clear Q1. induction tr1 as [|s tr1 IH]; [exact H2|].
    destruct H1 as [Hs Hrest]. cbn [app SevenEach]. split; [|auto].
    intros i Hi. destruct (Hs i Hi) as [Hseven Howned].
    destruct (untilInsertion_app tr1 tr2) as (more & -> & Hmore).
    assert (Hquiet : Forall (fun s => triggerOf s = None) more)
      by (destruct Hmore as [-> | ->]; [constructor|exact Q2]).
    rewrite triggersIn_app, (triggersIn_quiet _ Hquiet). split; [lia|].
    apply Forall_app. split; [exact Howned|].
    eapply Forall_impl; [|exact Hquiet]. intros x Hx t Ht. congruence.
  - destruct (untilInsertion_app tr1 tr2) as (more & -> & Hmore).
    apply Forall_app. split; [exact Q1|].
    destruct Hmore as [-> | ->]; [constructor|exact Q2].
Qed.

Lemma Calm_quiet (tr : list Step) :
  Forall (fun s => insertedId s = None /\ triggerOf s = None) tr -> Calm tr.
Proof.
  induction 1 as [|s tr [Hi Ht] _ [IH1 IH2]]; [split; [exact I|constructor]|].
  split.
  - cbn [SevenEach]. split; [|exact IH1]. intros i E. congruence.
  - cbn [untilInsertion]. rewrite Hi. constructor; assumption.
Qed.

Lemma Calm_concat (segs : list (list Step)) :
  Forall (fun seg => Calm seg) segs -> Calm (List.concat segs).
Proof.
  induction 1 as [|seg segs Hseg _ IH]; [split; [exact I|constructor]|].
  cbn [List.concat]. now apply Calm_app.
Qed.

(** What [SevenEach] says of one insertion. *)
Lemma SevenEach_spec (before : list Step) (s : Step) (after : list Step) (i : Z) :
  SevenEach (before ++ s :: after) ->
  insertedId s = Some i ->
  triggersIn (untilInsertion after) <= 7
  /\ Forall (ownedBy i) (untilInsertion after).
Proof.
  induction before as [|b before IH]; cbn [app SevenEach].
  - intros [Hs _] Hi. exact (Hs i Hi).
  - intros [_ Hrest] Hi. exact (IH Hrest Hi).
Qed.

Lemma clock_calm (clock : list Step) :
  Forall (fun s => isTick s = true) clock ->
  Forall (fun s => insertedId s = None /\ triggerOf s = None) clock.
Proof.
  intros Hclock. eapply Forall_impl; [|exact Hclock].
  intros [X c r|ms]; [discriminate|]. split; reflexivity.
Qed.

Section WithBuiltins.
Context `{Builtins}.

Lemma Segment_calm (message : Message.t) (senderName : option string)
    (candidates : list Extracted.t) (seg : list Step) :
  Segment message senderName candidates seg -> Calm seg.
Proof.
  intros [clock Hclock | clock target fields r Hclock _ _ | title r _
         | event clock eventTime r after Hin Hclock Htime Hafter].
  - apply Calm_quiet, clock_calm, Hclock.
  - apply Calm_app; [apply Calm_quiet, clock_calm, Hclock|].
    apply Calm_quiet. repeat constructor.
  - apply Calm_quiet. repeat constructor.
  - change (Calm ([Ev (findDuplicateEvent (Extracted.title event) 48) (Ok None)]
                  ++ clock
                  ++ Ev (insertEvent (eventDataOf message senderName event eventTime)) r
                  :: after)).
    apply Calm_app; [apply Calm_quiet; repeat constructor|].
    apply Calm_app; [apply Calm_quiet, clock_calm, Hclock|].
    destruct r as [eventId|].
    + destruct Hafter as [Hfollow Hseven].
      apply follows_quiet in Hfollow as [_ Hall].
      assert (Hquiet : Forall (fun s => insertedId s = None) after)
        by (eapply Forall_impl; [|exact Hall]; cbv beta; tauto).
      split.
      * cbn [SevenEach]. split.
        -- intros i [= <-]. rewrite (untilInsertion_quiet _ Hquiet).
           split; [exact Hseven|].
           eapply Forall_impl; [|exact Hall]. cbv beta. unfold ownedBy. tauto.
        -- clear Hseven Hall. induction Hquiet as [|s after Hs _ IH];
             [exact I|].
           cbn [SevenEach]. split; [|exact IH]. intros i E. congruence.
      * cbn [untilInsertion insertedId isSome]. constructor.
    + subst after. apply Calm_quiet. repeat constructor.
Qed.

Lemma Segment_guarded (message : Message.t) (senderName : option string)
    (candidates : list Extracted.t) (seg : list Step) :
  Segment message senderName candidates seg -> forall c, InsertsGuarded c seg.
Proof.
  intros [clock Hclock | clock target fields r Hclock _ _ | title r _
         | event clock eventTime r after Hin Hclock Htime Hafter] c.
  - apply InsertsGuarded_quiet. apply clock_quiet in Hclock as (_ & _ & Hall).
    eapply Forall_impl; [|exact Hall]. cbv beta. tauto.
  - apply InsertsGuarded_clock; [exact Hclock|]. simpl. split; [discriminate|exact I].
  - simpl. split; [discriminate|exact I].
  - simpl. split; [discriminate|].
    apply InsertsGuarded_clock; [exact Hclock|]. simpl. split.
    + intros d [= <-]. reflexivity.
    + destruct r as [eventId|]; [|subst after; exact I].
      destruct Hafter as [Hafter _]. apply InsertsGuarded_quiet.
      apply follows_quiet in Hafter as [_ Hall].
      eapply Forall_impl; [|exact Hall]. cbv beta. tauto.
Qed.

Lemma Segment_owned (message : Message.t) (senderName : option string)
    (candidates : list Extracted.t) (seg : list Step) :
  Segment message senderName candidates seg -> forall o, TriggersOwned o seg.
Proof.
  intros [clock Hclock | clock target fields r Hclock _ _ | title r _
         | event clock eventTime r after Hin Hclock Htime Hafter] o.
  - apply TriggersOwned_quiet. apply clock_quiet in Hclock as (_ & _ & Hall).
    eapply Forall_impl; [|exact Hall]. cbv beta. tauto.
  - apply TriggersOwned_app.
    + apply TriggersOwned_quiet. apply clock_quiet in Hclock as (_ & _ & Hall).
      eapply Forall_impl; [|exact Hall]. cbv beta. tauto.
    + intros o'. simpl. split; [discriminate|exact I].
  - simpl. split; [discriminate|exact I].
  - simpl. split; [discriminate|].
    apply TriggersOwned_app.
    + apply TriggersOwned_quiet. apply clock_quiet in Hclock as (_ & _ & Hall).
      eapply Forall_impl; [|exact Hall]. cbv beta. tauto.
    + intros o'. simpl. split; [discriminate|].
      destruct r as [eventId|]; [|subst after; exact I].
      destruct Hafter as [Hafter _]. unfold ownerAfter. simpl.
      now apply TriggersOwned_follows.
Qed.

Lemma Segment_bounded (message : Message.t) (senderName : option string)
    (candidates : list Extracted.t) (seg : list Step) :
  Segment message senderName candidates seg -> triggersIn seg <= 7 * insertsIn seg.
Proof.
  intros [clock Hclock | clock target fields r Hclock _ _ | title r _
         | event clock eventTime r after Hin Hclock Htime Hafter];
    try (apply clock_quiet in Hclock as (Ht & Hi & _)).
  - lia.
  - rewrite triggersIn_app, insertsIn_app, Ht, Hi.
    rewrite triggersIn_cons, insertsIn_cons. simpl. reflexivity.
  - rewrite triggersIn_cons, insertsIn_cons. simpl. reflexivity.
  - rewrite triggersIn_cons, insertsIn_cons, triggersIn_app, insertsIn_app, Ht, Hi.
    rewrite triggersIn_cons, insertsIn_cons.
    destruct r as [eventId|]; cbn [countsTrigger insertedId isSome isOk].
    + destruct Hafter as [Hfollow Hseven].
      pose proof (insertsIn_nonneg after). lia.
    + subst after. reflexivity.
Qed.

Lemma concat_bounded (segs : list (list Step)) :
  Forall (fun seg => triggersIn seg <= 7 * insertsIn seg) segs ->
  triggersIn (List.concat segs) <= 7 * insertsIn (List.concat segs).
Proof.
  induction 1 as [|seg segs Hseg _ IH]; cbn [List.concat]; [reflexivity|].
  rewrite triggersIn_app, insertsIn_app. cbv beta in Hseg. lia.
Qed.

Lemma Segment_updates (message : Message.t) (senderName : option string)
    (candidates : list Extracted.t) (seg : list Step) :
  Segment message senderName candidates seg ->
  Forall (fun s => forall i fields, updatedEvent s = Some (i, fields) ->
                   UpdateFields.hasKeys fields = true /\ i <> 0) seg.
Proof.
  intros [clock Hclock | clock target fields r Hclock Hkeys Htarget | title r _
         | event clock eventTime r after Hin Hclock Htime Hafter];
    try (apply clock_quiet in Hclock as (_ & _ & Hall);
         assert (Hquiet : Forall (fun s => forall i fields,
                    updatedEvent s = Some (i, fields) ->
                    UpdateFields.hasKeys fields = true /\ i <> 0) clock)
           by (eapply Forall_impl; [|exact Hall];
               intros s (_ & _ & Hu & _) i f E; congruence)).
  - exact Hquiet.
  - apply Forall_app. split; [exact Hquiet|].
    constructor; [|constructor]. intros i f [= <- <-]. auto.
  - constructor; [|constructor]. discriminate.
  - constructor; [discriminate|]. apply Forall_app. split; [exact Hquiet|].
    constructor; [discriminate|].
    destruct r as [eventId|]; [|subst after; constructor].
    destruct Hafter as [Hafter _]. apply follows_quiet in Hafter as [_ Hall'].
    eapply Forall_impl; [|exact Hall']. intros s (_ & _ & Hu & _) i f E. congruence.
Qed.

(** X10.  No event is inserted unchecked.  In every run of [processMessage],
    the step before an [insertEvent], a clock reading set aside, is the
    duplicate lookup for the title of that very event over 48 hours, and it
    answered that there is no such event. *)
Theorem insert_follows_duplicate_check (message : Message.t)
    (context : list string) (senderName : option string) (existing : list Event.t)
    (tr : list Step) (out : Res IngestionResult.t) :
  Runs (processMessage message context senderName existing) tr out ->
  forall before s after d,
    tr = (before ++ s :: after)%list ->
    insertedEvent s = Some d ->
    exists earlier lookup clock,
      before = (earlier ++ lookup :: clock)%list
      /\ duplicateFree lookup = Some (Event.title d, 48)
      /\ Forall (fun x => isTick x = true) clock.
Proof.
  intros HR before s after d Htr Hd.
  apply processMessage_segments in HR as (ms & r & segs & -> & Hsegs & _).
  assert (Hguard : InsertsGuarded None
            (Tick ms
             :: Ev (extractEvents (Message.content message) context (toISOString ms)
                      (map eventForModel existing) (Message.timestamp message)) r
             :: List.concat segs)).
  { simpl. split; [discriminate|]. split; [discriminate|].
    apply InsertsGuarded_concat.
    eapply Forall_impl; [|exact Hsegs]. intros seg. apply Segment_guarded. }
  rewrite Htr in Hguard.
  destruct (InsertsGuarded_spec _ _ _ _ _ Hguard Hd) as [Hfound | [_ [=]]].
  exact Hfound.
Qed.

(** X11.  In every run of [processMessage] a trigger is inserted only for the
    event that the run inserted last before it (the [event_id] of the trigger
    is the identifier that this [insertEvent] answered), and there are seven
    triggers at most for each inserted event: between the insertion of an
    event and the next insertion, or the end of the run, seven triggers at
    most are created, all of them for that event.  So the triggers of the run
    are at most seven times its insertions, and an update or a merge of an
    existing event creates none. *)
Theorem triggers_belong_to_inserted_event (message : Message.t)
    (context : list string) (senderName : option string) (existing : list Event.t)
    (tr : list Step) (out : Res IngestionResult.t) :
  Runs (processMessage message context senderName existing) tr out ->
  (forall before s after t,
      tr = (before ++ s :: after)%list ->
      triggerOf s = Some t ->
      exists earlier insertion between,
        before = (earlier ++ insertion :: between)%list
        /\ insertedId insertion = Some (Trigger.event_id t)
        /\ Forall (fun x => insertedId x = None) between)
  /\ (forall before s after i,
        tr = (before ++ s :: after)%list ->
        insertedId s = Some i ->
        triggersIn (untilInsertion after) <= 7
        /\ Forall (fun x => forall t, triggerOf x = Some t -> Trigger.event_id t = i)
             (untilInsertion after))
  /\ triggersIn (untilInsertion tr) = 0
  /\ triggersIn tr <= 7 * insertsIn tr.
Proof.
  intros HR.
  apply processMessage_segments in HR as (ms & r & segs & -> & Hsegs & _).
  set (call := Ev (extractEvents (Message.content message) context (toISOString ms)
                     (map eventForModel existing) (Message.timestamp message)) r).
  assert (Hcalm : Calm (Tick ms :: call :: List.concat segs)).
  { change (Calm ([Tick ms; call] ++ List.concat segs)).
    apply Calm_app; [apply Calm_quiet; repeat constructor|].
    apply Calm_concat. eapply Forall_impl; [|exact Hsegs].
    intros seg. apply Segment_calm. }
  split; [|split; [|split]].
  - intros before s after t Htr Ht.
    assert (Howned : TriggersOwned None (Tick ms :: call :: List.concat segs)).
    { simpl. split; [discriminate|]. split; [discriminate|].
      apply TriggersOwned_concat.
      eapply Forall_impl; [|exact Hsegs]. intros seg. apply Segment_owned. }
    rewrite Htr in Howned.
    destruct (TriggersOwned_spec _ _ _ _ _ Howned Ht) as [Hfound | [_ [=]]].
    exact Hfound.
  - intros before s after i Htr Hi. destruct Hcalm as [Hseven _].
    rewrite Htr in Hseven. exact (SevenEach_spec _ _ _ _ Hseven Hi).
  - apply triggersIn_quiet. exact (proj2 Hcalm).
  - subst call. rewrite !triggersIn_cons, !insertsIn_cons. simpl.
    apply concat_bounded.
    eapply Forall_impl; [|exact Hsegs]. intros seg. apply Segment_bounded.
Qed.

(** X12.  In every run of [processMessage] an [updateEvent] names at least
    one field to change and never has the identifier 0 as its target. *)
Theorem updates_carry_fields (message : Message.t)
    (context : list string) (senderName : option string) (existing : list Event.t)
    (tr : list Step) (out : Res IngestionResult.t) :
  Runs (processMessage message context senderName existing) tr out ->
  forall s target fields,
    In s tr -> updatedEvent s = Some (target, fields) ->
    UpdateFields.hasKeys fields = true /\ target <> 0.
Proof.
  intros HR s target fields Hin Hs.
  apply processMessage_segments in HR as (ms & r & segs & -> & Hsegs & _).
  destruct Hin as [<- | [<- | Hin]]; try discriminate.
  apply in_concat in Hin as (seg & Hseg & Hin).
  rewrite Forall_forall in Hsegs.
  pose proof (Segment_updates _ _ _ _ (Hsegs seg Hseg)) as Hall.
  rewrite Forall_forall in Hall. exact (Hall s Hin target fields Hs).
Qed.

End WithBuiltins.

(** ** The list of the created events *)

Lemma storedIds_app (tr1 tr2 : list Step) :
  storedIds (tr1 ++ tr2) = (storedIds tr1 ++ storedIds tr2)%list.
Proof.
  unfold storedIds. induction tr1 as [|s tr1 IH]; simpl; [reflexivity|].
  destruct (storedId s); simpl; now rewrite IH.
Qed.

Lemma countsEvent_storedId (s : Step) : countsEvent s = isSome (storedId s).
Proof.
  destruct s as [X c r|ms]; [|reflexivity].
  destruct c; try reflexivity; destruct r as [x|]; try reflexivity.
  destruct x; reflexivity.
Qed.

Lemma eventsIn_storedIds (tr : list Step) :
  eventsIn tr = Z.of_nat (List.length (storedIds tr)).
Proof.
  unfold storedIds. induction tr as [|s tr IH]; [reflexivity|].
  rewrite eventsIn_cons, countsEvent_storedId, IH. cbn [map Matcher.definedOnly].
  destruct (storedId s); cbn [isSome List.length]; lia.
Qed.

Lemma setLastConflicts_ids (c : list ConflictInfo.t) (l : list CreatedEvent.t) :
  map CreatedEvent.id (setLastConflicts c l) = map CreatedEvent.id l.
Proof.
  induction l as [|e [|e' rest] IH]; [reflexivity|reflexivity|].
  change (setLastConflicts c (e :: e' :: rest))
    with (e :: setLastConflicts c (e' :: rest)).
  cbn [map]. now rewrite IH.
Qed.

Lemma Listed_ret {A} (a : A) : Listed (retB a).
Proof.
  intros acc tr out [-> ->]. exists (Ok a), acc.
  split; [reflexivity|]. now rewrite app_nil_r.
Qed.

Lemma Listed_update (f : Locals -> Locals) :
  (forall acc, map CreatedEvent.id (createdEvents (f acc))
               = map CreatedEvent.id (createdEvents acc)) ->
  Listed (update f).
Proof.
  intros Hf acc tr out [-> ->]. exists (Ok tt), (f acc).
  split; [reflexivity|]. rewrite Hf. now rewrite app_nil_r.
Qed.

Lemma Listed_now : Listed nowB.
Proof.
  intros acc tr out (ms & tr' & -> & [-> ->]). exists (Ok ms), acc.
  split; [reflexivity|]. now rewrite app_nil_r.
Qed.

Lemma Listed_call {X} (c : Call X) :
  (forall r, storedId (Ev c r) = None) -> Listed (callB c).
Proof.
  intros Hc acc tr out HR. apply RunsB_call in HR as (r & -> & ->).
  exists r, acc. split; [reflexivity|].
  unfold storedIds. cbn [map Matcher.definedOnly]. rewrite Hc. now rewrite app_nil_r.
Qed.

Lemma Listed_bind {A B} (m : Body A) (f : A -> Body B) :
  Listed m -> (forall a, Listed (f a)) -> Listed (bindB m f).
Proof.
  intros Hm Hf acc tr out HR.
  apply RunsB_bind in HR
    as [(tr1 & a & acc1 & tr2 & H1 & H2 & ->) | [(acc1 & H1 & ->) | [H1 ->]]];
    destruct (Hm _ _ _ H1) as (r1 & acc1' & E & Hids); try discriminate.
  - injection E as <- <-.
    destruct (Hf a _ _ _ H2) as (r2 & acc2 & -> & Hids2).
    exists r2, acc2. split; [reflexivity|].
    now rewrite Hids2, Hids, storedIds_app, app_assoc.
  - injection E as <- <-. exists Err, acc1. auto.
Qed.

Lemma Listed_forEach {A} (l : list A) (body : A -> Body unit) :
  (forall x, Listed (body x)) -> Listed (forEach l body).
Proof.
  intros Hb. induction l as [|x rest IH]; simpl.
  - apply Listed_ret.
  - apply Listed_bind; auto.
Qed.

(** [const eventId = insertEvent(eventData); eventsCreated++;
    createdEvents.push({ id: eventId, ... }); ...] *)
Lemma Listed_insertEvent {B} (d : Event.t) (entry : Z -> CreatedEvent.t)
    (rest : Z -> Body B) :
  (forall i, CreatedEvent.id (entry i) = i) ->
  (forall i, Listed (rest i)) ->
  Listed (bindB (callB (insertEvent d))
            (fun i => bindB (update countEvent)
                        (fun _ => bindB (update (pushCreated (entry i)))
                                    (fun _ => rest i)))).
Proof.
  intros Hentry Hrest acc tr out (r & tr' & -> & HR).
  destruct r as [i|]; simpl in HR.
  - destruct (Hrest i _ _ _ HR) as (r & acc' & -> & Hids).
    exists r, acc'. split; [reflexivity|]. rewrite Hids.
    cbn [createdEvents pushCreated countEvent]. rewrite map_app. cbn [map].
    rewrite Hentry, <- app_assoc. reflexivity.
  - destruct HR as [-> ->]. exists Err, acc. split; [reflexivity|].
    now rewrite app_nil_r.
Qed.

(** [const updated = updateEvent(id, ...); if (updated) {
    createdEvents.push({ id, ... }); eventsCreated++ }] *)
Lemma Listed_updateEvent (i : Z) (fields : UpdateFields.t) (e : CreatedEvent.t) :
  CreatedEvent.id e = i ->
  Listed (bindB (callB (updateEvent i fields))
            (fun updated : bool =>
               if updated
               then bindB (update (pushCreated e)) (fun _ => update countEvent)
               else retB tt)).
Proof.
  intros He acc tr out (r & tr' & -> & HR).
  destruct r as [[|]|]; simpl in HR; destruct HR as [-> ->].
  - exists (Ok tt), (countEvent (pushCreated e acc)). split; [reflexivity|].
    cbn [createdEvents pushCreated countEvent]. rewrite map_app. cbn [map].
    now rewrite He.
  - exists (Ok tt), acc. split; [reflexivity|]. now rewrite app_nil_r.
  - exists Err, acc. split; [reflexivity|]. now rewrite app_nil_r.
Qed.

Ltac listed_step :=
  match goal with
  | |- Listed (bindB (callB (insertEvent _)) _) =>
      apply Listed_insertEvent; [intros ?; reflexivity|intros ?]
  | |- Listed (bindB (callB (updateEvent _ _)) _) =>
      apply Listed_updateEvent; reflexivity
  | |- Listed (bindB _ _) => apply Listed_bind; [|intros ?]
  | |- Listed (retB _) => apply Listed_ret
  | |- Listed (update _) =>
      apply Listed_update; intros ?;
      first [reflexivity | apply setLastConflicts_ids]
  | |- Listed (callB _) => apply Listed_call; intros ?; reflexivity
  | |- Listed nowB => apply Listed_now
  | |- Listed (forEach _ _) => apply Listed_forEach; intros ?
  | |- Listed (match ?x with _ => _ end) => destruct x
  | |- Listed (if ?b then _ else _) => destruct b
  | |- Listed (let '(_, _) := ?p in _) => destruct p
  end.

Section Lists.
Context `{Builtins}.

Lemma createEvent_listed message senderName event :
  Listed (createEvent message senderName event).
Proof.
  unfold createEvent, createTime, noteConflicts, timeTriggers, locationTrigger,
    keywordTriggers, addTrigger.
  repeat listed_step.
Qed.

Lemma applyUpdate_listed senderName existing action target event :
  Listed (applyUpdate senderName existing action target event).
Proof.
  unfold applyUpdate, updateFieldsOf, updateTime. repeat listed_step.
Qed.

Lemma processMessageBody_listed message context senderName existing :
  Listed (processMessageBody message context senderName existing).
Proof.
  unfold processMessageBody, processCandidate.
  repeat first [apply applyUpdate_listed | apply createEvent_listed | listed_step].
Qed.

(** X13.  The result of [processMessage] lists what was stored: its [events]
    has one entry for each [insertEvent] that succeeded and each [updateEvent]
    that answered [true], in the order of the calls, with the identifier that
    the insertion answered or the update was made on; and [eventsCreated] is
    the length of that list.  This holds also when a later call failed. *)
Theorem result_lists_stored_events (message : Message.t)
    (context : list string) (senderName : option string) (existing : list Event.t)
    (tr : list Step) (out : Res IngestionResult.t) :
  Runs (processMessage message context senderName existing) tr out ->
  exists result created,
    out = Ok result
    /\ IngestionResult.events result = Some created
    /\ map CreatedEvent.id created = storedIds tr
    /\ IngestionResult.eventsCreated result = Z.of_nat (List.length created).
Proof.
  unfold processMessage. intros HR.
  apply Runs_bind_inv in HR as [(tr1 & res & tr2 & H1 & [-> ->] & ->) | [H1 ->]].
  - rewrite app_nil_r.
    destruct (processMessageBody_listed _ _ _ _ _ _ _ H1) as (r & acc & E & Hids).
    destruct (processMessageBody_accounted _ _ _ _ _ _ _ H1)
      as (r' & acc' & E' & Hcount & _).
    rewrite E in E'. injection E' as <- <-. injection E as ->.
    exists (resultOf message acc), (createdEvents acc).
    cbn [resultOf IngestionResult.events IngestionResult.eventsCreated snd].
    cbn [acc0 createdEvents eventsCreated map app] in Hids, Hcount.
    repeat split; [exact Hids|].
    rewrite Hcount, eventsIn_storedIds, <- Hids, length_map. lia.
  - destruct (processMessageBody_accounted _ _ _ _ _ _ _ H1) as (r & acc & [=] & _).
Qed.

Lemma forEach_low_confidence (message : Message.t) (senderName : option string)
    (existing : list Event.t) (extraction : list Extracted.t) (acc : Locals) :
  Forall (fun e => (Extracted.confidence e <? 0.65)%float = true) extraction ->
  forEach extraction (processCandidate message senderName existing) acc
  = Ret (Ok tt, acc).
Proof.
  induction 1 as [|e rest He _ IH]; [reflexivity|].
  cbn [forEach]. unfold bindB at 1. unfold processCandidate at 1. rewrite He.
  cbn [retB bind continue]. exact IH.
Qed.

(** X14.  When every candidate that the model extracted has a confidence
    below 0.65, [processMessage] makes no step after the call of the model:
    nothing is looked up and nothing is written, and the result reports no
    event and no trigger. *)
Theorem low_confidence_stores_nothing (message : Message.t)
    (context : list string) (senderName : option string) (existing : list Event.t)
    (tr : list Step) (out : Res IngestionResult.t) :
  Runs (processMessage message context senderName existing) tr out ->
  (forall s extraction,
      In s tr -> extractionOf s = Some extraction ->
      Forall (fun e => (Extracted.confidence e <? 0.65)%float = true) extraction) ->
  List.length tr = 2%nat
  /\ Forall (fun s => stepWritesStore s = false) tr
  /\ out = Ok (resultOf message acc0).
Proof.
  unfold processMessage, processMessageBody. intros HR Hlow.
  destruct HR as (ms & tr' & -> & HR). cbn [bind bindB callB continue] in HR.
  destruct HR as (r & tr'' & -> & HR).
  destruct r as [extraction|]; cbn [bind continue] in HR.
  - rewrite forEach_low_confidence in HR.
    + destruct HR as [-> ->]. repeat split. repeat constructor.
    + apply (Hlow (Ev (extractEvents (Message.content message) context
                         (toISOString ms) (map eventForModel existing)
                         (Message.timestamp message)) (Ok extraction)));
        [right; left; reflexivity|reflexivity].
  - destruct HR as [-> ->]. repeat split. repeat constructor.
Qed.

End Lists.

(** The lipstick of [Demo.lipstickSteps] is inserted right after its duplicate
    lookup. *)
Lemma insert_follows_duplicate_check_witness :
  exists earlier lookup clock,
    firstn 3 Demo.lipstickSteps = (earlier ++ lookup :: clock)%list
    /\ duplicateFree lookup = Some ("Buy lipstick for sis", 48)
    /\ Forall (fun x => isTick x = true) clock.
Proof.
  refine (insert_follows_duplicate_check (H := Demo.builtins) Demo.message []
            (Some "Rahul") [] Demo.lipstickSteps _ _
            (firstn 3 Demo.lipstickSteps)
            (Ev (insertEvent (eventDataOf (H := Demo.builtins) Demo.message
                                (Some "Rahul") Demo.lipstick None)) (Ok 12))
            (skipn 4 Demo.lipstickSteps)
            (eventDataOf (H := Demo.builtins) Demo.message (Some "Rahul")
               Demo.lipstick None)
            eq_refl eq_refl).
  run_trace.
Defined.

(** The two keyword triggers of the lipstick, for the one inserted event. *)
Lemma triggers_belong_to_inserted_event_witness :
  triggersIn (untilInsertion (skipn 4 Demo.lipstickSteps)) <= 7
  /\ Forall (fun x => forall t, triggerOf x = Some t -> Trigger.event_id t = 12)
       (untilInsertion (skipn 4 Demo.lipstickSteps)).
Proof.
  refine (proj1 (proj2 (triggers_belong_to_inserted_event (H := Demo.builtins)
                          Demo.message [] (Some "Rahul") [] Demo.lipstickSteps _ _))
            (firstn 3 Demo.lipstickSteps)
            (Ev (insertEvent (eventDataOf (H := Demo.builtins) Demo.message
                                (Some "Rahul") Demo.lipstick None)) (Ok 12))
            (skipn 4 Demo.lipstickSteps) 12 eq_refl eq_refl).
  run_trace.
Defined.

(** The merge of [Demo.mergeSteps] writes two fields of the event 8. *)
Lemma updates_carry_fields_witness :
  UpdateFields.hasKeys Demo.mergeWritten = true /\ 8 <> 0.
Proof.
  refine (updates_carry_fields (H := Demo.builtins) Demo.message []
            (Some "Rahul") [Demo.partyEvent] Demo.mergeSteps _ _
            (Ev (updateEvent 8 Demo.mergeWritten) (Ok true)) 8 Demo.mergeWritten
            _ eq_refl).
  - run_trace.
  - right. right. left. reflexivity.
Defined.

(** The failing run of [Demo.failingSteps] lists the dinner that it stored. *)
Lemma result_lists_stored_events_witness :
  exists result created,
    Ok Demo.failingResult = Ok result
    /\ IngestionResult.events result = Some created
    /\ map CreatedEvent.id created = storedIds Demo.failingSteps
    /\ IngestionResult.eventsCreated result = Z.of_nat (List.length created).
Proof.
  refine (result_lists_stored_events (H := Demo.builtins) Demo.message []
            (Some "Rahul") [] Demo.failingSteps (Ok Demo.failingResult) _).
  run_trace.
Defined.

(** A candidate of confidence 0.5 is passed over. *)
Lemma low_confidence_stores_nothing_witness :
  List.length Samples.unsureSteps = 2%nat
  /\ Forall (fun s => stepWritesStore s = false) Samples.unsureSteps
  /\ Ok (resultOf Demo.message acc0) = Ok (resultOf Demo.message acc0).
Proof.
  refine (low_confidence_stores_nothing (H := Demo.builtins) Demo.message []
            (Some "Rahul") [] Samples.unsureSteps (Ok (resultOf Demo.message acc0))
            _ _).
  - run_trace.
  - intros s extraction [<- | [<- | []]]; [discriminate|].
    intros [= <-]. repeat constructor.
Defined.

End ExtractionFacts.

(* ------------------------------------------------------------------ *)
(** ** ingestion.ts: the time of an event                               *)
(* ------------------------------------------------------------------ *)

Module TimeFacts.
Import Collab CollabFacts Ingestion IngestionFacts Shape ShapeFacts ExtractionFacts.

Lemma lastStep_after (b : Step) (l : list Step) :
  lastStep (b :: l) = match lastStep l with Some x => Some x | None => Some b end.
Proof.
  revert b. induction l as [|c l IH]; intros b; [reflexivity|].
  change (lastStep (b :: c :: l)) with (lastStep (c :: l)).
  rewrite (IH c). now destruct (lastStep l).
Qed.

Section WithBuiltins.
Context `{Builtins}.
Variables (message : Message.t) (senderName : option string).
Variable candidates : list Extracted.t.

Local Abbreviation Read := (TimesRead message senderName candidates).

Lemma storedTimeOf_later (text : option string) (clock : list Step)
    (stored : option Z) (previous : option Step) :
  storedTimeOf text (lastStep clock) stored ->
  storedTimeOf text
    (match lastStep clock with Some x => Some x | None => previous end) stored.
Proof.
  unfold storedTimeOf. destruct (truthyStr text) as [s|]; [|auto].
  destruct (parseUnix s) as [parsed|]; [|auto].
  intros (nowMs & -> & ->). eauto.
Qed.

Lemma TimesRead_app (previous : option Step) (tr1 tr2 : list Step) :
  Read previous tr1 -> (forall p, Read p tr2) -> Read previous (tr1 ++ tr2).
Proof.
  revert previous. induction tr1 as [|s tr1 IH]; intros previous; simpl; [auto|].
  intros [Hs Hrest] H2. split; auto.
Qed.

Lemma TimesRead_quiet (tr : list Step) :
  Forall (fun s => insertedEvent s = None) tr -> forall p, Read p tr.
Proof.
  induction 1 as [|s tr Hs _ IH]; intros p; simpl; [exact I|].
  split; [|apply IH]. intros d Hd. congruence.
Qed.

Lemma TimesRead_clock (clock rest : list Step) :
  Forall (fun s => isTick s = true) clock ->
  forall previous,
    Read (match lastStep clock with Some x => Some x | None => previous end) rest ->
    Read previous (clock ++ rest).
Proof.
  induction 1 as [|s clock Hs _ IH]; intros previous Hrest; [exact Hrest|].
  destruct s as [X c r|ms]; [discriminate|].
  cbn [app TimesRead]. split; [discriminate|].
  apply IH. rewrite lastStep_after in Hrest. now destruct (lastStep clock).
Qed.

Lemma TimesRead_concat (segs : list (list Step)) :
  Forall (fun seg => forall p, Read p seg) segs ->
  forall p, Read p (List.concat segs).
Proof.
  induction 1 as [|seg segs Hseg _ IH]; intros p; simpl; [exact I|].
  apply TimesRead_app; auto.
Qed.

(** What [TimesRead] says of one insertion. *)
Lemma TimesRead_spec (previous : option Step) (before : list Step) (s : Step)
    (after : list Step) (d : Event.t) :
  Read previous (before ++ s :: after) ->
  insertedEvent s = Some d ->
  exists event,
    In event candidates
    /\ d = eventDataOf message senderName event (Event.event_time d)
    /\ storedTimeOf (Extracted.event_time event)
         (match lastStep before with Some x => Some x | None => previous end)
         (Event.event_time d).
Proof.
  revert previous. induction before as [|b before IH]; intros previous; simpl.
  - intros [Hs _] Hd. exact (Hs d Hd).
  - intros [_ Hrest] Hd. destruct (IH _ Hrest Hd) as (event & Hin & Hdata & Htime).
    exists event. split; [exact Hin|]. split; [exact Hdata|].
    change (last (Some b :: map Some before) None) with (lastStep (b :: before)).
    rewrite lastStep_after. now destruct (lastStep before).
Qed.

Lemma Segment_times (seg : list Step) :
  Segment message senderName candidates seg -> forall p, Read p seg.
Proof.
  intros [clock Hclock | clock target fields r Hclock _ _ | title r _
         | event clock eventTime r after Hin Hclock Htime Hafter] p.
  - apply TimesRead_quiet. apply clock_quiet in Hclock as (_ & _ & Hall).
    eapply Forall_impl; [|exact Hall]. cbv beta. tauto.
  - apply TimesRead_clock; [exact Hclock|]. simpl. split; [discriminate|exact I].
  - simpl. split; [discriminate|exact I].
  - cbn [TimesRead]. split; [discriminate|].
    apply TimesRead_clock; [exact Hclock|]. cbn [TimesRead]. split.
    + intros d [= <-]. exists event. split; [exact Hin|]. split; [reflexivity|].
      apply storedTimeOf_later. exact Htime.
    + destruct r as [eventId|]; [|subst after; exact I].
      destruct Hafter as [Hafter _]. apply TimesRead_quiet.
      apply follows_quiet in Hafter as [_ Hall].
      eapply Forall_impl; [|exact Hall]. cbv beta. tauto.
Qed.

End WithBuiltins.

Section Claims.
Context `{Builtins}.

(** C4 (as amended).  In the create path a time string that does not parse
    leaves the event time absent; a parsed Unix time more than 3600 seconds
    before the clock is advanced by whole weeks of 7*24*3600 seconds to the
    first value that is not before the clock; a parsed time at most one hour in
    the past, or in the future, is kept.  The value is what is stored: in
    every run of [processMessage] the event handed to [insertEvent] is built
    from one of the candidates that the model answered, and its [event_time]
    is absent when the time text of the candidate is absent, empty or no date,
    and else is the parsed time normalized against the clock reading made
    just before the insertion.  The new time of a [modify] is normalized in
    the same way when the parsed time is positive, and is then the time of the
    pending action; a parsed time of 0 or less is dropped there, as an
    unparsable one is. *)
Theorem time_normalization (s : string) :
  s <> EmptyString ->
  (forall acc, parseUnix s = None -> createTime (Some s) acc = Ret (Ok None, acc))
  /\ (forall acc t, parseUnix s = Some t ->
        createTime (Some s) acc
        = Clock (fun nowMs => Ret (Ok (Some (pushPastForward t (nowMs / 1000))), acc)))
  /\ (forall t nowUnix, t < nowUnix - 3600 ->
        exists n, 0 < n
                  /\ pushPastForward t nowUnix = t + n * (7 * 24 * 3600)
                  /\ nowUnix <= pushPastForward t nowUnix
                  /\ pushPastForward t nowUnix - 7 * 24 * 3600 < nowUnix)
  /\ (forall t nowUnix, nowUnix - 3600 <= t -> pushPastForward t nowUnix = t)
  /\ (forall message context senderName existing tr out,
        Runs (processMessage message context senderName existing) tr out ->
        forall before x after d,
          tr = (before ++ x :: after)%list ->
          insertedEvent x = Some d ->
          exists answer candidates event,
            nth_error tr 1 = Some answer
            /\ extractionOf answer = Some candidates
            /\ In event candidates
            /\ d = eventDataOf message senderName event (Event.event_time d)
            /\ match truthyStr (Extracted.event_time event) with
               | None => Event.event_time d = None
               | Some text =>
                   match parseUnix text with
                   | None => Event.event_time d = None
                   | Some parsed =>
                       exists nowMs,
                         lastStep before = Some (Tick nowMs)
                         /\ Event.event_time d
                            = Some (pushPastForward parsed (nowMs / 1000))
                   end
               end)
  /\ (parseUnix s = None -> proposedTime (Some s) = Ret None)
  /\ (forall t, parseUnix s = Some t -> 0 < t ->
        proposedTime (Some s)
        = Clock (fun nowMs => Ret (Some (pushPastForward t (nowMs / 1000)))))
  /\ (forall t, parseUnix s = Some t -> t <= 0 -> proposedTime (Some s) = Ret None)
  /\ (forall message a target eventId tr out,
        Detected.action a = "modify" -> Detected.newTime a = Some s ->
        Runs (performAction message a target eventId) tr out ->
        (forall t, parseUnix s = Some t -> 0 < t ->
           exists nowMs pending,
             tr = [Tick nowMs]
             /\ out = Ok (pendingResult (Message.id message) pending)
             /\ Changes.event_time (PendingAction.changes pending)
                = Some (pushPastForward t (nowMs / 1000)))
        /\ (parseUnix s = None \/ (exists t, parseUnix s = Some t /\ t <= 0) ->
            tr = []
            /\ forall any pending,
                 out = Ok (pendingResult any pending) ->
                 Changes.event_time (PendingAction.changes pending) = None)).
Proof.
  intros Hs. destruct s as [|c s']; [congruence|]. clear Hs.
  split; [|split; [|split; [|split; [|split; [|split; [|split; [|split]]]]]]].
  - intros acc E. unfold createTime. cbn [truthyStr]. now rewrite E.
  - intros acc t E. unfold createTime. cbn [truthyStr]. now rewrite E.
  - intros t nowUnix Hlt. apply (pushPastForward_spec t nowUnix). exact Hlt.
  - intros t nowUnix Hge. apply (pushPastForward_spec t nowUnix). exact Hge.
  - intros message context senderName existing tr out HR before x after d Htr Hd.
    apply processMessage_segments in HR as (ms & r & segs & -> & Hsegs & Herr).
    destruct r as [extraction|].
    + set (call := Ev (extractEvents (Message.content message) context
                         (toISOString ms) (map eventForModel existing)
                         (Message.timestamp message)) (Ok extraction)) in *.
      assert (Hread : TimesRead message senderName extraction None
                        (Tick ms :: call :: List.concat segs)).
      { cbn [TimesRead]. split; [discriminate|]. split; [discriminate|].
        apply TimesRead_concat.
        eapply Forall_impl; [|exact Hsegs]. intros seg. apply Segment_times. }
      rewrite Htr in Hread.
      destruct (TimesRead_spec _ _ _ _ _ _ _ _ Hread Hd)
        as (event & Hin & Hdata & Htime).
      exists call, extraction, event.
      split; [reflexivity|]. split; [reflexivity|]. split; [exact Hin|].
      split; [exact Hdata|].
      replace (match lastStep before with Some y => Some y | None => None end)
        with (lastStep before) in Htime by (now destruct (lastStep before)).
      exact Htime.
    + rewrite (Herr eq_refl) in Htr. exfalso.
      assert (Hx : In x [Tick ms;
                         Ev (extractEvents (Message.content message) context
                               (toISOString ms) (map eventForModel existing)
                               (Message.timestamp message)) Err]).
      { change (List.concat []) with (@nil Step) in Htr. rewrite Htr.
        apply in_or_app. right. now left. }
      destruct Hx as [<- | [<- | []]]; discriminate.
  - intros E. unfold proposedTime. cbn [truthyStr]. now rewrite E.
  - intros t E Hpos. unfold proposedTime. cbn [truthyStr]. rewrite E.
    replace (0 <? t) with true by (symmetry; apply Z.ltb_lt; lia). reflexivity.
  - intros t E Hneg. unfold proposedTime. cbn [truthyStr]. rewrite E.
    replace (0 <? t) with false by (symmetry; apply Z.ltb_ge; lia). reflexivity.
  - intros message a target eventId tr out Hmodify Hnew HR.
    destruct (performAction_modify a _ _ _ _ _ HR Hmodify) as [_ (t & Ht & Hout)].
    rewrite Hnew in Ht. cbn [truthyStr] in Ht. split.
    + intros parsed E Hpos. rewrite E in Ht.
      replace (0 <? parsed) with true in Ht by (symmetry; apply Z.ltb_lt; lia).
      destruct Ht as (nowMs & -> & ->). cbv zeta in Hout.
      cbn [Changes.hasKeys Changes.event_time isSome orb] in Hout.
      exists nowMs. eexists. split; [reflexivity|]. split; [exact Hout|reflexivity].
    + intros Hbad.
      assert (Hnone : t = None /\ tr = []).
      { destruct Hbad as [E | (parsed & E & Hneg)]; rewrite E in Ht; [exact Ht|].
        replace (0 <? parsed) with false in Ht
          by (symmetry; apply Z.ltb_ge; lia).
        exact Ht. }
      destruct Hnone as [-> ->]. split; [reflexivity|].
      intros any pending E. cbv zeta in Hout. rewrite Hout in E.
      match type of E with
      | Ok (if ?b then _ else _) = _ => destruct b
      end; [|discriminate].
      unfold pendingResult in E. injection E as _ E. subst pending. reflexivity.
Qed.

End Claims.

(** C4, the claim as stated fails: a time exactly one week before the clock
    is stored as the time of the clock itself, which is not in the future; and
    for a time string of 1969 the create path stores a time advanced past the
    clock while the [modify] path proposes no time at all. *)
Lemma week_old_time_is_stored_as_now :
  (exists r,
      Runs (processMessage (H := Demo.builtins) Demo.message [] (Some "Rahul") [])
           Demo.lastWeekSteps (Ok r))
  /\ nth_error Demo.lastWeekSteps 3 = Some (Tick Demo.clock)
  /\ option_map Event.event_time
       (nth_error (Matcher.definedOnly (map insertedEvent Demo.lastWeekSteps)) 0)
     = Some (Some (Demo.clock / 1000))
  /\ Runs (createTime (H := Demo.builtins) (Some Demo.oldDate) acc0)
          [Tick Demo.clock] (Ok (Ok (Some 1700006400), acc0))
  /\ Runs (proposedTime (H := Demo.builtins) (Some Demo.oldDate)) [] (Ok None).
Proof.
  split; [eexists; run_trace|].
  split; [reflexivity|]. split; [reflexivity|]. split; run_trace.
Qed.

(** The time string of the dinner in the create path, and the time stored
    with the dinner in the run of [Demo.failingSteps]. *)
Lemma time_normalization_witness :
  createTime (H := Demo.builtins) (Some "2030-01-01T10:00:00Z") acc0
  = Clock (fun nowMs =>
             Ret (Ok (Some (pushPastForward 1893492000 (nowMs / 1000))), acc0))
  /\ exists nowMs,
       lastStep (firstn 4 Demo.failingSteps) = Some (Tick nowMs)
       /\ Some Demo.dinnerTime = Some (pushPastForward 1893492000 (nowMs / 1000)).
Proof.
  pose proof (time_normalization (H := Demo.builtins) "2030-01-01T10:00:00Z"
                ltac:(discriminate)) as (_ & Hcreate & _ & _ & Hstored & _).
  split; [exact (Hcreate acc0 1893492000 eq_refl)|].
  destruct (Hstored Demo.message [] (Some "Rahul") [] Demo.failingSteps
              (Ok Demo.failingResult) ltac:(run_trace)
              (firstn 4 Demo.failingSteps)
              (Ev (insertEvent (eventDataOf (H := Demo.builtins) Demo.message
                                  (Some "Rahul") Demo.dinner (Some Demo.dinnerTime)))
                  (Ok 11))
              (skipn 5 Demo.failingSteps) _ eq_refl eq_refl)
    as (answer & candidates & event & Hanswer & Hcandidates & Hin & _ & Htime).
  injection Hanswer as <-. injection Hcandidates as <-.
  destruct Hin as [<- | []]. exact Htime.
Defined.

End TimeFacts.

(* ------------------------------------------------------------------ *)
(** ** ingestion.ts: actions, skips and failures of the intake          *)
(* ------------------------------------------------------------------ *)

Module IntakeFacts.
Import Collab CollabFacts Ingestion IngestionFacts Shape.

(** The actions whose handler changes the store. *)
Local Abbreviation mutating :=
  ["cancel"; "delete"; "complete"; "ignore"; "snooze"; "postpone"].

Lemma call_then_ret {X A} (c : Call X) (a : A) (tr : list Step) (out : Res A) :
  Runs (call c ;; Ret a)%prog tr out ->
  exists r, tr = [Ev c r] /\ out = (if isOk r then Ok a else Err).
Proof.
  intros (r & tr' & -> & HR). exists r.
  destruct r; simpl in HR; destruct HR as [-> ->]; auto.
Qed.

Lemma lastStep_cons (s : Step) (tr : list Step) :
  tr <> [] -> lastStep (s :: tr) = lastStep tr.
Proof. destruct tr; [congruence|reflexivity]. Qed.

Lemma lastStep_app (tr1 tr2 : list Step) :
  tr2 <> [] -> lastStep (tr1 ++ tr2) = lastStep tr2.
Proof.
  intros Hne. induction tr1 as [|s tr1 IH]; [reflexivity|].
  simpl app. rewrite lastStep_cons; [exact IH|].
  destruct tr1; simpl; [assumption|discriminate].
Qed.

Lemma lastStep_in (tr : list Step) (s : Step) : lastStep tr = Some s -> In s tr.
Proof.
  induction tr as [|x tr IH]; [discriminate|].
  destruct tr as [|y tr'].
  - intros [= <-]. now left.
  - rewrite lastStep_cons by discriminate. intros Hs. right. auto.
Qed.

Section WithBuiltins.
Context `{Builtins}.

(** The result that reports the action [a] on [target] as done. *)
Local Abbreviation reported message a target eventId text :=
  (performedResult (Message.id message)
     {| ActionResult.action := Detected.action a;
        ActionResult.targetEventId := eventId;
        ActionResult.targetEventTitle := Event.title target;
        ActionResult.message := text |}).

(** Every run of a handler: one mutation of [eventId] and the report of it;
    or, for a [modify] and for an action that has no handler, no call at all,
    a clock reading at most, and a result. *)
Lemma performAction_runs (message : Message.t) (a : Detected.t) (target : Event.t)
    (eventId : Z) (tr : list Step) (out : Res IngestionResult.t) :
  Runs (performAction message a target eventId) tr out ->
  (In (Detected.action a) mutating
   /\ exists s text,
        tr = [s] /\ mutationTarget s = Some eventId
        /\ stepWritesStore s = true /\ outsideExtraction s = true
        /\ out = (if stepFailed s then Err
                  else Ok (reported message a target eventId text)))
  \/ (~ In (Detected.action a) mutating
      /\ Forall (fun s => isTick s = true) tr
      /\ exists result,
           out = Ok result
           /\ ((exists text, result = reported message a target eventId text)
               \/ (Detected.action a = "modify"
                   /\ exists changes description,
                        result
                        = pendingResult (Message.id message)
                            {| PendingAction.action := "modify";
                               PendingAction.targetEventId := eventId;
                               PendingAction.targetEventTitle := Event.title target;
                               PendingAction.changes := changes;
                               PendingAction.description := description |}))).
Proof.
  unfold performAction. cbv zeta. intros HR.
  repeat match type of HR with
         | Runs (if (?x =? ?l)%string || _ then _ else _) _ _ =>
             destruct (String.eqb_spec x l); cbn [orb] in HR
         | Runs (if (?x =? ?l)%string then _ else _) _ _ =>
             destruct (String.eqb_spec x l)
         end;
    try (apply call_then_ret in HR as (r & -> & ->); left;
         split; [match goal with E : Detected.action a = _ |- _ => rewrite E end;
                 simpl; tauto|];
         eexists; eexists; split; [reflexivity|];
         repeat split; destruct r; reflexivity).
  - (* modify *)
    right. split; [simpl; intuition congruence|].
    unfold proposeChanges in HR.
    apply Runs_bind_inv in HR as [(tr1 & changes & tr2 & H1 & H2 & ->) | [H1 ->]];
      apply Runs_bind_inv in H1 as [(tr3 & t & tr4 & H3 & H4 & ->) | [H3 E]];
      apply proposedTime_runs in H3 as [_ (t' & E' & Ht)]; try discriminate.
    + destruct H4 as [-> _]. rewrite app_nil_r.
      assert (Hclock : Forall (fun s => isTick s = true) tr3)
        by (destruct Ht as [[_ ->] | (s & parsed & ms & _ & _ & _ & -> & _)];
            repeat constructor).
      destruct (Changes.hasKeys changes); destruct H2 as [-> ->];
        rewrite app_nil_r; (split; [exact Hclock|]);
        eexists; (split; [reflexivity|]).
      * right. split; [assumption|]. eauto.
      * left. eauto.
    + destruct H4 as [_ [=]].
  - (* no handler *)
    right. destruct HR as [-> ->].
    split; [simpl; intuition congruence|]. split; [constructor|].
    eexists. split; [reflexivity|]. left. eauto.
Qed.

(** X15.  The handler of a detected action, for the target [eventId].  It
    writes to the store once at most, and only to the target.  For [cancel],
    [delete], [complete], [ignore], [snooze] and [postpone] it makes exactly one
    call, the mutation of the target: when that call fails the handler throws
    and reports nothing; when it succeeds the result reports the action with
    the identifier and the title of the target.  For any other action it
    changes nothing, and the result names the same target. *)
Theorem action_writes_target_once (message : Message.t) (a : Detected.t)
    (target : Event.t) (eventId : Z) (tr : list Step)
    (out : Res IngestionResult.t) :
  Runs (performAction message a target eventId) tr out ->
  (forall s, In s tr -> stepWritesStore s = true -> mutationTarget s = Some eventId)
  /\ (List.length (filter stepWritesStore tr) <= 1)%nat
  /\ (forall s, In s tr -> stepFailed s = true -> out = Err)
  /\ (In (Detected.action a) mutating ->
      exists s, tr = [s] /\ mutationTarget s = Some eventId
                /\ (stepFailed s = true <-> out = Err))
  /\ (~ In (Detected.action a) mutating ->
      Forall (fun s => stepWritesStore s = false) tr /\ out <> Err)
  /\ (forall result,
        out = Ok result ->
        (exists report,
            IngestionResult.actionPerformed result = Some report
            /\ IngestionResult.pendingAction result = None
            /\ ActionResult.action report = Detected.action a
            /\ ActionResult.targetEventId report = eventId
            /\ ActionResult.targetEventTitle report = Event.title target)
        \/ (exists pending,
              IngestionResult.pendingAction result = Some pending
              /\ IngestionResult.actionPerformed result = None
              /\ PendingAction.targetEventId pending = eventId
              /\ PendingAction.targetEventTitle pending = Event.title target)).
Proof.
  intros HR.
  apply performAction_runs in HR
    as [(Hmut & s & text & -> & Htarget & Hwrites & _ & ->)
       | (Hnot & Hclock & result & -> & Hresult)].
  - repeat apply conj.
    + intros s' [<- | []] _. exact Htarget.
    + simpl. rewrite Hwrites. simpl. lia.
    + intros s' [<- | []] Hfailed. now rewrite Hfailed.
    + intros _. exists s. repeat split; auto.
      * intros Hfailed. now rewrite Hfailed.
      * destruct (stepFailed s); [reflexivity|discriminate].
    + intros Hnot. contradiction.
    + intros result. destruct (stepFailed s); [discriminate|].
      intros [= <-]. left. eexists. repeat split.
  - assert (Hquiet : Forall (fun s => stepWritesStore s = false
                                      /\ stepFailed s = false) tr).
    { eapply Forall_impl; [|exact Hclock].
      intros [X c r|ms]; [discriminate|]. auto. }
    rewrite Forall_forall in Hquiet. repeat apply conj.
    + intros s Hin Hw. destruct (Hquiet s Hin). congruence.
    + replace (filter stepWritesStore tr) with (@nil Step); [simpl; lia|].
      clear -Hclock.
      induction Hclock as [|[X c r|ms] tr' Hs _ IH];
        [reflexivity|discriminate|exact IH].
    + intros s Hin Hf. destruct (Hquiet s Hin). congruence.
    + intros Hmut. contradiction.
    + intros _. split; [|discriminate].
      apply Forall_forall. intros s Hin. now destruct (Hquiet s Hin).
    + intros result' [= <-].
      destruct Hresult as [(text & ->) | (_ & changes & description & ->)].
      * left. eexists. repeat split.
      * right. eexists. repeat split.
Qed.

(** ** Rejection *)

(** [processWebhook] rejects exactly when the last step of the run is a call
    outside the extraction that failed. *)
Local Abbreviation rejects tr out :=
  (out = Err <->
   exists s, lastStep tr = Some s /\ stepFailed s = true
             /\ outsideExtraction s = true).

Lemma rejects_cons {A} (s : Step) (tr : list Step) (out : Res A) :
  stepFailed s = false -> rejects tr out -> rejects (s :: tr) out.
Proof.
  intros Hs Hrej. destruct tr as [|x tr'].
  - split.
    + intros E. apply Hrej in E as (s' & [=] & _).
    + intros (s' & [= <-] & Hf & _). congruence.
  - rewrite lastStep_cons by discriminate. exact Hrej.
Qed.

Lemma rejects_failed {A X} (c : Call X) :
  outsideExtraction (Ev c (@Err X)) = true -> rejects [Ev c (@Err X)] (@Err A).
Proof.
  intros Hc. split; [|reflexivity]. intros _. exists (Ev c Err). auto.
Qed.

Lemma rejects_done {A} (a : A) : rejects (@nil Step) (Ok a).
Proof. split; [discriminate|]. intros (s & [=] & _). Qed.

Lemma extraction_step_inside (message : Message.t) (senderName : option string)
    (s : Step) :
  ExtractionStep message senderName s -> outsideExtraction s = false.
Proof. intros Hs. destruct Hs; reflexivity. Qed.

Lemma extraction_settles (message : Message.t) (context : list string)
    (senderName : option string) (existing : list Event.t)
    (tr : list Step) (out : Res IngestionResult.t) :
  Runs (processMessage message context senderName existing) tr out ->
  rejects tr out
  /\ (exists result, out = Ok result /\ IngestionResult.skipped result = false)
  /\ Forall (fun s => outsideExtraction s = false) tr.
Proof.
  intros HR.
  assert (Hinside : Forall (fun s => outsideExtraction s = false) tr).
  { eapply Forall_impl;
      [|exact (Always_Runs _ _ _ _ (processMessage_steps message senderName
                                       context existing) HR)].
    intros s. apply extraction_step_inside. }
  destruct (processMessage_result _ _ _ _ _ _ HR) as [_ [acc ->]].
  repeat split; [discriminate| |eauto|exact Hinside].
  intros (s & Hlast & _ & Hout). apply lastStep_in in Hlast.
  rewrite Forall_forall in Hinside. rewrite (Hinside s Hlast) in Hout. discriminate.
Qed.

Lemma performAction_settles (message : Message.t) (a : Detected.t)
    (target : Event.t) (eventId : Z) (tr : list Step)
    (out : Res IngestionResult.t) :
  Runs (performAction message a target eventId) tr out ->
  rejects tr out
  /\ (forall result, out = Ok result -> IngestionResult.skipped result = false).
Proof.
  intros HR.
  apply performAction_runs in HR
    as [(_ & s & text & -> & _ & _ & Hout & ->)
       | (_ & Hclock & result & -> & Hresult)].
  - destruct (stepFailed s) eqn:Hf; split; try discriminate.
    + split; [|reflexivity]. intros _. exists s. auto.
    + split; [discriminate|]. intros (s' & [= <-] & Hf' & _). congruence.
    + intros result [= <-]. reflexivity.
  - split.
    + split; [discriminate|]. intros (s & Hlast & Hf & _).
      apply lastStep_in in Hlast. rewrite Forall_forall in Hclock.
      specialize (Hclock s Hlast). destruct s; discriminate.
    + intros result' [= <-].
      destruct Hresult as [(text & ->) | (_ & changes & description & ->)];
        reflexivity.
Qed.

Lemma routeAction_settles (message : Message.t) (context : list string)
    (senderName : option string) (activeEvents : list Event.t) (a : Detected.t)
    (tr : list Step) (out : Res IngestionResult.t) :
  Runs (routeAction message context senderName activeEvents a) tr out ->
  rejects tr out
  /\ (forall result, out = Ok result -> IngestionResult.skipped result = false).
Proof.
  assert (Hextraction : forall tr' out',
    Runs (processMessage message context senderName activeEvents) tr' out' ->
    rejects tr' out'
    /\ (forall result, out' = Ok result -> IngestionResult.skipped result = false)).
  { intros tr' out' HR. apply extraction_settles in HR as (Hrej & (r & -> & Hr) & _).
    split; [exact Hrej|]. now intros result [= <-]. }
  assert (Hresolved : forall (targetEvent : option Event.t) tr' out',
    Runs (match targetEvent with
          | Some target =>
              match truthyNum (Event.id target) with
              | Some eventId => performAction message a target eventId
              | None => processMessage message context senderName activeEvents
              end
          | None => processMessage message context senderName activeEvents
          end) tr' out' ->
    rejects tr' out'
    /\ (forall result, out' = Ok result -> IngestionResult.skipped result = false)).
  { intros [target|] tr' out'; [|apply Hextraction].
    destruct (truthyNum (Event.id target)); [|apply Hextraction].
    apply performAction_settles. }
  unfold routeAction, findTarget.
  destruct (isRealAction a); [|apply Hextraction].
  destruct (Detected.targetKeywords a) as [|kw kws].
  - cbn [bind]. apply Hresolved.
  - cbn [bind call]. intros (r & tr' & -> & HR).
    destruct r as [found|]; cbn [bind] in HR.
    + apply Hresolved in HR as [Hrej Hskip].
      split; [now apply rejects_cons|exact Hskip].
    + destruct HR as [-> ->]. split; [now apply rejects_failed|discriminate].
Qed.

(** What [processWebhook] returns: a skip with its reason, before anything is
    done or after the message and the contact are stored; or a result that
    is not a skip, after the model was called. *)
Lemma processWebhook_results (data : Webhook.t) (options : Options)
    (tr : list Step) (result : IngestionResult.t) :
  Runs (processWebhook data options) tr (Ok result) ->
  (exists reason,
      result = skippedResult (Webhook.id data) reason
      /\ ((In reason ["no_content"; "own_message"; "group_message"] /\ tr = [])
          \/ (reason = "trivial_message"
              /\ exists m c, tr = [Ev (insertMessage m) (Ok tt);
                                   Ev (upsertContact c) (Ok tt)])))
  \/ (IngestionResult.skipped result = false
      /\ exists m c rest,
           tr = Ev (insertMessage m) (Ok tt)
                :: Ev (upsertContact c) (Ok tt) :: rest
           /\ existsb stepIsModelCall rest = true).
Proof.
  unfold processWebhook.
  destruct (truthyStr _) as [content|].
  2:{ intros [-> E]. injection E as E. subst result. left. eexists. split; [reflexivity|].
      left. split; [simpl; tauto|reflexivity]. }
  destruct (_ && _).
  { intros [-> E]. injection E as E. subst result. left. eexists. split; [reflexivity|].
    left. split; [simpl; tauto|reflexivity]. }
  destruct (_ && _).
  { intros [-> E]. injection E as E. subst result. left. eexists. split; [reflexivity|].
    left. split; [simpl; tauto|reflexivity]. }
  cbv zeta. cbn [bind call]. intros (r1 & tr1 & -> & HR).
  destruct r1 as [[]|]; cbn [bind] in HR; [|destruct HR as [_ [=]]].
  destruct HR as (r2 & tr2 & -> & HR).
  destruct r2 as [[]|]; cbn [bind] in HR; [|destruct HR as [_ [=]]].
  destruct (shouldSkipMessage content).
  { destruct HR as [-> E]. injection E as E. subst result. left. eexists. split; [reflexivity|].
    right. split; [reflexivity|]. eauto. }
  cbn [bind call] in HR. destruct HR as (r3 & tr3 & -> & HR).
  destruct r3 as [recentMessages|]; cbn [bind] in HR; [|destruct HR as [_ [=]]].
  destruct HR as (r4 & tr4 & -> & HR).
  destruct r4 as [activeEvents|]; cbn [bind] in HR; [|destruct HR as [_ [=]]].
  destruct HR as (r5 & tr5 & -> & HR).
  destruct r5 as [actionResult|]; cbn [bind] in HR; [|destruct HR as [_ [=]]].
  apply routeAction_settles in HR as [_ Hskip].
  right. split; [exact (Hskip result eq_refl)|].
  do 3 eexists. split; reflexivity.
Qed.

(** X16.  [processWebhook] rejects exactly when the last step of the run is
    a call outside the extraction (the storing of the message or of the
    contact, the reading of the recent messages or of the active events, the
    detection of the action, the keyword lookup of the target, or the mutation
    of an action handler) that failed.  A failure inside the extraction never
    makes it reject. *)
Theorem webhook_rejects_iff (data : Webhook.t) (options : Options)
    (tr : list Step) (out : Res IngestionResult.t) :
  Runs (processWebhook data options) tr out ->
  (out = Err <->
   exists s, lastStep tr = Some s /\ stepFailed s = true
             /\ outsideExtraction s = true).
Proof.
  unfold processWebhook.
  (* the three skips before anything is stored *)
  destruct (truthyStr _) as [content|];
    [|intros [-> ->]; apply rejects_done].
  destruct (_ && _); [intros [-> ->]; apply rejects_done|].
  destruct (_ && _); [intros [-> ->]; apply rejects_done|].
  (* the message and the contact *)
  cbv zeta. cbn [bind call]. intros (r1 & tr1 & -> & HR).
  destruct r1 as [[]|]; cbn [bind] in HR;
    [|destruct HR as [-> ->]; now apply rejects_failed].
  apply rejects_cons; [reflexivity|].
  destruct HR as (r2 & tr2 & -> & HR).
  destruct r2 as [[]|]; cbn [bind] in HR;
    [|destruct HR as [-> ->]; now apply rejects_failed].
  apply rejects_cons; [reflexivity|].
  destruct (shouldSkipMessage content);
    [destruct HR as [-> ->]; apply rejects_done|].
  (* the context, the active events and the detection of the action *)
  cbn [bind call] in HR. destruct HR as (r3 & tr3 & -> & HR).
  destruct r3 as [recentMessages|]; cbn [bind] in HR;
    [|destruct HR as [-> ->]; now apply rejects_failed].
  apply rejects_cons; [reflexivity|].
  destruct HR as (r4 & tr4 & -> & HR).
  destruct r4 as [activeEvents|]; cbn [bind] in HR;
    [|destruct HR as [-> ->]; now apply rejects_failed].
  apply rejects_cons; [reflexivity|].
  destruct HR as (r5 & tr5 & -> & HR).
  destruct r5 as [actionResult|]; cbn [bind] in HR;
    [|destruct HR as [-> ->]; now apply rejects_failed].
  apply rejects_cons; [reflexivity|].
  (* the action or the extraction *)
  exact (proj1 (routeAction_settles _ _ _ _ _ _ _ HR)).
Qed.

(** X17.  A result of [processWebhook] that is marked [skipped] has one of
    the four reasons [no_content], [own_message], [group_message] and
    [trivial_message] and reports no event and no trigger.  For the first
    three nothing at all was done; for a trivial message the message and the
    contact were stored and nothing else.  In neither case was the model
    called.  A result that is not marked [skipped] comes from a run that
    stored the message and the contact first and then called the model. *)
Theorem skipped_means_untouched (data : Webhook.t) (options : Options)
    (tr : list Step) (result : IngestionResult.t) :
  Runs (processWebhook data options) tr (Ok result) ->
  (IngestionResult.skipped result = true ->
   IngestionResult.eventsCreated result = 0
   /\ IngestionResult.triggersCreated result = 0
   /\ IngestionResult.events result = None
   /\ Forall (fun s => stepIsModelCall s = false /\ stepWrites s = false) tr
   /\ exists reason,
        IngestionResult.skipReason result = Some reason
        /\ ((In reason ["no_content"; "own_message"; "group_message"] /\ tr = [])
            \/ (reason = "trivial_message"
                /\ exists m c, tr = [Ev (insertMessage m) (Ok tt);
                                     Ev (upsertContact c) (Ok tt)])))
  /\ (IngestionResult.skipped result = false ->
      exists m c rest,
        tr = Ev (insertMessage m) (Ok tt) :: Ev (upsertContact c) (Ok tt) :: rest
        /\ existsb stepIsModelCall rest = true).
Proof.
  intros HR.
  destruct (processWebhook_results _ _ _ _ HR)
    as [(reason & -> & Hreason) | (Hskip & Hrun)].
  - split; [|discriminate]. intros _. repeat split.
    + destruct Hreason as [[_ ->] | (_ & m & c & ->)]; repeat constructor.
    + exists reason. split; [reflexivity|exact Hreason].
  - split; [congruence|]. intros _. exact Hrun.
Qed.

(** ** The target of an action *)

Lemma resolved_target (message : Message.t) (context : list string)
    (senderName : option string) (activeEvents : list Event.t) (a : Detected.t)
    (targetEvent : option Event.t) (tr : list Step) (result : IngestionResult.t)
    (eventId : Z) (title : string) :
  Runs (match targetEvent with
        | Some target =>
            match truthyNum (Event.id target) with
            | Some eventId => performAction message a target eventId
            | None => processMessage message context senderName activeEvents
            end
        | None => processMessage message context senderName activeEvents
        end) tr (Ok result) ->
  namedTarget result = Some (eventId, title) ->
  exists target,
    targetEvent = Some target
    /\ truthyNum (Event.id target) = Some eventId
    /\ Event.title target = title
    /\ Forall (fun s => isKeywordSearch s = false) tr.
Proof.
  assert (Hextraction : forall tr',
    Runs (processMessage message context senderName activeEvents) tr' (Ok result) ->
    namedTarget result = Some (eventId, title) -> False).
  { intros tr' HR. destruct (processMessage_result _ _ _ _ _ _ HR) as [_ [acc E]].
    injection E as ->. discriminate. }
  destruct targetEvent as [target|]; [|intros HR Hn; destruct (Hextraction _ HR Hn)].
  destruct (truthyNum (Event.id target)) as [i|] eqn:Hid;
    [|intros HR Hn; destruct (Hextraction _ HR Hn)].
  intros HR Hnamed. exists target.
  apply performAction_runs in HR
    as [(_ & s & text & -> & Htarget & _ & _ & Hout)
       | (_ & Hclock & result' & E & Hresult)].
  - destruct (stepFailed s); [discriminate|]. injection Hout as ->.
    injection Hnamed as <- <-. repeat split; [exact Hid|].
    constructor; [|constructor].
    destruct s as [X c r|ms]; [destruct c; try discriminate; reflexivity|reflexivity].
  - injection E as <-.
    assert (Hquiet : Forall (fun s => isKeywordSearch s = false) tr).
    { eapply Forall_impl; [|exact Hclock].
      intros [X c r|ms]; [discriminate|reflexivity]. }
    destruct Hresult as [(text & ->) | (_ & changes & description & ->)];
      injection Hnamed as <- <-; repeat split; assumption.
Qed.

(** X18.  The event that a result of [routeAction], the part of
    [processWebhook] after the detection of the action, names as the target of
    an action, done or pending, was resolved in this way: it is the first
    event that the keyword lookup of the run answered, and, when there was no
    lookup or it answered nothing, the first of the active events.  Its
    identifier is neither absent nor 0, and the action passed the test of
    line 126. *)
Theorem action_target_resolution (message : Message.t) (context : list string)
    (senderName : option string) (activeEvents : list Event.t) (a : Detected.t)
    (tr : list Step) (result : IngestionResult.t) (eventId : Z) (title : string) :
  Runs (routeAction message context senderName activeEvents a) tr (Ok result) ->
  namedTarget result = Some (eventId, title) ->
  isRealAction a = true
  /\ exists target,
       truthyNum (Event.id target) = Some eventId
       /\ Event.title target = title
       /\ ((exists s more, In s tr /\ keywordMatches s = Some (target :: more))
           \/ (Forall (fun s => isKeywordSearch s = true -> keywordMatches s = Some [])
                      tr
               /\ hd_error activeEvents = Some target)).
Proof.
  unfold routeAction, findTarget. intros HR Hnamed.
  destruct (isRealAction a).
  2:{ destruct (processMessage_result _ _ _ _ _ _ HR) as [_ [acc E]].
      injection E as ->. discriminate. }
  split; [reflexivity|].
  destruct (Detected.targetKeywords a) as [|kw kws].
  - cbn [bind optOr] in HR.
    destruct (resolved_target _ _ _ _ _ _ _ _ _ _ HR Hnamed)
      as (target & Htarget & Hid & Htitle & Hquiet).
    exists target. repeat split; [exact Hid|exact Htitle|]. right.
    split; [|exact Htarget].
    eapply Forall_impl; [|exact Hquiet]. intros s Hs Hsearch. congruence.
  - cbn [bind call] in HR. destruct HR as (r & tr' & -> & HR).
    destruct r as [matches|]; cbn [bind] in HR; [|destruct HR as [_ [=]]].
    destruct (resolved_target _ _ _ _ _ _ _ _ _ _ HR Hnamed)
      as (target & Htarget & Hid & Htitle & Hquiet).
    exists target. repeat split; [exact Hid|exact Htitle|].
    destruct matches as [|m more]; cbn [hd_error optOr] in Htarget.
    + right. split; [|exact Htarget].
      constructor; [reflexivity|].
      eapply Forall_impl; [|exact Hquiet]. intros s Hs Hsearch. congruence.
    + injection Htarget as ->. left.
      exists (Ev (findActiveEventsByKeywords (kw :: kws)) (Ok (target :: more))), more.
      split; [now left|reflexivity].
Qed.

End WithBuiltins.

(** A detected cancellation of [Demo.netflixEvent]: one deletion. *)
Lemma action_writes_target_once_witness :
  (List.length (filter stepWritesStore [Ev (deleteEvent 7) (Ok tt)]) <= 1)%nat.
Proof.
  refine (proj1 (proj2 (action_writes_target_once (H := Demo.builtins) Demo.message
                          (cancelWith 0.9 Demo.bareModify) Demo.netflixEvent 7
                          [Ev (deleteEvent 7) (Ok tt)] _ _))).
  run_trace.
Defined.

(** The run of [Demo.modifySteps] does not reject: its last step, the
    detection of the action, succeeded. *)
Lemma webhook_rejects_iff_witness :
  Ok Demo.modifyResult = Err <->
  exists s, lastStep Demo.modifySteps = Some s /\ stepFailed s = true
            /\ outsideExtraction s = true.
Proof.
  refine (webhook_rejects_iff (H := Demo.builtins) Demo.payload Demo.options
            Demo.modifySteps (Ok Demo.modifyResult) _).
  run_trace.
Defined.

(** The run of [Demo.modifySteps] is not skipped: the message was stored and
    the model was called. *)
Lemma skipped_means_untouched_witness :
  exists m c rest,
    Demo.modifySteps
    = Ev (insertMessage m) (Ok tt) :: Ev (upsertContact c) (Ok tt) :: rest
    /\ existsb stepIsModelCall rest = true.
Proof.
  refine (proj2 (skipped_means_untouched (H := Demo.builtins) Demo.payload
                   Demo.options Demo.modifySteps Demo.modifyResult _) eq_refl).
  run_trace.
Defined.

(** A cancellation with no keywords hits the first active event,
    [Demo.netflixEvent]. *)
Lemma action_target_resolution_witness :
  isRealAction (cancelWith 0.9 Demo.bareModify) = true
  /\ exists target,
       truthyNum (Event.id target) = Some 7
       /\ Event.title target = "Cancel Netflix"
       /\ ((exists s more,
              In s [Ev (deleteEvent 7) (Ok tt)]
              /\ keywordMatches s = Some (target :: more))
           \/ (Forall (fun s => isKeywordSearch s = true -> keywordMatches s = Some [])
                      [Ev (deleteEvent 7) (Ok tt)]
               /\ hd_error [Demo.netflixEvent] = Some target)).
Proof.
  refine (action_target_resolution (H := Demo.builtins) Demo.message []
            (Some "Rahul") [Demo.netflixEvent] (cancelWith 0.9 Demo.bareModify)
            [Ev (deleteEvent 7) (Ok tt)] Samples.cancelled 7 "Cancel Netflix"
            _ eq_refl).
  run_trace.
Defined.

End IntakeFacts.

(* ------------------------------------------------------------------ *)
(** ** ingestion.ts: the context tag and the batch import               *)
(* ------------------------------------------------------------------ *)

Module TagFacts.
Import Collab Ingestion.

Lemma firstIncluded_in (text : string) (words : list string) (w : string) :
  firstIncluded text words = Some w -> In w words /\ includes text w = true.
Proof. unfold firstIncluded. apply find_some. Qed.

Lemma places_are_destinations : incl places travelKeywords.
Proof.
  intros w Hw. unfold places in Hw. unfold travelKeywords. simpl in *.
  repeat (destruct Hw as [<- | Hw]; [tauto|]). destruct Hw.
Qed.

Section WithBuiltins.
Context `{Builtins}.

(** X19.  The context tag of a new event is never free text: when
    [resolveContextUrl] gives a tag, it is one of the service names, one of
    the travel destinations, or one of the three shops [nykaa], [myntra] and
    [amazon].  For an event of type [travel] or [recommendation] a destination
    found in the text is the tag even when a service name is found too; for
    any other type a service name found in the text is the tag. *)
Theorem context_tag_vocabulary (event : Extracted.t) :
  (forall tag, resolveContextUrl event = Some tag ->
               In tag (serviceKeywords ++ travelKeywords
                       ++ ["nykaa"; "myntra"; "amazon"])%list)
  /\ (forall destination,
        Extracted.type event = "travel" \/ Extracted.type event = "recommendation" ->
        firstIncluded (searchText event) travelKeywords = Some destination ->
        resolveContextUrl event = Some destination)
  /\ (forall service,
        Extracted.type event <> "travel" ->
        Extracted.type event <> "recommendation" ->
        firstIncluded (searchText event) serviceKeywords = Some service ->
        resolveContextUrl event = Some service).
Proof.
  repeat apply conj.
  - intros tag. unfold resolveContextUrl. cbv zeta.
    destruct (firstIncluded (searchText event) serviceKeywords) as [service|] eqn:Es;
      [apply firstIncluded_in in Es as [Es _]|];
      (destruct ((Extracted.type event =? "travel")%string
                 || (Extracted.type event =? "recommendation")%string);
       [destruct (firstIncluded (searchText event) travelKeywords) as [place|] eqn:Et;
        [apply firstIncluded_in in Et as [Et _]|]|]);
      cbn [optOr isSome negb andb];
      try (intros [= <-]; rewrite !in_app_iff; tauto);
      (destruct (Extracted.type event =? "recommendation")%string;
       [repeat match goal with
               | |- context [if existsb ?f ?l then _ else _] => destruct (existsb f l)
               end|]);
      try (intros [= <-]; rewrite !in_app_iff; simpl; tauto);
      (destruct (truthyStr (Extracted.location event)) as [location|];
       [|discriminate]);
      intros Hp; apply firstIncluded_in in Hp as [Hp _];
      apply places_are_destinations in Hp; rewrite !in_app_iff; tauto.
  - intros destination Htype Hd. unfold resolveContextUrl. cbv zeta.
    replace ((Extracted.type event =? "travel")%string
             || (Extracted.type event =? "recommendation")%string) with true
      by (symmetry; apply orb_true_iff; rewrite !String.eqb_eq; exact Htype).
    rewrite Hd. cbn [optOr isSome negb andb]. reflexivity.
  - intros service Htravel Hrec Hs. unfold resolveContextUrl. cbv zeta.
    apply String.eqb_neq in Htravel, Hrec. rewrite Htravel, Hrec, Hs.
    reflexivity.
Qed.

End WithBuiltins.

End TagFacts.

Module BatchFacts.
Import Collab CollabFacts Ingestion IngestionFacts Shape Batch IntakeFacts.

Lemma messagesStored_app (tr1 tr2 : list Step) :
  messagesStored (tr1 ++ tr2) = (messagesStored tr1 ++ messagesStored tr2)%list.
Proof.
  unfold messagesStored. induction tr1 as [|s tr1 IH]; simpl; [reflexivity|].
  destruct (storedMessage s); simpl; now rewrite IH.
Qed.

Section WithBuiltins.
Context `{Builtins}.

(** The steps of an extraction store no message, and its result counts the
    events that they stored. *)
Lemma extraction_in_import (message : Message.t) (tr : list Step)
    (out : Res IngestionResult.t) :
  Runs (processMessage message [] None []) tr out ->
  exists result,
    out = Ok result
    /\ IngestionResult.eventsCreated result = eventsIn tr
    /\ messagesStored tr = []
    /\ Forall (fun s => outsideExtraction s = false) tr.
Proof.
  intros HR.
  pose proof (Always_Runs _ _ _ _ (processMessage_steps message None [] []) HR)
    as Hsteps.
  unfold processMessage in HR.
  apply Runs_bind_inv in HR as [(tr1 & res & tr2 & H1 & [-> ->] & ->) | [H1 ->]];
    destruct (processMessageBody_accounted _ _ _ _ _ _ _ H1)
      as (r & acc & E & Hcount & _); [|discriminate].
  rewrite app_nil_r in *. injection E as ->. cbn [snd].
  exists (resultOf message acc).
  repeat split.
  - exact Hcount.
  - clear -Hsteps. unfold messagesStored.
    induction Hsteps as [|s tr Hs _ IH]; [reflexivity|].
    simpl. destruct Hs; simpl; exact IH.
  - eapply Forall_impl; [|exact Hsteps]. intros s Hs. destruct Hs; reflexivity.
Qed.

Lemma importLoop_runs (messages : list (Incoming * string)) (processed totalEvents : Z)
    (tr : list Step) (out : Res (Z * Z)) :
  Runs (importLoop messages processed totalEvents) tr out ->
  Forall (fun s => outsideExtraction s = true -> storesMessage s = true) tr
  /\ match out with
     | Ok (processed', totalEvents') =>
         processed' = processed + Z.of_nat (List.length (worthProcessing messages))
         /\ totalEvents' = totalEvents + eventsIn tr
         /\ map Message.content (messagesStored tr)
            = map (fun m => content (fst m)) messages
     | Err =>
         (exists s, lastStep tr = Some s /\ storesMessage s = true
                    /\ stepFailed s = true)
         /\ (List.length (messagesStored tr) < List.length messages)%nat
     end.
Proof.
  revert processed totalEvents tr.
  induction messages as [|[msg suffix] rest IH]; intros processed totalEvents tr.
  - intros [-> ->]. split; [constructor|]. cbn. repeat split; lia.
  - cbn [importLoop bind now call]. intros (ms & tr1 & -> & r & tr2 & -> & HR).
    destruct r as [[]|]; cbn [bind] in HR.
    2:{ destruct HR as [-> ->]. split; [repeat constructor; discriminate|].
        split; [eexists; repeat split|]. cbn. lia. }
    assert (Hloop : forall p e tr',
      Runs (importLoop rest p e) tr' out ->
      Forall (fun s => outsideExtraction s = true -> storesMessage s = true) tr'
      /\ match out with
         | Ok (processed', totalEvents') =>
             processed' = p + Z.of_nat (List.length (worthProcessing rest))
             /\ totalEvents' = e + eventsIn tr'
             /\ map Message.content (messagesStored tr')
                = map (fun m => content (fst m)) rest
         | Err =>
             (exists s, lastStep tr' = Some s /\ storesMessage s = true
                        /\ stepFailed s = true)
             /\ (List.length (messagesStored tr') < List.length rest)%nat
         end) by (intros p e tr'; apply IH).
    unfold worthProcessing. cbn [filter fst].
    destruct (shouldSkipMessage (content msg)); cbn [negb] in *.
    + apply Hloop in HR as [Hsteps Hout]. split.
      * constructor; [discriminate|]. constructor; [reflexivity|exact Hsteps].
      * change (Tick ms :: Ev (insertMessage (importedMessage ms suffix msg)) (Ok tt)
                :: tr2)
          with ([Tick ms; Ev (insertMessage (importedMessage ms suffix msg)) (Ok tt)]
                ++ tr2)%list.
        destruct out as [[p' e']|].
        -- destruct Hout as (-> & -> & Hstored). rewrite eventsIn_app, messagesStored_app.
           split; [reflexivity|]. split; [cbn; lia|].
           cbn [messagesStored map storedMessage isOk Matcher.definedOnly app].
           cbn [importedMessage Message.content]. fold (messagesStored tr2).
           now rewrite Hstored.
        -- destruct Hout as [(s & Hlast & Hs) Hlen]. split.
           ++ exists s. rewrite lastStep_app; [auto|].
              intros ->. discriminate.
           ++ rewrite messagesStored_app, length_app. cbn. lia.
    + apply Runs_bind_inv in HR as [(tr3 & result & tr4 & H3 & H4 & ->) | [H3 ->]];
        apply extraction_in_import in H3 as (result' & E & Hcount & Hnone & Hinside);
        [|discriminate].
      injection E as <-.
      apply Hloop in H4 as [Hsteps Hout]. split.
      * constructor; [discriminate|]. constructor; [reflexivity|].
        apply Forall_app. split; [|exact Hsteps].
        eapply Forall_impl; [|exact Hinside]. intros s Hs Ho. congruence.
      * change (Tick ms :: Ev (insertMessage (importedMessage ms suffix msg)) (Ok tt)
                :: tr3 ++ tr4)%list
          with ([Tick ms; Ev (insertMessage (importedMessage ms suffix msg)) (Ok tt)]
                ++ tr3 ++ tr4)%list.
        destruct out as [[p' e']|].
        -- destruct Hout as (-> & -> & Hstored).
           rewrite !eventsIn_app, !messagesStored_app, Hnone.
           split; [unfold worthProcessing; cbn [List.length]; lia|]. split; [cbn; lia|].
           cbn [messagesStored map storedMessage isOk Matcher.definedOnly app].
           cbn [importedMessage Message.content]. fold (messagesStored tr4).
           now rewrite Hstored.
        -- destruct Hout as [(s & Hlast & Hs) Hlen]. split.
           ++ exists s. rewrite !lastStep_app; [auto| |].
              ** intros ->. discriminate.
              ** intros E. apply app_eq_nil in E as [_ ->]. discriminate.
           ++ rewrite !messagesStored_app, !length_app, Hnone. cbn. lia.
Qed.

(** X20.  [batchImportMessages] stores every message before it looks at it,
    in the order given, and calls nothing outside the extraction but
    [insertMessage]: no contact is stored, no action is detected, no event is
    deleted, completed, ignored or snoozed.  Its summary counts all the
    messages as [total], those that the pre-filter lets through as
    [processed], and the events that the run stored or changed as [events].
    It rejects only when an [insertMessage] fails, and then the messages after
    that one are not stored. *)
Theorem batch_import_counts (messages : list (Incoming * string))
    (tr : list Step) (out : Res Summary) :
  Runs (batchImportMessages messages) tr out ->
  Forall (fun s => outsideExtraction s = true -> storesMessage s = true) tr
  /\ (forall summary,
        out = Ok summary ->
        total summary = Z.of_nat (List.length messages)
        /\ processed summary = Z.of_nat (List.length (worthProcessing messages))
        /\ events summary = eventsIn tr
        /\ map Message.content (messagesStored tr)
           = map (fun m => content (fst m)) messages)
  /\ (out = Err ->
      (exists s, lastStep tr = Some s /\ storesMessage s = true
                 /\ stepFailed s = true)
      /\ (List.length (messagesStored tr) < List.length messages)%nat).
Proof.
  unfold batchImportMessages. intros HR.
  apply Runs_bind_inv in HR as [(tr1 & [p e] & tr2 & H1 & [-> ->] & ->) | [H1 ->]];
    apply importLoop_runs in H1 as [Hsteps Hout].
  - rewrite app_nil_r. destruct Hout as (-> & -> & Hstored).
    split; [exact Hsteps|]. split; [|discriminate].
    intros summary [= <-]. cbn [total processed events fst snd].
    split; [reflexivity|]. split; [lia|]. split; [lia|exact Hstored].
  - split; [exact Hsteps|]. split; [discriminate|]. intros _. exact Hout.
Qed.

End WithBuiltins.

(** The import of [Samples.imported]: two messages stored, one processed. *)
Lemma batch_import_counts_witness :
  total Samples.importSummary = 2
  /\ processed Samples.importSummary
     = Z.of_nat (List.length (worthProcessing (H := Demo.builtins) Samples.imported))
  /\ events Samples.importSummary = eventsIn Samples.importSteps
  /\ map Message.content (messagesStored Samples.importSteps)
     = map (fun m => content (fst m)) Samples.imported.
Proof.
  refine (proj1 (proj2 (batch_import_counts (H := Demo.builtins) Samples.imported
                          Samples.importSteps (Ok Samples.importSummary) _))
            Samples.importSummary eq_refl).
  run_trace.
Defined.

End BatchFacts.
